(** * Intraday tick store: ingestion, upsert and query handlers

    A shallow embedding of the server handlers of the intraday tick
    visualizer (schema.ts, db/schema.ts, and the handlers
    fetch_stock_data, batch_fetch_stocks, get_historical_data,
    get_chart_data and get_latest_prices), together with the properties
    of the ingestion and query subsystem.

    The handlers are asynchronous TypeScript functions that talk to a
    PostgreSQL table through drizzle and to a market-data provider.  They
    are embedded as computations in a state-and-error monad over a
    [World]: the table contents, the counters of the database and of the
    provider, the trace of the calls issued, the console log and the
    tables the store has been through.  What the database and the
    provider do is not code of the repository; it is taken from an
    environment [Env]: the input conversion of the interval column, the
    statements that fail, the replies of the provider. *)

From Stdlib Require Import List String ZArith Bool Arith Lia.
From Stdlib Require Import Sorting.Sorted Sorting.Permutation.
Import ListNotations.

Local Open Scope string_scope.
Local Open Scope Z_scope.
Local Open Scope list_scope.

Set Implicit Arguments.

(* ================================================================== *)
(** * schema.ts: the closed enumerations *)

(** [stockSymbolSchema =
      z.enum(['META', 'AAPL', 'AMZN', 'GOOG', 'MSFT', 'NVDA'])]. *)
Inductive StockSymbol : Set :=
  | META | AAPL | AMZN | GOOG | MSFT | NVDA.

Definition stockSymbolSchema : list StockSymbol :=
  [META; AAPL; AMZN; GOOG; MSFT; NVDA].

Definition symbol_eqb (a b : StockSymbol) : bool :=
  match a, b with
  | META, META | AAPL, AAPL | AMZN, AMZN
  | GOOG, GOOG | MSFT, MSFT | NVDA, NVDA => true
  | _, _ => false
  end.

(** [intervalSchema = z.enum(['1m','2m','5m','15m','30m','60m','90m',
    '1h','1d','5d','1wk','1mo','3mo'])]. *)
Inductive Interval : Set :=
  | I1m | I2m | I5m | I15m | I30m | I60m | I90m
  | I1h | I1d | I5d | I1wk | I1mo | I3mo.

Definition intervalSchema : list Interval :=
  [I1m; I2m; I5m; I15m; I30m; I60m; I90m; I1h; I1d; I5d; I1wk; I1mo; I3mo].

(** The token of an interval, the string the TypeScript value is. *)
Definition interval_str (i : Interval) : string :=
  match i with
  | I1m => "1m" | I2m => "2m" | I5m => "5m" | I15m => "15m"
  | I30m => "30m" | I60m => "60m" | I90m => "90m" | I1h => "1h"
  | I1d => "1d" | I5d => "5d" | I1wk => "1wk" | I1mo => "1mo"
  | I3mo => "3mo"
  end.

(* ================================================================== *)
(** * JavaScript objects used as string-keyed tables *)

(** [Record<string, V>] literal, in source order. *)
Definition Table (V : Type) : Type := list (string * V).

(** [table[key]] on the properties the literal lists: [None] is
    [undefined].  The members every object inherits from
    [Object.prototype] ('constructor', 'toString', ...) are not among
    them; the keys the handlers look up are tokens of the interval
    enumeration and values of the interval column.  Where a function is
    given any string, its model tells those names apart
    ([FetchSimulation.objectPrototype]). *)
Fixpoint lookup {V : Type} (t : Table V) (key : string) : option V :=
  match t with
  | [] => None
  | (k, v) :: rest => if String.eqb k key then Some v else lookup rest key
  end.

(** [a || b] on a looked-up string: [undefined] and the empty string
    are falsy. *)
Definition js_or (a : option string) (b : string) : string :=
  match a with
  | Some v => if String.eqb v "" then b else v
  | None => b
  end.

(* ================================================================== *)
(** * The data model *)

(** Prices are [numeric(12,4)] columns: a price is kept as the integer
    number of ten-thousandths, so that the conversions number -> text ->
    numeric -> [parseFloat] of the handlers are the identity on it.
    Timestamps are milliseconds since the epoch, as in a [Date]. *)
Record OHLCV : Set := mkOHLCV {
  open : Z;
  high : Z;
  low : Z;
  close : Z;
  volume : Z
}.

(** A row of [stock_ticks] ([typeof stockTicksTable.$inferSelect]).  The
    handlers return values of the same shape ([StockTick]); there
    [interval] holds whatever token the handler put back. *)
Record StockTick : Set := mkStockTick {
  id : Z;
  symbol : StockSymbol;
  timestamp : Z;
  ohlcv : OHLCV;
  interval : string;
  created_at : Z
}.

(** The values of an insert ([typeof stockTicksTable.$inferInsert]
    without the defaulted columns). *)
Record NewStockTick : Set := mkNewStockTick {
  new_symbol : StockSymbol;
  new_timestamp : Z;
  new_ohlcv : OHLCV;
  new_interval : string
}.

(** [YahooFinanceData]: the timestamp is in seconds. *)
Record YahooFinanceData : Set := mkYahoo {
  yahoo_timestamp : Z;
  yahoo_ohlcv : OHLCV
}.

(** [CandlestickDataPoint]. *)
Record CandlestickDataPoint : Set := mkCandle {
  candle_timestamp : Z;
  candle_ohlcv : OHLCV
}.

(** [ChartDataResponse]. *)
Record ChartDataResponse : Set := mkChart {
  chart_symbol : StockSymbol;
  chart_interval : Interval;
  chart_data : list CandlestickDataPoint
}.

(** [GetHistoricalDataInput], after zod has filled in the defaults. *)
Record GetHistoricalDataInput : Set := mkHistInput {
  input_symbol : option StockSymbol;
  input_interval : Interval;
  input_startDate : option Z;
  input_endDate : option Z;
  input_limit : nat
}.

(** [FetchStockDataInput]. *)
Record FetchStockDataInput : Set := mkFetchInput {
  fetch_symbol : StockSymbol;
  fetch_interval : Interval;
  fetch_period : string
}.

(** [BatchFetchInput]. *)
Record BatchFetchInput : Set := mkBatchInput {
  batch_symbols : list StockSymbol;
  batch_interval : Interval;
  batch_period : string
}.

(** The natural key of a stored row. *)
Definition NaturalKey : Set := (StockSymbol * Z * string)%type.

Definition natural_key (r : StockTick) : NaturalKey :=
  (symbol r, timestamp r, interval r).

Definition key_eqb (a b : NaturalKey) : bool :=
  match a, b with
  | (s1, t1, i1), (s2, t2, i2) =>
      symbol_eqb s1 s2 && (t1 =? t2) && String.eqb i1 i2
  end.

(** [{ ...row, open, high, low, close, volume }]. *)
Definition set_ohlcv (r : StockTick) (v : OHLCV) : StockTick :=
  mkStockTick (id r) (symbol r) (timestamp r) v (interval r) (created_at r).

(** [{ ...row, interval }]. *)
Definition set_interval (r : StockTick) (i : string) : StockTick :=
  mkStockTick (id r) (symbol r) (timestamp r) (ohlcv r) i (created_at r).

(* ================================================================== *)
(** * db/schema.ts: the table and its indexes *)

Inductive Column : Set :=
  | col_id | col_symbol | col_timestamp | col_interval.

Record IndexDef : Set := mkIndex {
  index_name : string;
  index_on : list Column;
  index_unique : bool
}.

(** drizzle's [index(name).on(...)] builds a plain index and
    [uniqueIndex(name).on(...)] a unique one. *)
Definition index (name : string) (on : list Column) : IndexDef :=
  mkIndex name on false.

Definition uniqueIndex (name : string) (on : list Column) : IndexDef :=
  mkIndex name on true.

(** The second argument of [pgTable('stock_ticks', ...)]. *)
Definition stockTicksTable : list IndexDef :=
  [ index "stock_ticks_symbol_timestamp_idx" [col_symbol; col_timestamp];
    index "stock_ticks_timestamp_idx" [col_timestamp];
    index "stock_ticks_symbol_interval_idx" [col_symbol; col_interval];
    index "stock_ticks_unique_idx" [col_symbol; col_timestamp; col_interval] ].

Definition column_agree (c : Column) (a b : StockTick) : bool :=
  match c with
  | col_id => id a =? id b
  | col_symbol => symbol_eqb (symbol a) (symbol b)
  | col_timestamp => timestamp a =? timestamp b
  | col_interval => String.eqb (interval a) (interval b)
  end.

(** The first unique index of [table] that a new row [r] would violate. *)
Fixpoint violated_index (table : list IndexDef) (stored : list StockTick)
    (r : StockTick) : option string :=
  match table with
  | [] => None
  | ix :: rest =>
      if index_unique ix
         && existsb (fun s => forallb (fun c => column_agree c s r)
                                      (index_on ix))
                    stored
      then Some (index_name ix)
      else violated_index rest stored r
  end.

(* ================================================================== *)
(** * The world the handlers run in *)

(** drizzle's filter operators, as the handlers use them. *)
Inductive SQL : Set :=
  | eq_symbol (s : StockSymbol)
  | eq_timestamp (t : Z)
  | eq_interval (v : string)
  | eq_id (i : Z)
  | gte_timestamp (t : Z)
  | lte_timestamp (t : Z).

(** The argument of [.where]: one condition, or [and(...conditions)]. *)
Inductive Where : Set :=
  | where_one (c : SQL)
  | where_and (cs : list SQL).

Inductive DbOp : Set :=
  | OpSelect (w : Where) (orderByDesc : bool) (limit : option nat)
  | OpInsert (v : NewStockTick)
  | OpUpdate (v : OHLCV) (w : Where)
  | OpLatestJoin.

Inductive Event : Set :=
  | EvProvider (s : StockSymbol) (interval period : string)
  | EvDb (op : DbOp) (ok : bool).

Inductive LogLine : Set :=
  | console_log_line (msg : string)
  | console_error_line (msg : string).

Inductive Error : Set :=
  | StoreError
  | ConstraintViolation (index_name : string)
  | ProviderError
  | TypeError.

Inductive Result (A : Type) : Type :=
  | Ok (a : A)
  | Err (e : Error).

Arguments Ok {A} a.
Arguments Err {A} e.

(** What the handlers can observe and change. *)
Record World : Type := mkWorld {
  rows : list StockTick;        (* stock_ticks, in physical order *)
  next_id : Z;                  (* the serial of the id column *)
  clock : Z;                    (* defaultNow() of created_at *)
  db_ops : nat;                 (* database statements issued so far *)
  provider_calls : nat;         (* provider requests issued so far *)
  trace : list Event;           (* the calls issued, oldest first *)
  console : list LogLine;       (* console output, oldest first *)
  history : list (list StockTick)
                                (* the table after each statement that
                                   was executed, oldest first *)
}.

(** What is not code of the repository.
    - [pg_interval_in]: the input conversion of the [interval] column.
      The tests of the repository record that a tick written with '1m'
      may be read back as '00:01:00'; the handlers compensate with their
      tables.  A value compared with the column goes through the same
      conversion.
    - [db_fault n]: the [n]-th database statement fails (connection
      lost, statement refused).
    - [provider s interval period n]: the reply of the provider to the
      [n]-th request; [None] is a rejected promise. *)
Record Env : Type := mkEnv {
  pg_interval_in : string -> string;
  db_fault : nat -> bool;
  provider : StockSymbol -> string -> string -> nat
             -> option (list YahooFinanceData)
}.

(** ** The monad of the handlers: state and exceptions *)

Definition M (A : Type) : Type := World -> Result A * World.

Definition ret {A : Type} (a : A) : M A := fun w => (Ok a, w).

Definition throw {A : Type} (e : Error) : M A := fun w => (Err e, w).

Definition bind {A B : Type} (m : M A) (k : A -> M B) : M B :=
  fun w =>
    match m w with
    | (Ok a, w') => k a w'
    | (Err e, w') => (Err e, w')
    end.

(** [try { m } catch (error) { handler error }]. *)
Definition try_catch {A : Type} (m : M A) (handler : Error -> M A) : M A :=
  fun w =>
    match m w with
    | (Ok a, w') => (Ok a, w')
    | (Err e, w') => handler e w'
    end.

Declare Scope handler_scope.
Delimit Scope handler_scope with handler.
Notation "x <- m ;; k" := (bind m (fun x => k))
  (at level 61, m at next level, right associativity) : handler_scope.
Notation "m ;;; k" := (bind m (fun _ => k))
  (at level 61, right associativity) : handler_scope.
Local Open Scope handler_scope.

Definition record_event (e : Event) (w : World) : World :=
  mkWorld (rows w) (next_id w) (clock w) (db_ops w) (provider_calls w)
          (trace w ++ [e]) (console w) (history w).

Definition count_db_op (w : World) : World :=
  mkWorld (rows w) (next_id w) (clock w) (S (db_ops w)) (provider_calls w)
          (trace w) (console w) (history w).

Definition count_provider_call (w : World) : World :=
  mkWorld (rows w) (next_id w) (clock w) (db_ops w) (S (provider_calls w))
          (trace w) (console w) (history w).

Definition set_rows (rs : list StockTick) (nid : Z) (w : World) : World :=
  mkWorld rs nid (clock w) (db_ops w) (provider_calls w)
          (trace w) (console w) (history w).

(** The table as it stands joins the history. *)
Definition snapshot (w : World) : World :=
  mkWorld (rows w) (next_id w) (clock w) (db_ops w) (provider_calls w)
          (trace w) (console w) (history w ++ [rows w]).

(** The world after a statement that was executed, and after one that
    failed. *)
Definition executed (op : DbOp) (w : World) : World :=
  snapshot (record_event (EvDb op true) (count_db_op w)).

Definition failed (op : DbOp) (w : World) : World :=
  record_event (EvDb op false) (count_db_op w).

Definition console_log (msg : string) : M unit :=
  fun w => (Ok tt,
            mkWorld (rows w) (next_id w) (clock w) (db_ops w)
                    (provider_calls w) (trace w)
                    (console w ++ [console_log_line msg]) (history w)).

Definition console_error (msg : string) : M unit :=
  fun w => (Ok tt,
            mkWorld (rows w) (next_id w) (clock w) (db_ops w)
                    (provider_calls w) (trace w)
                    (console w ++ [console_error_line msg]) (history w)).

(** The number of failed database statements in a trace. *)
Fixpoint db_failures (t : list Event) : nat :=
  match t with
  | [] => O
  | EvDb _ false :: rest => S (db_failures rest)
  | _ :: rest => db_failures rest
  end.

(** The number of provider requests in a trace. *)
Fixpoint provider_requests (t : list Event) : nat :=
  match t with
  | [] => O
  | EvProvider _ _ _ :: rest => S (provider_requests rest)
  | _ :: rest => provider_requests rest
  end.

(** The number of [console.error] lines. *)
Fixpoint error_lines (l : list LogLine) : nat :=
  match l with
  | [] => O
  | console_error_line _ :: rest => S (error_lines rest)
  | _ :: rest => error_lines rest
  end.

(** ** Sorting, as [ORDER BY ... DESC] does it here

    SQL leaves the order of rows with equal keys open; the model keeps
    them in the order they had (a stable insertion sort). *)
Section Sort.
Variable A : Type.
Variable key : A -> Z.

Fixpoint insert_desc (x : A) (l : list A) : list A :=
  match l with
  | [] => [x]
  | y :: ys => if key x <? key y then y :: insert_desc x ys
               else x :: y :: ys
  end.

Fixpoint sort_desc (l : list A) : list A :=
  match l with
  | [] => []
  | x :: xs => insert_desc x (sort_desc xs)
  end.
End Sort.

(* ================================================================== *)
(** * The store, as drizzle exposes it to the handlers *)

Module Db.
Section WithEnv.
Variable env : Env.

(** A stored row against one filter operator.  The operand of a
    comparison with the [interval] column is converted as a stored
    value is. *)
Definition eval_sql (c : SQL) (r : StockTick) : bool :=
  match c with
  | eq_symbol s => symbol_eqb (symbol r) s
  | eq_timestamp t => timestamp r =? t
  | eq_interval v => String.eqb (interval r) (pg_interval_in env v)
  | eq_id i => id r =? i
  | gte_timestamp t => t <=? timestamp r
  | lte_timestamp t => timestamp r <=? t
  end.

Definition eval_where (w : Where) (r : StockTick) : bool :=
  match w with
  | where_one c => eval_sql c r
  | where_and cs => forallb (fun c => eval_sql c r) cs
  end.

(** [.orderBy(desc(stockTicksTable.timestamp))], when present. *)
Definition apply_order (orderByDesc : bool) (l : list StockTick)
  : list StockTick :=
  if orderByDesc then sort_desc timestamp l else l.

(** [.limit(n)], when present. *)
Definition apply_limit (limit : option nat) (l : list StockTick)
  : list StockTick :=
  match limit with
  | Some n => firstn n l
  | None => l
  end.

(** One statement sent to the database: counted, traced, and failing
    when the environment says that this one fails. *)
Definition statement {A : Type} (op : DbOp)
    (run : World -> Result A * World) : M A :=
  fun w =>
    if db_fault env (db_ops w)
    then (Err StoreError, failed op w)
    else match run w with
         | (Ok a, w') => (Ok a, executed op w')
         | (Err e, w') => (Err e, failed op w')
         end.

(** [db.select().from(stockTicksTable).where(w)[.orderBy(desc(timestamp))]
    [.limit(n)].execute()]. *)
Definition select (w : Where) (orderByDesc : bool) (limit : option nat)
  : M (list StockTick) :=
  statement (OpSelect w orderByDesc limit)
    (fun st =>
       (Ok (apply_limit limit
              (apply_order orderByDesc (filter (eval_where w) (rows st)))),
        st)).

(** The row an insert of [v] creates. *)
Definition new_row (v : NewStockTick) (st : World) : StockTick :=
  mkStockTick (next_id st) (new_symbol v) (new_timestamp v) (new_ohlcv v)
              (pg_interval_in env (new_interval v)) (clock st).

(** [db.insert(table).values(v).returning().execute()] on a table with
    the indexes [table]: refused when a unique index forbids the row. *)
Definition insert_into (table : list IndexDef) (v : NewStockTick)
  : M (list StockTick) :=
  statement (OpInsert v)
    (fun st =>
       let r := new_row v st in
       match violated_index table (rows st) r with
       | Some name => (Err (ConstraintViolation name), st)
       | None => (Ok [r], set_rows (rows st ++ [r]) (next_id st + 1) st)
       end).

(** [db.insert(stockTicksTable).values(v).returning().execute()]. *)
Definition insert (v : NewStockTick) : M (list StockTick) :=
  insert_into stockTicksTable v.

(** [db.update(stockTicksTable).set({open, high, low, close, volume})
    .where(w).returning().execute()].  The list keeps an updated row
    where it stood.  PostgreSQL promises no place to a row, and may
    read an updated row back after the others: the statements on what
    an update leaves are about the rows, not about their places. *)
Definition update (v : OHLCV) (w : Where) : M (list StockTick) :=
  statement (OpUpdate v w)
    (fun st =>
       (Ok (map (fun r => set_ohlcv r v) (filter (eval_where w) (rows st))),
        set_rows
          (map (fun r => if eval_where w r then set_ohlcv r v else r)
               (rows st))
          (next_id st) st)).

(** [max(timestamp)] of the rows of one symbol; [None] when the symbol
    has no row (no group). *)
Fixpoint max_timestamp (s : StockSymbol) (l : list StockTick) : option Z :=
  match l with
  | [] => None
  | r :: rest =>
      if symbol_eqb (symbol r) s
      then Some (match max_timestamp s rest with
                 | Some m => Z.max (timestamp r) m
                 | None => timestamp r
                 end)
      else max_timestamp s rest
  end.

(** The subquery [latest_timestamps]:
    [select symbol, max(timestamp) from stock_ticks group by symbol]. *)
Definition latest_timestamps (l : list StockTick)
  : list (StockSymbol * Z) :=
  flat_map (fun s => match max_timestamp s l with
                     | Some m => [(s, m)]
                     | None => []
                     end)
           stockSymbolSchema.

(** [from(stockTicksTable).innerJoin(subquery,
      and(eq(symbol, subquery.symbol),
          eq(timestamp, subquery.maxTimestamp)))]. *)
Definition innerJoin (l : list StockTick) (sub : list (StockSymbol * Z))
  : list (StockTick * (StockSymbol * Z)) :=
  flat_map
    (fun r =>
       map (fun g => (r, g))
           (filter (fun g => symbol_eqb (symbol r) (fst g)
                             && (timestamp r =? snd g))
                   sub))
    l.

(** The join query of [getLatestPrices], ordered by
    [desc(stockTicksTable.timestamp)]. *)
Definition latest_join : M (list (StockTick * (StockSymbol * Z))) :=
  statement OpLatestJoin
    (fun st =>
       (Ok (sort_desc (fun p => timestamp (fst p))
              (innerJoin (rows st) (latest_timestamps (rows st)))),
        st)).

End WithEnv.
End Db.

(* ================================================================== *)
(** * The provider *)

Module Yahoo.
Section WithEnv.
Variable env : Env.

(** One request to the market-data source.  The three simulations of
    the repository ([fetchFromYahooFinance], [simulateYahooFinanceAPI],
    [fetchYahooFinanceData]) draw on the clock and on [Math.random];
    only their call contract is kept. *)
Definition request (s : StockSymbol) (interval period : string)
  : M (list YahooFinanceData) :=
  fun w =>
    let w' := record_event (EvProvider s interval period)
                           (count_provider_call w) in
    match provider env s interval period (provider_calls w) with
    | Some data => (Ok data, w')
    | None => (Err ProviderError, w')
    end.

End WithEnv.
End Yahoo.

(** [conditions.length === 1 ? conditions[0] : and(...conditions)]. *)
Definition build_where (conditions : list SQL) : Where :=
  match conditions with
  | [c] => where_one c
  | _ => where_and conditions
  end.

(** [if (x) conditions.push(f x)] for an optional input field. *)
Definition push_if {A : Type} (x : option A) (f : A -> SQL) : list SQL :=
  match x with
  | Some a => [f a]
  | None => []
  end.

(* ================================================================== *)
(** * handlers/fetch_stock_data.ts *)

Module FetchStockData.
Section WithEnv.
Variable env : Env.

Definition fetchFromYahooFinance := Yahoo.request env.

(** The body of [for (const tick of ticksToUpsert)]: look the tick up
    by its natural key, update the row found through its id or insert
    a new one, and convert the saved row. *)
Definition upsertTick (tick : NewStockTick) : M StockTick :=
  existingTick <-
    Db.select env
      (where_and [eq_symbol (new_symbol tick);
                  eq_timestamp (new_timestamp tick);
                  eq_interval (new_interval tick)])
      false (Some 1%nat);;
  result <-
    match existingTick with
    | existing0 :: _ =>
        Db.update env (new_ohlcv tick) (where_one (eq_id (id existing0)))
    | [] => Db.insert env tick
    end;;
  match result with
  | savedTick :: _ => ret savedTick
  | [] => throw TypeError   (* [savedTick.open] on [undefined] *)
  end.

(** The loop, with [upsertedTicks] as accumulator. *)
Fixpoint upsertLoop (ticksToUpsert : list NewStockTick)
    (upsertedTicks : list StockTick) : M (list StockTick) :=
  match ticksToUpsert with
  | [] => ret upsertedTicks
  | tick :: rest =>
      savedTick <- upsertTick tick;;
      upsertLoop rest (upsertedTicks ++ [savedTick])
  end.

Definition ticksToUpsert (input : FetchStockDataInput)
    (yahooData : list YahooFinanceData) : list NewStockTick :=
  map (fun data =>
         mkNewStockTick (fetch_symbol input)
                        (yahoo_timestamp data * 1000)
                        (yahoo_ohlcv data)
                        (interval_str (fetch_interval input)))
      yahooData.

Definition fetchStockData (input : FetchStockDataInput)
  : M (list StockTick) :=
  try_catch
    (console_log "Fetching stock data for";;;
     yahooData <-
       fetchFromYahooFinance (fetch_symbol input)
                             (interval_str (fetch_interval input))
                             (fetch_period input);;
     match yahooData with
     | [] => ret []
     | _ :: _ =>
         upsertedTicks <- upsertLoop (ticksToUpsert input yahooData) [];;
         console_log "Successfully upserted stock ticks";;;
         ret upsertedTicks
     end)
    (fun error =>
       console_error "Stock data fetch failed:";;;
       throw error).

End WithEnv.
End FetchStockData.

(* ================================================================== *)
(** * handlers/batch_fetch_stocks.ts *)

Module BatchFetchStocks.

Definition intervalMap : Table string :=
  [ ("00:01:00", "1m"); ("00:02:00", "2m"); ("00:05:00", "5m");
    ("00:15:00", "15m"); ("00:30:00", "30m"); ("01:00:00", "60m");
    ("01:30:00", "90m"); ("1 day", "1d"); ("5 days", "5d");
    ("7 days", "1wk"); ("1 mon", "1mo"); ("3 mons", "3mo") ].

(** [normalizeInterval]: [intervalMap[dbInterval] || dbInterval]. *)
Definition normalizeInterval (dbInterval : string) : string :=
  js_or (lookup intervalMap dbInterval) dbInterval.

Section WithEnv.
Variable env : Env.

Definition simulateYahooFinanceAPI := Yahoo.request env.

Definition natural_key_where (tick : NewStockTick) : Where :=
  where_and [eq_symbol (new_symbol tick);
             eq_timestamp (new_timestamp tick);
             eq_interval (new_interval tick)].

(** The body of [for (const tick of stockTicks)], the [try] and its
    [catch]: what it pushes on [upsertedTicks]. *)
Definition upsertTick (tick : NewStockTick) : M (list StockTick) :=
  try_catch
    (existing <- Db.select env (natural_key_where tick) false None;;
     result <-
       match existing with
       | _ :: _ =>
           updated <- Db.update env (new_ohlcv tick)
                                (natural_key_where tick);;
           ret (hd_error updated)
       | [] =>
           inserted <- Db.insert env tick;;
           ret (hd_error inserted)
       end;;
     match result with
     | Some r => ret [set_interval r (normalizeInterval (interval r))]
     | None => throw TypeError   (* [result.open] on [undefined] *)
     end)
    (fun tickError =>
       console_error "Failed to upsert tick for";;;
       (* Continue with other ticks *)
       ret []).

Fixpoint upsertLoop (stockTicks : list NewStockTick)
    (upsertedTicks : list StockTick) : M (list StockTick) :=
  match stockTicks with
  | [] => ret upsertedTicks
  | tick :: rest =>
      pushed <- upsertTick tick;;
      upsertLoop rest (upsertedTicks ++ pushed)
  end.

Definition stockTicks (symbol : StockSymbol) (interval : string)
    (yahooData : list YahooFinanceData) : list NewStockTick :=
  map (fun data =>
         mkNewStockTick symbol (yahoo_timestamp data * 1000)
                        (yahoo_ohlcv data) interval)
      yahooData.

Definition fetchStockDataForSymbol (symbol : StockSymbol)
    (interval period : string) : M (list StockTick) :=
  console_log "Fetching stock data for";;;
  yahooData <- simulateYahooFinanceAPI symbol interval period;;
  match yahooData with
  | [] =>
      console_log "No data received for";;;
      ret []
  | _ :: _ =>
      upsertedTicks <-
        upsertLoop (stockTicks symbol interval yahooData) [];;
      console_log "Successfully upserted ticks for";;;
      ret upsertedTicks
  end.

(** [for (const symbol of input.symbols)], with [allStockTicks] and
    [errors] as accumulators.  The pacing delay between two symbols
    has no counterpart here. *)
Fixpoint symbolLoop (input : BatchFetchInput) (symbols : list StockSymbol)
    (allStockTicks : list StockTick) (errors : list StockSymbol)
  : M (list StockTick * list StockSymbol) :=
  match symbols with
  | [] => ret (allStockTicks, errors)
  | symbol :: rest =>
      step <-
        try_catch
          (console_log "Fetching data for";;;
           fetched <-
             fetchStockDataForSymbol symbol
               (interval_str (batch_interval input)) (batch_period input);;
           console_log "Successfully fetched ticks for";;;
           ret (allStockTicks ++ fetched, errors))
          (fun error =>
             console_error "Failed to fetch data for";;;
             (* Continue with other symbols *)
             ret (allStockTicks, errors ++ [symbol]));;
      symbolLoop input rest (fst step) (snd step)
  end.

Definition batchFetchStocks (input : BatchFetchInput)
  : M (list StockTick) :=
  try_catch
    (console_log "Starting batch fetch for symbols:";;;
     done <- symbolLoop input (batch_symbols input) [] [];;
     console_log "Batch fetch completed";;;
     match snd done with
     | [] => ret tt
     | _ :: _ => console_log "Errors encountered:"
     end;;;
     console_log "Total ticks fetched:";;;
     ret (fst done))
    (fun error =>
       console_error "Batch fetch stocks failed:";;;
       throw error).

End WithEnv.
End BatchFetchStocks.

(* ================================================================== *)
(** * handlers/get_historical_data.ts *)

Module GetHistoricalData.

Definition intervalMap : Table string :=
  [ ("1m", "00:01:00"); ("2m", "00:02:00"); ("5m", "00:05:00");
    ("15m", "00:15:00"); ("30m", "00:30:00"); ("60m", "01:00:00");
    ("90m", "01:30:00"); ("1h", "01:00:00"); ("1d", "1 day");
    ("5d", "5 days"); ("1wk", "7 days"); ("1mo", "1 month");
    ("3mo", "3 months") ].

(** [convertIntervalToPostgres]: [intervalMap[interval] || interval]. *)
Definition convertIntervalToPostgres (interval : string) : string :=
  js_or (lookup intervalMap interval) interval.

Definition reverseMap : Table string :=
  [ ("00:01:00", "1m"); ("00:02:00", "2m"); ("00:05:00", "5m");
    ("00:15:00", "15m"); ("00:30:00", "30m"); ("01:00:00", "1h");
    ("01:30:00", "90m"); ("1 day", "1d"); ("5 days", "5d");
    ("7 days", "1wk"); ("1 month", "1mo"); ("3 months", "3mo") ].

(** [convertIntervalFromPostgres]: [reverseMap[pgInterval] || pgInterval]. *)
Definition convertIntervalFromPostgres (pgInterval : string) : string :=
  js_or (lookup reverseMap pgInterval) pgInterval.

(** The [conditions] array, in the order the handler pushes. *)
Definition conditions (input : GetHistoricalDataInput) : list SQL :=
  push_if (input_symbol input) eq_symbol
  ++ [eq_interval
        (convertIntervalToPostgres (interval_str (input_interval input)))]
  ++ push_if (input_startDate input) gte_timestamp
  ++ push_if (input_endDate input) lte_timestamp.

Section WithEnv.
Variable env : Env.

Definition getHistoricalData (input : GetHistoricalDataInput)
  : M (list StockTick) :=
  try_catch
    (results <-
       Db.select env (build_where (conditions input)) true
                 (Some (input_limit input));;
     ret (map (fun tick =>
                 set_interval tick
                   (convertIntervalFromPostgres (interval tick)))
              results))
    (fun error =>
       console_error "Historical data retrieval failed:";;;
       throw error).

End WithEnv.
End GetHistoricalData.

(* ================================================================== *)
(** * handlers/get_chart_data.ts *)

Module GetChartData.

(** [transformYahooData]. *)
Definition transformYahooData (yahooData : list YahooFinanceData)
    (symbol : StockSymbol) (interval : string) : list NewStockTick :=
  map (fun tick =>
         mkNewStockTick symbol (yahoo_timestamp tick * 1000)
                        (yahoo_ohlcv tick) interval)
      yahooData.

(** The [conditions] array; the interval is compared as the caller
    gave it. *)
Definition conditions (input : GetHistoricalDataInput) : list SQL :=
  push_if (input_symbol input) eq_symbol
  ++ [eq_interval (interval_str (input_interval input))]
  ++ push_if (input_startDate input) gte_timestamp
  ++ push_if (input_endDate input) lte_timestamp.

(** [results.map(tick => ({timestamp, open, high, low, close, volume}))]. *)
Definition chartData (results : list StockTick)
  : list CandlestickDataPoint :=
  map (fun tick => mkCandle (timestamp tick) (ohlcv tick)) results.

Section WithEnv.
Variable env : Env.

Definition fetchFromYahooFinance := Yahoo.request env.

(** [errorMessage.includes('duplicate') || errorMessage.includes('unique')]:
    PostgreSQL reports a refused row as "duplicate key value violates
    unique constraint". *)
Definition is_duplicate_error (error : Error) : bool :=
  match error with
  | ConstraintViolation _ => true
  | _ => false
  end.

(** The inner loop of [upsertStockTicks]: a plain insert per tick,
    every failure swallowed. *)
Fixpoint insertLoop (ticks : list NewStockTick) : M unit :=
  match ticks with
  | [] => ret tt
  | tick :: rest =>
      try_catch
        (Db.insert env tick;;; ret tt)
        (fun error =>
           (* Ignore duplicate key errors, log others *)
           if is_duplicate_error error then ret tt
           else console_error "Error inserting tick:");;;
      insertLoop rest
  end.

Definition upsertStockTicks (ticks : list NewStockTick) : M unit :=
  match ticks with
  | [] => ret tt
  | _ :: _ =>
      try_catch
        (insertLoop ticks)
        (fun error =>
           console_error "Batch upsert failed:";;;
           throw error)
  end.

(** The query of the handler, issued once before and once after the
    fetch. *)
Definition query (input : GetHistoricalDataInput) : M (list StockTick) :=
  Db.select env (build_where (conditions input)) true
            (Some (input_limit input)).

(** The block under
    [if (results.length === 0 && input.symbol)]: [Some response] when
    it returns, [None] when its [catch] falls through. *)
Definition fallback (input : GetHistoricalDataInput) (symbol : StockSymbol)
  : M (option ChartDataResponse) :=
  try_catch
    (console_log "No local data found, fetching from Yahoo Finance...";;;
     yahooData <-
       fetchFromYahooFinance symbol
                             (interval_str (input_interval input)) "1d";;
     upsertStockTicks
       (transformYahooData yahooData symbol
                           (interval_str (input_interval input)));;;
     newResults <- query input;;
     ret (Some (mkChart symbol (input_interval input)
                        (chartData newResults))))
    (fun fetchError =>
       console_error "Failed to fetch from Yahoo Finance:";;;
       (* Fall through to return empty response *)
       ret None).

Definition getChartData (input : GetHistoricalDataInput)
  : M ChartDataResponse :=
  try_catch
    (results <- query input;;
     early <-
       match results, input_symbol input with
       | [], Some symbol => fallback input symbol
       | _, _ => ret None
       end;;
     match early with
     | Some response => ret response
     | None =>
         match results with
         | [] =>
             (* Default to AAPL if no symbol specified *)
             ret (mkChart
                    (match input_symbol input with
                     | Some s => s
                     | None => AAPL
                     end)
                    (input_interval input) [])
         | first :: _ =>
             ret (mkChart
                    (match input_symbol input with
                     | Some s => s
                     | None => symbol first
                     end)
                    (input_interval input) (chartData results))
         end
     end)
    (fun error =>
       console_error "Chart data retrieval failed:";;;
       throw error).

End WithEnv.
End GetChartData.

(* ================================================================== *)
(** * handlers/get_latest_prices.ts *)

Module GetLatestPrices.

(** [intervalMapping : Record<string, Interval>]. *)
Definition intervalMapping : Table Interval :=
  [ ("00:01:00", I1m); ("00:02:00", I2m); ("00:05:00", I5m);
    ("00:15:00", I15m); ("00:30:00", I30m); ("01:00:00", I1h);
    ("01:30:00", I90m); ("1 day", I1d); ("5 days", I5d);
    ("7 days", I1wk); ("1 mon", I1mo); ("3 mons", I3mo) ].

(** [reverseIntervalMapping : Record<Interval, string>], total on the
    enumeration. *)
Definition reverseIntervalMapping (i : Interval) : string :=
  match i with
  | I1m => "1m" | I2m => "2m" | I5m => "5m" | I15m => "15m"
  | I30m => "30m" | I60m => "1h" | I90m => "90m" | I1h => "1h"
  | I1d => "1d" | I5d => "5d" | I1wk => "1wk" | I1mo => "1mo"
  | I3mo => "3mo"
  end.

(** [intervalMapping[dbInterval] || fallback], the decoding used by both
    functions of the handler: [upsertStockTicks] falls back on
    [tick.interval], [getLatestPrices] on [dbInterval] itself. *)
Definition schemaInterval (dbInterval : string) (fallback : string)
  : string :=
  js_or (option_map interval_str (lookup intervalMapping dbInterval))
        fallback.

(** [Omit<StockTick, 'id' | 'created_at'>]. *)
Record Tick : Set := mkTick {
  tick_symbol : StockSymbol;
  tick_timestamp : Z;
  tick_ohlcv : OHLCV;
  tick_interval : Interval
}.

(** The values [upsertStockTicks] inserts for a tick. *)
Definition values (tick : Tick) : NewStockTick :=
  mkNewStockTick (tick_symbol tick) (tick_timestamp tick) (tick_ohlcv tick)
                 (reverseIntervalMapping (tick_interval tick)).

Section WithEnv.
Variable env : Env.

(** [fetchYahooFinanceData(symbol)], with its default interval and
    period. *)
Definition fetchYahooFinanceData (symbol : StockSymbol) :=
  Yahoo.request env symbol "1m" "1d".

(** The body of [for (const tick of ticks)] in [upsertStockTicks],
    the [try] and its [catch], which logs and rethrows. *)
Definition upsertTick (tick : Tick) : M StockTick :=
  try_catch
    (existing <-
       Db.select env
         (where_and [eq_symbol (tick_symbol tick);
                     eq_timestamp (tick_timestamp tick);
                     eq_interval
                       (reverseIntervalMapping (tick_interval tick))])
         false (Some 1%nat);;
     result <-
       match existing with
       | existing0 :: _ =>
           updated <- Db.update env (tick_ohlcv tick)
                                (where_one (eq_id (id existing0)));;
           ret (hd_error updated)
       | [] =>
           inserted <- Db.insert env (values tick);;
           ret (hd_error inserted)
       end;;
     match result with
     | Some r =>
         ret (set_interval r
                (schemaInterval (interval r)
                                (interval_str (tick_interval tick))))
     | None => throw TypeError   (* [result.interval] on [undefined] *)
     end)
    (fun error =>
       console_error "Failed to upsert tick for";;;
       throw error).

Fixpoint upsertLoop (ticks : list Tick) (results : list StockTick)
  : M (list StockTick) :=
  match ticks with
  | [] => ret results
  | tick :: rest =>
      saved <- upsertTick tick;;
      upsertLoop rest (results ++ [saved])
  end.

Definition upsertStockTicks (ticks : list Tick) : M (list StockTick) :=
  match ticks with
  | [] => ret []
  | _ :: _ => upsertLoop ticks []
  end.

(** [for (const symbol of symbols)] of the refresh, with [allTicks] as
    accumulator: a provider failure is logged and the loop goes on. *)
Fixpoint fetchLoop (symbols : list StockSymbol) (allTicks : list Tick)
  : M (list Tick) :=
  match symbols with
  | [] => ret allTicks
  | symbol :: rest =>
      allTicks' <-
        try_catch
          (yahooData <- fetchYahooFinanceData symbol;;
           ret (allTicks
                ++ map (fun data =>
                          mkTick symbol (yahoo_timestamp data * 1000)
                                 (yahoo_ohlcv data) I1m)
                       yahooData))
          (fun error =>
             console_error "Failed to fetch data for";;;
             (* Continue with other symbols even if one fails *)
             ret allTicks);;
      fetchLoop rest allTicks'
  end.

(** The block under [if (fetchFresh)]. *)
Definition refresh : M unit :=
  allTicks <- fetchLoop [META; AAPL; AMZN; GOOG; MSFT; NVDA] [];;
  match allTicks with
  | [] => ret tt
  | _ :: _ => upsertStockTicks allTicks;;; ret tt
  end.

Definition getLatestPrices (fetchFresh : bool) : M (list StockTick) :=
  try_catch
    ((if fetchFresh then refresh else ret tt);;;
     results <- Db.latest_join env;;
     ret (map (fun result =>
                 let stockTick := fst result in
                 set_interval stockTick
                   (schemaInterval (interval stockTick)
                                   (interval stockTick)))
              results))
    (fun error =>
       console_error "Failed to get latest prices:";;;
       throw error).

End WithEnv.
End GetLatestPrices.

(* ================================================================== *)
(** * The properties, as the specification words them *)

(** At most one row per natural key. *)
Definition natural_key_unique (stored : list StockTick) : Prop :=
  NoDup (map natural_key stored).

(** The stored rows of one natural key. *)
Definition rows_with_key (k : NaturalKey) (stored : list StockTick)
  : list StockTick :=
  filter (fun r => key_eqb (natural_key r) k) stored.

(** No database statement fails from the [n]-th on. *)
Definition no_fault_from (env : Env) (n : nat) : Prop :=
  forall m : nat, (n <= m)%nat -> db_fault env m = false.

(** The upsert operations that callers reach. *)
Inductive UpsertOp : Set :=
  | fetchAndStore (input : FetchStockDataInput)
  | batchFetchAndStore (input : BatchFetchInput)
  | latestPricesRefresh.

Definition run_upsert (env : Env) (op : UpsertOp) (w : World) : World :=
  match op with
  | fetchAndStore input => snd (FetchStockData.fetchStockData env input w)
  | batchFetchAndStore input =>
      snd (BatchFetchStocks.batchFetchStocks env input w)
  | latestPricesRefresh => snd (GetLatestPrices.getLatestPrices env true w)
  end.

Fixpoint run_upserts (env : Env) (ops : list UpsertOp) (w : World) : World :=
  match ops with
  | [] => w
  | op :: rest => run_upserts env rest (run_upsert env op w)
  end.

(** The key under which the values of an insert are stored. *)
Definition stored_key (env : Env) (v : NewStockTick) : NaturalKey :=
  (new_symbol v, new_timestamp v, pg_interval_in env (new_interval v)).

(** The natural key is unique in the table, and was in every table the
    store has been through. *)
Definition unique_always (w : World) : Prop :=
  natural_key_unique (rows w) /\ Forall natural_key_unique (history w).

(** A computation that keeps the natural key unique at all times,
    whether it returns or throws. *)
Definition keeps {A : Type} (m : M A) : Prop :=
  forall w, unique_always w -> unique_always (snd (m w)).

(** What an upsert of the values [v] under the key [k] does to the
    rows: a new row of that key, or the values written into the rows
    a condition [c] selects, the first row of the key among them. *)
Definition upserted (k : NaturalKey) (v : OHLCV) (w w' : World) : Prop :=
  (rows_with_key k (rows w) = []
   /\ exists r, rows w' = rows w ++ [r]
                /\ natural_key r = k /\ ohlcv r = v)
  \/ (exists c r0 rest,
        rows_with_key k (rows w) = r0 :: rest
        /\ c r0 = true
        /\ rows w' = map (fun r => if c r then set_ohlcv r v else r)
                         (rows w)).

(** What two successive upserts of the key [k], of the values [v1] and
    then [v2], leave of a table [w], through [w1] to [w2]: the key has
    the rows it had, one when it had none, and the second upsert adds
    no row; a row of the key holds [v2]; and when the key had at most
    one row, it has exactly one, the same after both upserts, holding
    [v1] and then [v2]. *)
Definition upserted_twice (k : NaturalKey) (v1 v2 : OHLCV)
    (w w1 w2 : World) : Prop :=
  List.length (rows_with_key k (rows w2))
  = Nat.max 1 (List.length (rows_with_key k (rows w)))
  /\ List.length (rows w2) = List.length (rows w1)
  /\ (exists r, In r (rows_with_key k (rows w2)) /\ ohlcv r = v2)
  /\ ((List.length (rows_with_key k (rows w)) <= 1)%nat ->
      exists r1,
        rows_with_key k (rows w1) = [r1]
        /\ ohlcv r1 = v1
        /\ rows_with_key k (rows w2) = [set_ohlcv r1 v2]).

(** ** The range query, following the specification

    "Builds a conjunction of the supplied predicates, encodes interval
    via IntervalCodec, queries TickStore, orders results by timestamp
    descending, truncates to limit"; the ticks come back with the
    interval decoded. *)
Module RangeQuerySpec.

Definition encode (i : Interval) : string :=
  GetHistoricalData.convertIntervalToPostgres (interval_str i).

Definition decode (stored : string) : string :=
  GetHistoricalData.convertIntervalFromPostgres stored.

Definition symbol_ok (input : GetHistoricalDataInput) (r : StockTick) : bool :=
  match input_symbol input with
  | Some s => symbol_eqb (symbol r) s
  | None => true
  end.

Definition interval_ok (env : Env) (input : GetHistoricalDataInput)
    (r : StockTick) : bool :=
  String.eqb (interval r) (pg_interval_in env (encode (input_interval input))).

Definition start_ok (input : GetHistoricalDataInput) (r : StockTick) : bool :=
  match input_startDate input with
  | Some t => t <=? timestamp r
  | None => true
  end.

Definition end_ok (input : GetHistoricalDataInput) (r : StockTick) : bool :=
  match input_endDate input with
  | Some t => timestamp r <=? t
  | None => true
  end.

(** The conjunction of the supplied predicates. *)
Definition satisfies (env : Env) (input : GetHistoricalDataInput)
    (r : StockTick) : bool :=
  symbol_ok input r && interval_ok env input r
  && start_ok input r && end_ok input r.

(** The stored rows the query selects, newest first, truncated. *)
Definition selected (env : Env) (input : GetHistoricalDataInput)
    (stored : list StockTick) : list StockTick :=
  firstn (input_limit input)
         (sort_desc timestamp (filter (satisfies env input) stored)).

(** A returned tick: the stored row with its interval decoded. *)
Definition returned (r : StockTick) : StockTick :=
  set_interval r (decode (interval r)).

Definition queryHistory (env : Env) (input : GetHistoricalDataInput)
    (stored : list StockTick) : list StockTick :=
  map returned (selected env input stored).

End RangeQuerySpec.

(** ** The latest tick per symbol *)
Module LatestSpec.

(** [r] has the maximum timestamp among the stored rows of its symbol,
    whatever their interval. *)
Definition is_latest (stored : list StockTick) (r : StockTick) : bool :=
  forallb (fun r' => negb (symbol_eqb (symbol r') (symbol r))
                     || (timestamp r' <=? timestamp r))
          stored.

Definition decode (stored : string) : string :=
  GetLatestPrices.schemaInterval stored stored.

(** The stored rows reported, newest first. *)
Definition selected (stored : list StockTick) : list StockTick :=
  sort_desc timestamp (filter (is_latest stored) stored).

(** A returned tick: the stored row with its interval decoded. *)
Definition returned (r : StockTick) : StockTick :=
  set_interval r (decode (interval r)).

Definition latestPrices (stored : list StockTick) : list StockTick :=
  map returned (selected stored).

End LatestSpec.

(** Descending order of a key. *)
Definition desc {A : Type} (key : A -> Z) (a b : A) : Prop :=
  key b <= key a.

(** Newest first. *)
Definition newest_first (l : list StockTick) : Prop :=
  StronglySorted (desc timestamp) l.

(** ** The store of the range-filter scenario

    AAPL ticks of interval 5m at T-30m and T-25m, a META tick of
    interval 5m at T-20m and an AAPL tick of interval 1m at T-15m, in
    the order get_historical_data.test.ts writes them.  [i5] and [i1]
    are what the interval column holds for the ticks of 5m and
    of 1m. *)
Module RangeExample.

Definition minutes (n : Z) : Z := n * 60000.

Definition aapl30 (i5 : string) (T : Z) : StockTick :=
  mkStockTick 1 AAPL (T - minutes 30)
              (mkOHLCV 1755000 1760000 1750000 1757500 1000000) i5 T.

Definition aapl25 (i5 : string) (T : Z) : StockTick :=
  mkStockTick 2 AAPL (T - minutes 25)
              (mkOHLCV 1757500 1762500 1752500 1760000 1200000) i5 T.

Definition meta20 (i5 : string) (T : Z) : StockTick :=
  mkStockTick 3 META (T - minutes 20)
              (mkOHLCV 3000000 3010000 2995000 3005000 800000) i5 T.

Definition aapl15 (i1 : string) (T : Z) : StockTick :=
  mkStockTick 4 AAPL (T - minutes 15)
              (mkOHLCV 1760000 1765000 1755000 1762500 900000) i1 T.

Definition stored (i5 i1 : string) (T : Z) : list StockTick :=
  [aapl30 i5 T; aapl25 i5 T; meta20 i5 T; aapl15 i1 T].

End RangeExample.


(* ================================================================== *)
(** * Concrete environments and stores, for the examples *)

Module Sample.

(** A column that converts its input the way the table of
    get_historical_data.ts expects PostgreSQL to: '5m' is kept as
    '00:05:00', and a value already in that form is kept. *)
Definition pg_interval_in (v : string) : string :=
  GetHistoricalData.convertIntervalToPostgres v.

Definition never (n : nat) : bool := false.
Definition always (n : nat) : bool := true.
Definition only (k : nat) (n : nat) : bool := Nat.eqb n k.

Definition ohlcv1 : OHLCV := mkOHLCV 1500000 1550000 1490000 1540000 1000000.
Definition ohlcv2 : OHLCV := mkOHLCV 1550000 1600000 1540000 1590000 1200000.

(** A provider that answers every request with the same two points,
    one minute apart. *)
Definition two_points (s : StockSymbol) (interval period : string) (n : nat)
  : option (list YahooFinanceData) :=
  Some [mkYahoo 1704103200 ohlcv1; mkYahoo 1704103260 ohlcv2].

(** A provider that has nothing. *)
Definition no_points (s : StockSymbol) (interval period : string) (n : nat)
  : option (list YahooFinanceData) :=
  Some [].

Definition env (fault : nat -> bool)
    (p : StockSymbol -> string -> string -> nat
         -> option (list YahooFinanceData)) : Env :=
  mkEnv pg_interval_in fault p.

(** An empty table on a fresh database. *)
Definition empty : World := mkWorld [] 1 1704103200000 0 0 [] [] [].

Definition with_rows (stored : list StockTick) : World :=
  mkWorld stored (1 + Z.of_nat (List.length stored)) 1704103200000 0 0 [] []
          [].

End Sample.

(** ** The store of the latest-price scenario

    AAPL and META ticks at T-60m, then AAPL and META ticks at T, in the
    order get_latest_prices.test.ts writes them.  [i] is what the
    interval column holds for them. *)
Module LatestExample.

Definition aapl_old (i : string) (T : Z) : StockTick :=
  mkStockTick 1 AAPL (T - RangeExample.minutes 60)
              (mkOHLCV 1500000 1550000 1490000 1540000 1000000) i T.

Definition meta_old (i : string) (T : Z) : StockTick :=
  mkStockTick 2 META (T - RangeExample.minutes 60)
              (mkOHLCV 3000000 3100000 2950000 3050000 800000) i T.

Definition aapl_new (i : string) (T : Z) : StockTick :=
  mkStockTick 3 AAPL T
              (mkOHLCV 1550000 1600000 1540000 1590000 1200000) i T.

Definition meta_new (i : string) (T : Z) : StockTick :=
  mkStockTick 4 META T
              (mkOHLCV 3050000 3150000 3000000 3120000 900000) i T.

Definition stored (i : string) (T : Z) : list StockTick :=
  [aapl_old i T; meta_old i T; aapl_new i T; meta_new i T].

(** A store in which AAPL has two ticks at its latest timestamp, one of
    interval 1m and one of interval 5m: two natural keys. *)
Definition tied : list StockTick :=
  [ mkStockTick 1 AAPL 1704103200000 Sample.ohlcv1 "00:01:00" 1704103200000;
    mkStockTick 2 AAPL 1704103200000 Sample.ohlcv2 "00:05:00" 1704103200000 ].

End LatestExample.

(** ** A second insert of a stored natural key *)
Module DuplicateExample.

Definition env : Env := Sample.env Sample.never Sample.two_points.

(** The row an earlier ingestion stored. *)
Definition existing : StockTick :=
  mkStockTick 1 AAPL 1704103200000 Sample.ohlcv1 "00:01:00" 1704103200000.

(** The same symbol, timestamp and interval, fetched again. *)
Definition again : NewStockTick :=
  mkNewStockTick AAPL 1704103200000 Sample.ohlcv2 "1m".

(** And once more, with other values. *)
Definition onceMore : NewStockTick :=
  mkNewStockTick AAPL 1704103200000
                 (mkOHLCV 1590000 1620000 1580000 1610000 900000) "1m".

Definition store : World := Sample.with_rows [existing].

(** The table as its comment describes it: the index on
    (symbol, timestamp, interval) unique. *)
Definition uniqueTable : list IndexDef :=
  [ uniqueIndex "stock_ticks_unique_idx"
                [col_symbol; col_timestamp; col_interval] ].

(** A chart request whose window holds no stored tick. *)
Definition chartInput : GetHistoricalDataInput :=
  mkHistInput (Some AAPL) I1m (Some 1704103260000) None 100.

(** A stored row whose values differ from those the provider returns
    for its natural key. *)
Definition stale : StockTick :=
  mkStockTick 1 AAPL 1704103200000 Sample.ohlcv2 "00:01:00" 1704103200000.

Definition staleStore : World := Sample.with_rows [stale].

(** The row the fallback adds for that key. *)
Definition fetched : StockTick :=
  mkStockTick 2 AAPL 1704103200000 Sample.ohlcv1 "00:01:00" 1704103200000.

(** The store after the chart request, and after each of the two
    upserts of [fetch_stock_data.ts] that follow it. *)
Definition afterChart : World :=
  snd (GetChartData.getChartData env chartInput store).

Definition afterFirst : World :=
  snd (FetchStockData.upsertTick env again afterChart).

Definition afterSecond : World :=
  snd (FetchStockData.upsertTick env onceMore afterFirst).

End DuplicateExample.

(** The number of [select] statements in a trace. *)
Fixpoint selects (t : list Event) : nat :=
  match t with
  | [] => O
  | EvDb (OpSelect _ _ _) _ :: rest => S (selects rest)
  | _ :: rest => selects rest
  end.

(** ** Store failures *)

(** No statement failed between [w] and [w']. *)
Definition clean (w w' : World) : Prop :=
  db_failures (trace w') = db_failures (trace w).

(** The operation ended on the one statement that failed, with that
    failure as its error. *)
Definition aborted {A : Type} (r : Result A) (w w' : World) : Prop :=
  r = Err StoreError
  /\ exists t op, trace w' = t ++ [EvDb op false]
                  /\ db_failures t = db_failures (trace w).

(** A computation that a failing statement ends at once. *)
Definition fail_fast {A : Type} (m : M A) : Prop :=
  forall w, clean w (snd (m w)) \/ aborted (fst (m w)) w (snd (m w)).

(** A computation that meets no failing statement. *)
Definition quiet {A : Type} (m : M A) : Prop :=
  forall w, clean w (snd (m w)).


(** ** The failure policy of the batch handler, point by point

    An upsert is two statements, a lookup and then an update or an
    insert; the second is not sent when the lookup fails.
    [stored_points fault n k] tells, for [k] points upserted one after
    the other from the [n]-th statement on, which are stored ([true])
    and which are skipped ([false]): a point is stored when neither of
    its statements fails.  [after_points fault n k] is the number of
    the statement that follows them. *)
Fixpoint stored_points (fault : nat -> bool) (n k : nat) : list bool :=
  match k with
  | O => []
  | S k' =>
      if fault n then false :: stored_points fault (S n) k'
      else negb (fault (S n)) :: stored_points fault (S (S n)) k'
  end.

Fixpoint after_points (fault : nat -> bool) (n k : nat) : nat :=
  match k with
  | O => n
  | S k' =>
      if fault n then after_points fault (S n) k'
      else after_points fault (S (S n)) k'
  end.

(** The elements of a list whose mark is [true]. *)
Fixpoint kept {A : Type} (marks : list bool) (l : list A) : list A :=
  match marks, l with
  | mark :: marks', a :: l' =>
      if mark then a :: kept marks' l' else kept marks' l'
  | _, _ => []
  end.

(** The number of marks that are [false]. *)
Definition skipped (marks : list bool) : nat :=
  List.length (filter negb marks).

(** What the caller of the batch handler sees of the tick returned for
    a stored point, besides its id and created_at: the values of the
    point, with the interval as the column holds it, translated back by
    [normalizeInterval]. *)
Definition batch_content (env : Env) (v : NewStockTick)
  : StockSymbol * Z * OHLCV * string :=
  (new_symbol v, new_timestamp v, new_ohlcv v,
   BatchFetchStocks.normalizeInterval (pg_interval_in env (new_interval v))).

(** The points of a batch: those the provider returns for the symbols,
    one request per symbol from the [n]-th on, a rejected request
    giving none. *)
Fixpoint batch_points (env : Env) (interval period : string)
    (symbols : list StockSymbol) (n : nat) : list NewStockTick :=
  match symbols with
  | [] => []
  | symbol :: rest =>
      match provider env symbol interval period n with
      | Some yahooData =>
          BatchFetchStocks.stockTicks symbol interval yahooData
      | None => []
      end
      ++ batch_points env interval period rest (S n)
  end.

(** What going through the points [vs] has done between [w] and [w']:
    every point was looked up, every stored point has a row of its key,
    no key of the table was dropped and no row was added for a skipped
    point. *)
Definition batch_outcome (env : Env) (vs : list NewStockTick)
    (w w' : World) : Prop :=
  db_ops w' = after_points (db_fault env) (db_ops w) (List.length vs)
  /\ selects (trace w') = (selects (trace w) + List.length vs)%nat
  /\ (forall v,
        In v (kept (stored_points (db_fault env) (db_ops w)
                                  (List.length vs)) vs) ->
        In (stored_key env v) (map natural_key (rows w')))
  /\ (forall k, In k (map natural_key (rows w)) ->
                In k (map natural_key (rows w')))
  /\ (List.length (rows w')
      + skipped (stored_points (db_fault env) (db_ops w) (List.length vs))
      <= List.length (rows w) + List.length vs)%nat.


(** The [m]-th statement is the first to fail among the [k] statements
    from the [n]-th on. *)
Definition first_fault (env : Env) (n k m : nat) : Prop :=
  (n <= m < n + k)%nat
  /\ db_fault env m = true
  /\ forall j, (n <= j < m)%nat -> db_fault env j = false.

(** The last thing done is a statement that failed. *)
Definition ends_on_failure (w : World) : Prop :=
  exists t op, trace w = t ++ [EvDb op false].

(** ** The chart query *)

(** The rows one insert per value appends, the ids drawn from [nid]. *)
Fixpoint appended (env : Env) (vs : list NewStockTick) (nid clk : Z)
  : list StockTick :=
  match vs with
  | [] => []
  | v :: rest =>
      mkStockTick nid (new_symbol v) (new_timestamp v) (new_ohlcv v)
                  (pg_interval_in env (new_interval v)) clk
      :: appended env rest (nid + 1) clk
  end.

(** The tables those inserts leave, one after the other. *)
Fixpoint appended_stores (env : Env) (vs : list NewStockTick)
    (stored : list StockTick) (nid clk : Z) : list (list StockTick) :=
  match vs with
  | [] => []
  | v :: rest =>
      let stored' :=
        stored ++ [mkStockTick nid (new_symbol v) (new_timestamp v)
                               (new_ohlcv v)
                               (pg_interval_in env (new_interval v)) clk] in
      stored' :: appended_stores env rest stored' (nid + 1) clk
  end.

(** The statement of the query of the chart handler. *)
Definition chart_select (input : GetHistoricalDataInput) : DbOp :=
  OpSelect (build_where (GetChartData.conditions input)) true
           (Some (input_limit input)).

(** The rows that query finds in a table. *)
Definition chart_rows (env : Env) (input : GetHistoricalDataInput)
    (stored : list StockTick) : list StockTick :=
  firstn (input_limit input)
         (sort_desc timestamp
            (filter (Db.eval_where env
                       (build_where (GetChartData.conditions input)))
                    stored)).

(** The store treats the token of the request and its encoding by
    [convertIntervalToPostgres] as one value of the interval column. *)
Definition codec_agrees (env : Env) (i : Interval) : Prop :=
  pg_interval_in env (interval_str i)
  = pg_interval_in env
      (GetHistoricalData.convertIntervalToPostgres (interval_str i)).


(* ================================================================== *)
(** * handlers/get_all_symbols.ts *)

Module GetAllSymbols.

(** [getAllSymbols]: "Return all available stock symbols from the
    enum". *)
Definition getAllSymbols : M (list StockSymbol) :=
  ret [META; AAPL; AMZN; GOOG; MSFT; NVDA].

End GetAllSymbols.

(* ================================================================== *)
(** * What the handlers do to the store and to the provider *)

(** The columns of a row that no statement of the handlers sets once
    the row is there: their updates set open, high, low, close and
    volume only. *)
Definition Frame : Set := (Z * StockSymbol * Z * string * Z)%type.

Definition frame (r : StockTick) : Frame :=
  (id r, symbol r, timestamp r, interval r, created_at r).

(** [w'] has the rows of [w], each as often as [w] has it and with its
    frame, and possibly more rows.  A table has no order of its own:
    where a row stands among the others is not part of the statement. *)
Definition extends (w w' : World) : Prop :=
  exists added : list Frame,
    Permutation (map frame (rows w')) (map frame (rows w) ++ added).

(** A computation that relates by [R] the world it starts in and the
    world it ends in, whether it returns or throws. *)
Definition stepwise (R : World -> World -> Prop) {A : Type} (m : M A)
  : Prop :=
  forall w, R w (snd (m w)).

(** A computation whose failures are all among [allowed]. *)
Definition raises_only {A : Type} (allowed : Error -> Prop) (m : M A)
  : Prop :=
  forall w e, fst (m w) = Err e -> allowed e.

(** The requests to the provider in a trace, in the order issued. *)
Definition is_provider_event (e : Event) : bool :=
  match e with
  | EvProvider _ _ _ => true
  | EvDb _ _ => false
  end.

Definition provider_events (t : list Event) : list Event :=
  filter is_provider_event t.

(** No request went to the provider between [w] and [w']. *)
Definition same_requests (w w' : World) : Prop :=
  provider_events (trace w') = provider_events (trace w).

(** A computation that sends the provider the requests [evs], in that
    order, and no other, whether it returns or throws. *)
Definition emits (evs : list Event) {A : Type} (m : M A) : Prop :=
  forall w,
    provider_events (trace (snd (m w))) = provider_events (trace w) ++ evs.

(** The primary key of [stock_ticks]: the ids are distinct and below
    the serial that numbers the next row. *)
Definition ids_fresh (w : World) : Prop :=
  NoDup (map id (rows w)) /\ Forall (fun r => id r < next_id w) (rows w).

(** What a caller sees of a returned tick besides its id and
    created_at. *)
Definition tick_content (t : StockTick)
  : StockSymbol * Z * OHLCV * string :=
  (symbol t, timestamp t, ohlcv t, interval t).

(** A failure of a database statement. *)
Definition store_failure (e : Error) : Prop := e = StoreError.

(** A failure of a database statement or of the provider. *)
Definition store_or_provider_failure (e : Error) : Prop :=
  e = StoreError \/ e = ProviderError.

(** A provider that rejects every request. *)
Definition provider_down (s : StockSymbol) (interval period : string)
    (n : nat) : option (list YahooFinanceData) :=
  None.

(* ================================================================== *)
(** * The simulated provider of get_chart_data.ts *)

Module ChartSimulation.

(** [interval === '1m' ? 60000 : interval === '5m' ? 300000 : 3600000]. *)
Definition intervalMs (interval : string) : Z :=
  if String.eqb interval "1m" then 60000
  else if String.eqb interval "5m" then 300000
  else 3600000.

(** [symbol === 'AAPL' ? 150 : symbol === 'META' ? 300 : 100], in
    dollars. *)
Definition basePrice (symbol : StockSymbol) : Z :=
  match symbol with
  | AAPL => 150
  | META => 300
  | _ => 100
  end.

(** The point pushed at index [i] of the loop.  The prices of the
    source are whole dollars plus or minus 0.5 and 0.25, which
    [toFixed(2)] leaves as they are; here they are in ten-thousandths
    as everywhere.  [now] is [Date.now()]. *)
Definition mockPoint (now : Z) (symbol : StockSymbol) (interval : string)
    (i : Z) : YahooFinanceData :=
  let timestamp := now - i * intervalMs interval in
  let priceOffset := i mod 3 - 1 in
  let open := (basePrice symbol + priceOffset) * 10000 in
  let close := open + (if i mod 2 =? 0 then 5000 else -5000) in
  let high := Z.max open close + 2500 in
  let low := Z.min open close - 2500 in
  let volume := 100000 + i * 10000 in
  mkYahoo (timestamp / 1000) (mkOHLCV open high low close volume).

(** [fetchFromYahooFinance]: the ten points of
    [for (let i = 0; i < 10; i++)], then [mockData.reverse()]. *)
Definition fetchFromYahooFinance (now : Z) (symbol : StockSymbol)
    (interval period : string) : list YahooFinanceData :=
  rev (map (mockPoint now symbol interval) [0; 1; 2; 3; 4; 5; 6; 7; 8; 9]).

End ChartSimulation.

(** A candle whose low and high bound its open and close, with a
    positive volume. *)
Definition well_formed (v : OHLCV) : Prop :=
  low v <= open v <= high v /\ low v <= close v <= high v /\ 0 < volume v.

(** Strictly ascending timestamps. *)
Definition chronological (points : list YahooFinanceData) : Prop :=
  StronglySorted Z.lt (map yahoo_timestamp points).

(** The candle of a provider point. *)
Definition candle_of (data : YahooFinanceData) : CandlestickDataPoint :=
  mkCandle (yahoo_timestamp data * 1000) (yahoo_ohlcv data).

(* ================================================================== *)
(** * The simulated provider of fetch_stock_data.ts *)

Module FetchSimulation.

(** [intervalMap : Record<string, number>] of [getIntervalMinutes]. *)
Definition intervalMap : Table Z :=
  [ ("1m", 1); ("2m", 2); ("5m", 5); ("15m", 15); ("30m", 30);
    ("60m", 60); ("90m", 90); ("1h", 60); ("1d", 1440) ].

(** [a || b] on a looked-up number: [undefined] and 0 are falsy. *)
Definition js_or_number (a : option Z) (b : Z) : Z :=
  match a with
  | Some v => if v =? 0 then b else v
  | None => b
  end.

(** The members that every object inherits from [Object.prototype].
    [intervalMap[interval]] finds them too, although the literal does
    not list them, and gives a function, or an object for
    ['__proto__']: a value that is truthy and not a number. *)
Definition objectPrototype : list string :=
  [ "constructor"; "hasOwnProperty"; "isPrototypeOf";
    "propertyIsEnumerable"; "toLocaleString"; "toString"; "valueOf";
    "__proto__"; "__defineGetter__"; "__defineSetter__";
    "__lookupGetter__"; "__lookupSetter__" ].

Definition inherited (key : string) : bool :=
  existsb (String.eqb key) objectPrototype.

(** [getIntervalMinutes]: [intervalMap[interval] || 1].  [None] is the
    inherited member that the function returns for a key of
    [objectPrototype]: not a number. *)
Definition getIntervalMinutes (interval : string) : option Z :=
  if inherited interval then None
  else Some (js_or_number (lookup intervalMap interval) 1).

(** [pointCount]: 100, then the three [if (period === ...)] in turn. *)
Definition pointCount (period : string) : nat :=
  let pointCount := 100%nat in
  let pointCount := if String.eqb period "1d" then 60%nat else pointCount in
  let pointCount := if String.eqb period "5d" then 300%nat else pointCount in
  if String.eqb period "1mo" then 720%nat else pointCount.

(** [Math.floor(timestamp.getTime() / 1000)] for the point at index
    [i], where [timestamp] is
    [new Date(now.getTime() - (i * getIntervalMinutes(interval) * 60 * 1000))].
    [None] is NaN: a product with a value that is not a number is NaN,
    and so is all that is computed from it. *)
Definition timestampAt (now : Z) (interval : string) (i : nat)
  : option Z :=
  option_map (fun minutes => (now - Z.of_nat i * minutes * 60 * 1000) / 1000)
             (getIntervalMinutes interval).

(** A point as the loop pushes it: its [timestamp] is a number or NaN. *)
Record DataPoint : Set := mkDataPoint {
  point_timestamp : option Z;
  point_ohlcv : OHLCV
}.

(** [fetchFromYahooFinance]: the loop
    [for (let i = pointCount - 1; i >= 0; i--)].  The prices and the
    volume of a point come out of [Math.random]; [draws i] stands for
    the open, high, low, close and volume pushed at index [i].  [now]
    is [new Date().getTime()]. *)
Definition fetchFromYahooFinance (now : Z) (draws : nat -> OHLCV)
    (symbol : StockSymbol) (interval period : string)
  : list DataPoint :=
  map (fun i => mkDataPoint (timestampAt now interval i) (draws i))
      (rev (seq 0 (pointCount period))).

End FetchSimulation.

(** The provider as get_chart_data.ts simulates it, with the clock at
    [now] at every request. *)
Definition simulated_chart_provider (now : Z) (s : StockSymbol)
    (interval period : string) (n : nat) : option (list YahooFinanceData) :=
  Some (ChartSimulation.fetchFromYahooFinance now s interval period).

(* ================================================================== *)
(** * client: components/StockPriceGrid.tsx *)

Module StockPriceGrid.

(** [{ [key: string]: StockTick }], keyed by symbol: a JavaScript
    object lists its string keys in the order they were first
    written. *)
Definition Dict : Type := list (StockSymbol * StockTick).

(** [acc[key]]: [None] is [undefined]. *)
Fixpoint get (acc : Dict) (key : StockSymbol) : option StockTick :=
  match acc with
  | [] => None
  | (k, v) :: rest => if symbol_eqb k key then Some v else get rest key
  end.

(** [acc[key] = tick]. *)
Fixpoint set (acc : Dict) (key : StockSymbol) (tick : StockTick) : Dict :=
  match acc with
  | [] => [(key, tick)]
  | (k, v) :: rest =>
      if symbol_eqb k key then (k, tick) :: rest
      else (k, v) :: set rest key tick
  end.

(** The callback of [prices.reduce]:
    [if (!acc[tick.symbol] || new Date(tick.timestamp) >
         new Date(acc[tick.symbol].timestamp)) acc[tick.symbol] = tick]. *)
Definition keepLatest (acc : Dict) (tick : StockTick) : Dict :=
  match get acc (symbol tick) with
  | None => set acc (symbol tick) tick
  | Some held =>
      if timestamp held <? timestamp tick
      then set acc (symbol tick) tick
      else acc
  end.

(** [const latestPrices = prices.reduce(..., {})]. *)
Definition latestPrices (prices : list StockTick) : Dict :=
  fold_left keepLatest prices [].

(** [Object.values(latestPrices)]: the cards, in the order drawn. *)
Definition cards (prices : list StockTick) : list StockTick :=
  map snd (latestPrices prices).

End StockPriceGrid.

(* ================================================================== *)
(** * client: components/StockTable.tsx *)

Module StockTable.

(** [[...data].sort((a, b) => b.timestamp.getTime() -
    a.timestamp.getTime())]: [Array.prototype.sort] is stable. *)
Definition sortedData (data : list StockTick) : list StockTick :=
  sort_desc timestamp data.

(** The rows of the table body: [sortedData.slice(0, 50)]. *)
Definition tableRows (data : list StockTick) : list StockTick :=
  firstn 50 (sortedData data).

(** [sortedData.length > 50]: the line "Showing latest 50 of ..." is
    drawn. *)
Definition truncated (data : list StockTick) : bool :=
  (50 <? List.length (sortedData data))%nat.

End StockTable.

(* ================================================================== *)
(** * client: components/StockChart.tsx *)

Module StockChart.

(** [data.slice(-n)]: the last [n] elements, all of them when there are
    fewer. *)
Definition slice_last {A : Type} (n : nat) (data : list A) : list A :=
  skipn (List.length data - n) data.

(** The tick under "Current": [data[data.length - 1]]; [None] is
    [undefined]. *)
Definition current (data : list StockTick) : option StockTick :=
  nth_error data (List.length data - 1).

(** The ticks drawn as bars: [data.slice(-20)]. *)
Definition bars (data : list StockTick) : list StockTick :=
  slice_last 20 data.

(** The cards under the bars: [data.slice(-6).reverse()]. *)
Definition recent (data : list StockTick) : list StockTick :=
  rev (slice_last 6 data).

End StockChart.

(** Oldest first. *)
Definition oldest_first (l : list StockTick) : Prop :=
  StronglySorted (fun a b => timestamp a <= timestamp b) l.

(** schema.ts, [batchFetchInputSchema]:
    [symbols: z.array(stockSymbolSchema).min(1).max(6)], on an array of
    symbols. *)
Definition symbols_accepted (symbols : list StockSymbol) : bool :=
  ((1 <=? List.length symbols) && (List.length symbols <=? 6))%nat.

(* ================================================================== *)
(** * schema.ts: the input schemas *)

(** A field with a default or marked optional may be left out
    ([None]).  The inputs of [fetchStockData] and [batchFetchStocks]
    are taken as the components of the client write them
    ([z.input<typeof ...>]), with symbols and intervals of the
    enumerations; the input of [getHistoricalData] is taken field by
    field as the router receives it, with everything its schema
    refuses. *)
Module Schema.

(** The token of a symbol, the string the TypeScript value is. *)
Definition symbol_str (s : StockSymbol) : string :=
  match s with
  | META => "META" | AAPL => "AAPL" | AMZN => "AMZN"
  | GOOG => "GOOG" | MSFT => "MSFT" | NVDA => "NVDA"
  end.

(** A value given for a number field: an integer, or anything else (a
    fraction, NaN, an infinity, a value that is not a number). *)
Inductive RawNumber : Set :=
  | integer (z : Z)
  | notInteger.

(** What [new Date(value)] makes of a value given for a date field: a
    date, in milliseconds, or Invalid Date. *)
Inductive RawDate : Set :=
  | date (ms : Z)
  | invalidDate.

Record FetchStockDataRaw : Set := mkFetchRaw {
  raw_fetch_symbol : StockSymbol;
  raw_fetch_interval : option Interval;
  raw_fetch_period : option string
}.

(** A value given for [symbol] or [interval] is a string; one that is
    not a string is refused as a string outside the enumeration is. *)
Record GetHistoricalDataRaw : Set := mkHistRaw {
  raw_symbol : option string;
  raw_interval : option string;
  raw_startDate : option RawDate;
  raw_endDate : option RawDate;
  raw_limit : option RawNumber
}.

Record BatchFetchRaw : Set := mkBatchRaw {
  raw_symbols : list StockSymbol;
  raw_batch_interval : option Interval;
  raw_batch_period : option string
}.

(** [.default(value)]. *)
Definition default {A : Type} (value : A) (given : option A) : A :=
  match given with
  | Some a => a
  | None => value
  end.

(** [fetchStockDataInputSchema]. *)
Definition fetchStockDataInputSchema (raw : FetchStockDataRaw)
  : option FetchStockDataInput :=
  Some (mkFetchInput (raw_fetch_symbol raw)
                     (default I1m (raw_fetch_interval raw))
                     (default "1d" (raw_fetch_period raw))).

(** [z.enum(values)] on a string: the value with that token, if any. *)
Definition enum {A : Type} (token : A -> string) (values : list A)
    (given : string) : option A :=
  find (fun a => String.eqb (token a) given) values.

(** [z.coerce.date()]: Invalid Date is refused. *)
Definition coerce_date (given : RawDate) : option Z :=
  match given with
  | date ms => Some ms
  | invalidDate => None
  end.

(** [z.number().int().positive().max(1000)]. *)
Definition limit (given : RawNumber) : option nat :=
  match given with
  | integer z =>
      if (0 <? z) && (z <=? 1000) then Some (Z.to_nat z) else None
  | notInteger => None
  end.

(** [schema.optional()]: a field left out is let through as it is. *)
Definition optional {I A : Type} (schema : I -> option A)
    (given : option I) : option (option A) :=
  match given with
  | None => Some None
  | Some v => option_map Some (schema v)
  end.

(** [schema.default(value)]: a field left out is parsed as [value]. *)
Definition defaulted {I A : Type} (schema : I -> option A) (value : A)
    (given : option I) : option A :=
  match given with
  | None => Some value
  | Some v => schema v
  end.

(** [getHistoricalDataInputSchema]: the object is refused when a field
    is. *)
Definition getHistoricalDataInputSchema (raw : GetHistoricalDataRaw)
  : option GetHistoricalDataInput :=
  match optional (enum symbol_str stockSymbolSchema) (raw_symbol raw),
        defaulted (enum interval_str intervalSchema) I1m
                  (raw_interval raw),
        optional coerce_date (raw_startDate raw),
        optional coerce_date (raw_endDate raw),
        defaulted limit 100%nat (raw_limit raw) with
  | Some symbol, Some interval, Some startDate, Some endDate, Some n =>
      Some (mkHistInput symbol interval startDate endDate n)
  | _, _, _, _, _ => None
  end.

(** [batchFetchInputSchema]. *)
Definition batchFetchInputSchema (raw : BatchFetchRaw)
  : option BatchFetchInput :=
  if symbols_accepted (raw_symbols raw)
  then Some (mkBatchInput (raw_symbols raw)
                          (default I1m (raw_batch_interval raw))
                          (default "1d" (raw_batch_period raw)))
  else None.

End Schema.

(** A request for historical data that has nothing to refuse: its
    symbol and its interval, when given, are tokens of their
    enumerations, its dates, when given, are dates, and its limit, when
    given, is an integer from 1 to 1000. *)
Definition history_request_valid (raw : Schema.GetHistoricalDataRaw)
  : Prop :=
  (forall s, Schema.raw_symbol raw = Some s ->
             In s ["META"; "AAPL"; "AMZN"; "GOOG"; "MSFT"; "NVDA"])
  /\ (forall i, Schema.raw_interval raw = Some i ->
                In i ["1m"; "2m"; "5m"; "15m"; "30m"; "60m"; "90m"; "1h";
                      "1d"; "5d"; "1wk"; "1mo"; "3mo"])
  /\ Schema.raw_startDate raw <> Some Schema.invalidDate
  /\ Schema.raw_endDate raw <> Some Schema.invalidDate
  /\ (forall n, Schema.raw_limit raw = Some n ->
                exists z, n = Schema.integer z /\ 0 < z <= 1000).

(* ================================================================== *)
(** * index.ts: the router *)

(** What a procedure answers: the value its resolver returns, a
    refusal of the input, in which case the resolver is not called, or
    the failure its resolver threw. *)
Inductive Reply (A : Type) : Type :=
  | Success (data : A)
  | BadRequest
  | InternalServerError (cause : Error).

Arguments Success {A} data.
Arguments BadRequest {A}.
Arguments InternalServerError {A} cause.

Module AppRouter.

(** [publicProcedure.input(schema).query(({ input }) => resolver(input))],
    and the same with [.mutation]. *)
Definition procedure {I O : Type} (parsed : option I) (resolver : I -> M O)
  : World -> Reply O * World :=
  fun w =>
    match parsed with
    | None => (BadRequest, w)
    | Some input =>
        match resolver input w with
        | (Ok data, w') => (Success data, w')
        | (Err cause, w') => (InternalServerError cause, w')
        end
    end.

Section WithEnv.
Variable env : Env.

Definition fetchStockData (raw : Schema.FetchStockDataRaw) :=
  procedure (Schema.fetchStockDataInputSchema raw)
            (FetchStockData.fetchStockData env).

Definition batchFetchStocks (raw : Schema.BatchFetchRaw) :=
  procedure (Schema.batchFetchInputSchema raw)
            (BatchFetchStocks.batchFetchStocks env).

Definition getHistoricalData (raw : Schema.GetHistoricalDataRaw) :=
  procedure (Schema.getHistoricalDataInputSchema raw)
            (GetHistoricalData.getHistoricalData env).

Definition getChartData (raw : Schema.GetHistoricalDataRaw) :=
  procedure (Schema.getHistoricalDataInputSchema raw)
            (GetChartData.getChartData env).

Definition getAllSymbols :=
  procedure (Some tt) (fun _ => GetAllSymbols.getAllSymbols).

(** [.query(() => getLatestPrices())]: [fetchFresh] takes its default,
    [false]. *)
Definition getLatestPrices :=
  procedure (Some tt) (fun _ => GetLatestPrices.getLatestPrices env false).

End WithEnv.
End AppRouter.

(* ================================================================== *)
(** * client: App.tsx *)

(** Why a call of the client failed: the router refused the input, or
    the resolver threw. *)
Inductive Failure : Set :=
  | refused
  | threw (cause : Error).

Module App.

Definition STOCK_SYMBOLS : list StockSymbol :=
  [META; AAPL; AMZN; GOOG; MSFT; NVDA].

Definition INTERVALS : list Interval := [I1m; I5m; I15m; I30m; I1h; I1d].

Definition PERIODS : list string := ["1d"; "5d"; "1mo"; "3mo"; "6mo"; "1y"].

(** The texts of the two alerts, by their parts. *)
Inductive Alert : Set :=
  | fetched (points : nat) (symbol : StockSymbol)
      (* Successfully fetched ${result.length} data points for
         ${selectedSymbol} *)
  | fetchFailed (symbol : StockSymbol) (reason : Failure)
      (* Failed to fetch data for ${selectedSymbol}: ${err.message} *)
  | batchFetched (points : nat)
      (* Successfully batch fetched ${result.length} total data points
         for all symbols *)
  | batchFailed (reason : Failure).
      (* Batch fetch failed: ${err.message} *)

(** The state of the component, one field per [useState]. *)
Record State : Type := mkState {
  selectedSymbol : StockSymbol;
  selectedInterval : Interval;
  selectedPeriod : string;
  isLoading : bool;
  isBatchLoading : bool;
  error : option Alert;
  success : option Alert;
  stockData : list StockTick;
  latestPrices : list StockTick
}.

(** The state at mount. *)
Definition initial : State :=
  mkState AAPL I1m "1d" false false None None [] [].

Definition setIsLoading (b : bool) (st : State) : State :=
  mkState (selectedSymbol st) (selectedInterval st) (selectedPeriod st)
          b (isBatchLoading st) (error st) (success st)
          (stockData st) (latestPrices st).

Definition setIsBatchLoading (b : bool) (st : State) : State :=
  mkState (selectedSymbol st) (selectedInterval st) (selectedPeriod st)
          (isLoading st) b (error st) (success st)
          (stockData st) (latestPrices st).

Definition setError (e : option Alert) (st : State) : State :=
  mkState (selectedSymbol st) (selectedInterval st) (selectedPeriod st)
          (isLoading st) (isBatchLoading st) e (success st)
          (stockData st) (latestPrices st).

Definition setSuccess (s : option Alert) (st : State) : State :=
  mkState (selectedSymbol st) (selectedInterval st) (selectedPeriod st)
          (isLoading st) (isBatchLoading st) (error st) s
          (stockData st) (latestPrices st).

Definition setStockData (data : list StockTick) (st : State) : State :=
  mkState (selectedSymbol st) (selectedInterval st) (selectedPeriod st)
          (isLoading st) (isBatchLoading st) (error st) (success st)
          data (latestPrices st).

Definition setLatestPrices (prices : list StockTick) (st : State) : State :=
  mkState (selectedSymbol st) (selectedInterval st) (selectedPeriod st)
          (isLoading st) (isBatchLoading st) (error st) (success st)
          (stockData st) prices.

(** [err] of a [catch] around a call of the client. *)
Definition failure {A : Type} (reply : Reply A) : Failure :=
  match reply with
  | InternalServerError cause => threw cause
  | _ => refused
  end.

Section WithEnv.
Variable env : Env.

(** An event handler runs from the state and the server it finds to
    the state and the server it leaves; no other event is handled in
    between. *)
Definition Handler : Type := State -> World -> State * World.

(** [loadLatestPrices]: on failure the prices shown stay. *)
Definition loadLatestPrices : Handler :=
  fun st w =>
    match AppRouter.getLatestPrices env w with
    | (Success prices, w') => (setLatestPrices prices st, w')
    | (_, w') => (st, w')
    end.

(** [loadHistoricalData]: on failure the ticks shown are dropped. *)
Definition loadHistoricalData : Handler :=
  fun st w =>
    match AppRouter.getHistoricalData env
            (Schema.mkHistRaw
               (Some (Schema.symbol_str (selectedSymbol st)))
               (Some (interval_str (selectedInterval st))) None None
               (Some (Schema.integer 100))) w with
    | (Success data, w') => (setStockData data st, w')
    | (_, w') => (setStockData [] st, w')
    end.

(** [handleFetchStockData]. *)
Definition handleFetchStockData : Handler :=
  fun st w =>
    let st := setSuccess None (setError None (setIsLoading true st)) in
    match AppRouter.fetchStockData env
            (Schema.mkFetchRaw (selectedSymbol st)
                               (Some (selectedInterval st))
                               (Some (selectedPeriod st))) w with
    | (Success result, w1) =>
        let st := setSuccess
                    (Some (fetched (List.length result) (selectedSymbol st)))
                    st in
        let (st, w2) := loadHistoricalData st w1 in
        let (st, w3) := loadLatestPrices st w2 in
        (setIsLoading false st, w3)
    | (reply, w1) =>
        (setIsLoading false
           (setError (Some (fetchFailed (selectedSymbol st) (failure reply)))
                     st),
         w1)
    end.

(** [handleBatchFetch]. *)
Definition handleBatchFetch : Handler :=
  fun st w =>
    let st := setSuccess None (setError None (setIsBatchLoading true st)) in
    match AppRouter.batchFetchStocks env
            (Schema.mkBatchRaw STOCK_SYMBOLS
                               (Some (selectedInterval st))
                               (Some (selectedPeriod st))) w with
    | (Success result, w1) =>
        let st := setSuccess (Some (batchFetched (List.length result))) st in
        let (st, w2) := loadHistoricalData st w1 in
        let (st, w3) := loadLatestPrices st w2 in
        (setIsBatchLoading false st, w3)
    | (reply, w1) =>
        (setIsBatchLoading false
           (setError (Some (batchFailed (failure reply))) st),
         w1)
    end.

End WithEnv.
End App.

(* ================================================================== *)
(** * client: components/DataFetcher.tsx *)

Module DataFetcher.

Definition stockSymbols : list StockSymbol :=
  [META; AAPL; AMZN; GOOG; MSFT; NVDA].

(** [handleSymbolToggle], as the function it passes to
    [setSelectedSymbols]: [[...prev, symbol]] when checked,
    [prev.filter(s => s !== symbol)] otherwise. *)
Definition handleSymbolToggle (symbol : StockSymbol) (checked : bool)
    (prev : list StockSymbol) : list StockSymbol :=
  if checked then prev ++ [symbol]
  else filter (fun s => negb (symbol_eqb s symbol)) prev.

(** [selectedSymbols.includes(symbol)]. *)
Definition includes (selectedSymbols : list StockSymbol)
    (symbol : StockSymbol) : bool :=
  existsb (fun s => symbol_eqb s symbol) selectedSymbols.

(** What the user can do to the selection: click the checkbox of a
    symbol, which is drawn checked when the selection includes the
    symbol and reports the opposite state; "Select All"; "Clear All". *)
Inductive Pick : Set :=
  | clickCheckbox (symbol : StockSymbol)
  | selectAll
  | clearAll.

Definition pick (p : Pick) (selectedSymbols : list StockSymbol)
  : list StockSymbol :=
  match p with
  | clickCheckbox symbol =>
      handleSymbolToggle symbol (negb (includes selectedSymbols symbol))
                         selectedSymbols
  | selectAll => stockSymbols
  | clearAll => []
  end.

(** The selection after a sequence of picks, from the one at mount,
    [['AAPL']]. *)
Definition picked (picks : list Pick) : list StockSymbol :=
  fold_left (fun selectedSymbols p => pick p selectedSymbols) picks [AAPL].

(** The texts of [message] and [error], by their parts. *)
Inductive Text : Set :=
  | pleaseSelect
      (* Please select at least one symbol *)
  | fetchedSingle (points : nat) (symbol : StockSymbol)
      (* Successfully fetched ${result.length} data points for ${symbol} *)
  | fetchedBatch (points symbols : nat)
      (* Successfully fetched ${result.length} total data points for
         ${selectedSymbols.length} symbols *)
  | fetchedAll (points symbols : nat)
      (* Successfully fetched ${result.length} total data points for all
         ${stockSymbols.length} symbols! *)
  | failedSingle
      (* Failed to fetch stock data. Please try again. *)
  | failedBatch
      (* Failed to batch fetch stock data. Please try again. *)
  | failedAll.
      (* Failed to fetch all stock data. Please try again. *)

Record State : Type := mkState {
  selectedSymbols : list StockSymbol;
  selectedInterval : Interval;
  selectedPeriod : string;
  isLoading : bool;
  isBatchLoading : bool;
  message : option Text;
  error : option Text
}.

Definition setIsLoading (b : bool) (st : State) : State :=
  mkState (selectedSymbols st) (selectedInterval st) (selectedPeriod st)
          b (isBatchLoading st) (message st) (error st).

Definition setIsBatchLoading (b : bool) (st : State) : State :=
  mkState (selectedSymbols st) (selectedInterval st) (selectedPeriod st)
          (isLoading st) b (message st) (error st).

Definition setMessage (m : option Text) (st : State) : State :=
  mkState (selectedSymbols st) (selectedInterval st) (selectedPeriod st)
          (isLoading st) (isBatchLoading st) m (error st).

Definition setError (e : option Text) (st : State) : State :=
  mkState (selectedSymbols st) (selectedInterval st) (selectedPeriod st)
          (isLoading st) (isBatchLoading st) (message st) e.

Section WithEnv.
Variable env : Env.

(** The property [onDataFetched?: () => void]: absent, or a callback
    that returns or throws. *)
Variable onDataFetched : option (M unit).

Definition Handler : Type := State -> World -> State * World.

(** [onDataFetched?.()] at the end of a [try] whose [catch] sets
    [failed] as the error. *)
Definition notify (failed : Text) (st : State) (w : World)
  : State * World :=
  match onDataFetched with
  | None => (st, w)
  | Some callback =>
      match callback w with
      | (Ok _, w') => (st, w')
      | (Err _, w') => (setError (Some failed) st, w')
      end
  end.

(** [handleFetchSingle]. *)
Definition handleFetchSingle : Handler :=
  fun st w =>
    match selectedSymbols st with
    | [] => (setError (Some pleaseSelect) st, w)
    | symbol :: _ =>
        let st := setMessage None (setError None (setIsLoading true st)) in
        let (st, w') :=
          match AppRouter.fetchStockData env
                  (Schema.mkFetchRaw symbol (Some (selectedInterval st))
                                     (Some (selectedPeriod st))) w with
          | (Success result, w1) =>
              notify failedSingle
                (setMessage
                   (Some (fetchedSingle (List.length result) symbol)) st)
                w1
          | (_, w1) => (setError (Some failedSingle) st, w1)
          end in
        (setIsLoading false st, w')
    end.

(** [handleBatchFetch]. *)
Definition handleBatchFetch : Handler :=
  fun st w =>
    match selectedSymbols st with
    | [] => (setError (Some pleaseSelect) st, w)
    | _ :: _ =>
        let st :=
          setMessage None (setError None (setIsBatchLoading true st)) in
        let (st, w') :=
          match AppRouter.batchFetchStocks env
                  (Schema.mkBatchRaw (selectedSymbols st)
                                     (Some (selectedInterval st))
                                     (Some (selectedPeriod st))) w with
          | (Success result, w1) =>
              notify failedBatch
                (setMessage
                   (Some (fetchedBatch (List.length result)
                                       (List.length (selectedSymbols st))))
                   st)
                w1
          | (_, w1) => (setError (Some failedBatch) st, w1)
          end in
        (setIsBatchLoading false st, w')
    end.

(** [handleFetchAll]. *)
Definition handleFetchAll : Handler :=
  fun st w =>
    let st :=
      setMessage None (setError None (setIsBatchLoading true st)) in
    let (st, w') :=
      match AppRouter.batchFetchStocks env
              (Schema.mkBatchRaw stockSymbols (Some (selectedInterval st))
                                 (Some (selectedPeriod st))) w with
      | (Success result, w1) =>
          notify failedAll
            (setMessage
               (Some (fetchedAll (List.length result)
                                 (List.length stockSymbols)))
               st)
            w1
      | (_, w1) => (setError (Some failedAll) st, w1)
      end in
    (setIsBatchLoading false st, w').

(** [<Button onClick={onClick} disabled={disabled}>]: a click on a
    disabled button runs nothing. *)
Definition Button (disabled : State -> bool) (onClick : Handler)
  : Handler :=
  fun st w => if disabled st then (st, w) else onClick st w.

(** The button of the single fetch:
    [disabled={isLoading || selectedSymbols.length === 0}]. *)
Definition fetchSingleButton : Handler :=
  Button (fun st =>
            isLoading st
            || (List.length (selectedSymbols st) =? 0)%nat)
         handleFetchSingle.

(** "Batch Fetch Selected":
    [disabled={isBatchLoading || selectedSymbols.length === 0}]. *)
Definition batchFetchButton : Handler :=
  Button (fun st =>
            isBatchLoading st
            || (List.length (selectedSymbols st) =? 0)%nat)
         handleBatchFetch.

(** "Fetch All Symbols": [disabled={isBatchLoading}]. *)
Definition fetchAllButton : Handler :=
  Button isBatchLoading handleFetchAll.

End WithEnv.
End DataFetcher.

(* ================================================================== *)
(** * Basic facts *)

(** Reduces the projections of a world built by the primitives. *)
Ltac world :=
  cbn [rows next_id clock db_ops provider_calls trace console history
       record_event count_db_op count_provider_call set_rows snapshot
       executed failed].

Lemma symbol_eqb_eq (a b : StockSymbol) : symbol_eqb a b = true <-> a = b.
Proof. destruct a, b; simpl; split; intro H; try reflexivity; discriminate. Qed.

Lemma symbol_eqb_refl (a : StockSymbol) : symbol_eqb a a = true.
Proof. destruct a; reflexivity. Qed.

Lemma key_eqb_eq (a b : NaturalKey) : key_eqb a b = true <-> a = b.
Proof.
  destruct a as [[s1 t1] i1], b as [[s2 t2] i2]; simpl.
  rewrite !andb_true_iff, symbol_eqb_eq, Z.eqb_eq, String.eqb_eq.
  split.
  - intros [[-> ->] ->]; reflexivity.
  - intros H; inversion H; auto.
Qed.

(** The table of the repository has no unique index: no row is ever
    refused. *)
Lemma stockTicksTable_accepts (stored : list StockTick) (r : StockTick) :
  violated_index stockTicksTable stored r = None.
Proof. reflexivity. Qed.

(* ================================================================== *)
(** * The interval tables *)

(** The enumerations list every value of their types. *)
Lemma intervalSchema_complete (i : Interval) : In i intervalSchema.
Proof. unfold intervalSchema. destruct i; simpl; tauto. Qed.

Lemma stockSymbolSchema_complete (s : StockSymbol) : In s stockSymbolSchema.
Proof. unfold stockSymbolSchema. destruct s; simpl; tauto. Qed.

(** C9 -- Interval round-trip.  For every token of the interval
    enumeration other than '60m' and '1h', decoding the encoded token
    gives the token back, for each pair of translation tables at the
    storage boundary: [convertIntervalToPostgres] and
    [convertIntervalFromPostgres] of get_historical_data,
    [reverseIntervalMapping] and [intervalMapping] of get_latest_prices
    (with either fallback of the decoding), and the batch handler, which
    stores the token as it is and decodes with [normalizeInterval]. *)
Theorem interval_round_trip (i : Interval) :
  i <> I60m -> i <> I1h ->
  GetHistoricalData.convertIntervalFromPostgres
    (GetHistoricalData.convertIntervalToPostgres (interval_str i))
  = interval_str i
  /\ GetLatestPrices.schemaInterval
       (GetLatestPrices.reverseIntervalMapping i)
       (GetLatestPrices.reverseIntervalMapping i)
     = interval_str i
  /\ GetLatestPrices.schemaInterval
       (GetLatestPrices.reverseIntervalMapping i) (interval_str i)
     = interval_str i
  /\ BatchFetchStocks.normalizeInterval (interval_str i) = interval_str i.
Proof.
  intros H60 H1h.
  destruct i; try (exfalso; apply H60; reflexivity);
    try (exfalso; apply H1h; reflexivity);
    repeat split; reflexivity.
Qed.

Lemma interval_round_trip_witness :
  GetHistoricalData.convertIntervalFromPostgres
    (GetHistoricalData.convertIntervalToPostgres (interval_str I5m))
  = interval_str I5m
  /\ GetLatestPrices.schemaInterval
       (GetLatestPrices.reverseIntervalMapping I5m)
       (GetLatestPrices.reverseIntervalMapping I5m)
     = interval_str I5m
  /\ GetLatestPrices.schemaInterval
       (GetLatestPrices.reverseIntervalMapping I5m) (interval_str I5m)
     = interval_str I5m
  /\ BatchFetchStocks.normalizeInterval (interval_str I5m) = interval_str I5m.
Proof.
  apply (@interval_round_trip I5m); discriminate.
Defined.

(** The two tokens left out collapse: both are stored as the hour, and
    the hour is what comes back. *)
Lemma interval_collapse :
  GetHistoricalData.convertIntervalToPostgres (interval_str I60m)
  = GetHistoricalData.convertIntervalToPostgres (interval_str I1h)
  /\ GetHistoricalData.convertIntervalFromPostgres
       (GetHistoricalData.convertIntervalToPostgres (interval_str I60m))
     = interval_str I1h
  /\ GetLatestPrices.reverseIntervalMapping I60m
     = GetLatestPrices.reverseIntervalMapping I1h.
Proof. repeat split; reflexivity. Qed.

(* ================================================================== *)
(** * Lists of rows *)

Lemma filter_nil_none {A : Type} (f : A -> bool) (l : list A) :
  filter f l = [] -> forall x, In x l -> f x = false.
Proof.
  induction l as [|a l IH]; simpl; intros H x Hx; [contradiction|].
  destruct (f a) eqn:Ha; [discriminate|].
  destruct Hx as [<-|Hx]; auto.
Qed.

Lemma firstn_one_nil {A : Type} (l : list A) : firstn 1 l = [] -> l = [].
Proof. destruct l; simpl; [reflexivity | discriminate]. Qed.

Lemma map_key_update (c : StockTick -> bool) (v : OHLCV)
    (l : list StockTick) :
  map natural_key (map (fun r => if c r then set_ohlcv r v else r) l)
  = map natural_key l.
Proof.
  induction l as [|r l IH]; simpl; [reflexivity|].
  rewrite IH. destruct (c r); reflexivity.
Qed.

Lemma unique_snoc (l : list StockTick) (r : StockTick) :
  natural_key_unique l ->
  (forall x, In x l -> key_eqb (natural_key x) (natural_key r) = false) ->
  natural_key_unique (l ++ [r]).
Proof.
  unfold natural_key_unique. intros Hl Hfresh.
  rewrite map_app. simpl.
  apply NoDup_app; [assumption | repeat constructor; simpl; tauto |].
  intros k Hk [<-|[]].
  apply in_map_iff in Hk. destruct Hk as [x [Hx Hin]].
  specialize (Hfresh x Hin).
  assert (key_eqb (natural_key x) (natural_key r) = true)
    by (apply key_eqb_eq; exact Hx).
  congruence.
Qed.

(* ================================================================== *)
(** * The store keeps the natural key unique under the upsert handlers *)

Section Uniqueness.
Variable env : Env.

Lemma keeps_ret {A : Type} (a : A) : keeps (ret a).
Proof. intros w H; exact H. Qed.

Lemma keeps_throw {A : Type} (e : Error) : keeps (@throw A e).
Proof. intros w H; exact H. Qed.

Lemma keeps_bind {A B : Type} (m : M A) (k : A -> M B) :
  keeps m -> (forall a, keeps (k a)) -> keeps (bind m k).
Proof.
  intros Hm Hk w Hw. unfold bind.
  specialize (Hm w Hw). destruct (m w) as [[a|e] w']; simpl in *.
  - apply Hk; exact Hm.
  - exact Hm.
Qed.

Lemma keeps_try {A : Type} (m : M A) (h : Error -> M A) :
  keeps m -> (forall e, keeps (h e)) -> keeps (try_catch m h).
Proof.
  intros Hm Hh w Hw. unfold try_catch.
  specialize (Hm w Hw). destruct (m w) as [[a|e] w']; simpl in *.
  - exact Hm.
  - apply Hh; exact Hm.
Qed.

Lemma keeps_console_log (msg : string) : keeps (console_log msg).
Proof. intros w H; exact H. Qed.

Lemma keeps_console_error (msg : string) : keeps (console_error msg).
Proof. intros w H; exact H. Qed.

Lemma keeps_request (s : StockSymbol) (i p : string) :
  keeps (Yahoo.request env s i p).
Proof.
  intros w H. unfold Yahoo.request.
  destruct (provider env s i p (provider_calls w)); exact H.
Qed.

(** A statement that was executed keeps the key unique when the
    table it leaves has it unique. *)
Lemma unique_always_executed (op : DbOp) (rs : list StockTick) (nid : Z)
    (w : World) :
  unique_always w -> natural_key_unique rs ->
  unique_always (executed op (set_rows rs nid w)).
Proof.
  intros [_ Hh] Hrs. split; [exact Hrs|].
  cbn [history executed snapshot record_event count_db_op set_rows rows].
  apply Forall_app. split; [exact Hh | constructor; [exact Hrs | constructor]].
Qed.

Lemma unique_always_read (op : DbOp) (w : World) :
  unique_always w -> unique_always (executed op w).
Proof.
  intros [Hr Hh]. split; [exact Hr|].
  cbn [history executed snapshot record_event count_db_op rows].
  apply Forall_app. split; [exact Hh | constructor; [exact Hr | constructor]].
Qed.

Lemma keeps_select (c : Where) (o : bool) (l : option nat) :
  keeps (Db.select env c o l).
Proof.
  intros w H. unfold Db.select, Db.statement.
  destruct (db_fault env (db_ops w)); [exact H|].
  apply unique_always_read; exact H.
Qed.

Lemma keeps_update (v : OHLCV) (c : Where) : keeps (Db.update env v c).
Proof.
  intros w H. unfold Db.update, Db.statement.
  destruct (db_fault env (db_ops w)); [exact H|].
  apply unique_always_executed; [exact H|].
  unfold natural_key_unique. rewrite map_key_update. exact (proj1 H).
Qed.

Lemma keeps_latest_join : keeps (Db.latest_join env).
Proof.
  intros w H. unfold Db.latest_join, Db.statement.
  destruct (db_fault env (db_ops w)); [exact H|].
  apply unique_always_read; exact H.
Qed.

(** An insert keeps the key unique when no stored row has the key of
    the new row. *)
Lemma insert_fresh (v : NewStockTick) (w : World) :
  unique_always w ->
  (forall x, In x (rows w) ->
             key_eqb (natural_key x) (stored_key env v) = false) ->
  unique_always (snd (Db.insert env v w)).
Proof.
  intros H Hfresh. unfold Db.insert, Db.insert_into, Db.statement.
  destruct (db_fault env (db_ops w)); [exact H|].
  rewrite stockTicksTable_accepts. cbn [snd].
  apply unique_always_executed; [exact H|].
  apply unique_snoc; [exact (proj1 H) | exact Hfresh].
Qed.

(** The condition the three upsert loops look a tick up with. *)
Lemma eval_key_where (s : StockSymbol) (t : Z) (i : string)
    (r : StockTick) :
  Db.eval_where env (where_and [eq_symbol s; eq_timestamp t; eq_interval i])
                r
  = key_eqb (natural_key r) (s, t, pg_interval_in env i).
Proof. simpl. rewrite andb_true_r, andb_assoc. reflexivity. Qed.

(** Look up, then insert when nothing was found: the shape shared by
    the three loops.  [w] is the world of the lookup and [w'] the world
    of the insert. *)
Lemma lookup_then_insert (s : StockSymbol) (t : Z) (i : string)
    (lim : option nat) (w : World) (v : NewStockTick) (w' : World) :
  new_symbol v = s -> new_timestamp v = t ->
  pg_interval_in env (new_interval v) = pg_interval_in env i ->
  Db.apply_limit lim
    (filter (Db.eval_where env
               (where_and [eq_symbol s; eq_timestamp t; eq_interval i]))
            (rows w)) = [] ->
  (lim = None \/ lim = Some 1%nat) ->
  unique_always w' -> rows w' = rows w ->
  unique_always (snd (Db.insert env v w')).
Proof.
  intros Hs Ht Hi Hnone Hlim Hu Hrows.
  apply insert_fresh; [exact Hu|].
  intros x Hx. rewrite Hrows in Hx. unfold stored_key. rewrite Hs, Ht, Hi.
  rewrite <- eval_key_where.
  apply filter_nil_none with (l := rows w); [|exact Hx].
  destruct Hlim as [-> | ->]; simpl in Hnone;
    [exact Hnone | apply firstn_one_nil; exact Hnone].
Qed.

(** After the lookup of a tick was executed on [w]: the insert of the
    tick when nothing was found, an update otherwise. *)
Ltac after_lookup w Hw Hex :=
  unfold bind;
  match goal with
  | |- context [Db.insert env ?v ?w1] =>
      let Hi := fresh "Hi" in
      assert (Hi : unique_always (snd (Db.insert env v w1)))
        by (eapply lookup_then_insert with (w := w);
            try exact Hex; try reflexivity; auto;
            apply unique_always_read; exact Hw);
      destruct (Db.insert env v w1) as [[[|? ?]|?] ?]; exact Hi
  | |- context [Db.update env ?v ?c ?w1] =>
      let Hi := fresh "Hi" in
      assert (Hi : unique_always (snd (Db.update env v c w1)))
        by (apply keeps_update; apply unique_always_read; exact Hw);
      destruct (Db.update env v c w1) as [[[|? ?]|?] ?]; exact Hi
  end.

Lemma keeps_fetch_upsertTick (tick : NewStockTick) :
  keeps (FetchStockData.upsertTick env tick).
Proof.
  intros w Hw. unfold FetchStockData.upsertTick.
  unfold bind at 1. unfold Db.select at 1, Db.statement at 1.
  destruct (db_fault env (db_ops w)) eqn:Hf; [exact Hw|].
  cbv beta iota.
  match goal with
  | |- context [Db.apply_limit ?l ?x] =>
      destruct (Db.apply_limit l x) as [|existing0 more] eqn:Hex
  end; after_lookup w Hw Hex.
Qed.

Lemma keeps_batch_upsertTick (tick : NewStockTick) :
  keeps (BatchFetchStocks.upsertTick env tick).
Proof.
  unfold BatchFetchStocks.upsertTick.
  apply keeps_try;
    [| intro e; apply keeps_bind;
       [apply keeps_console_error | intro; apply keeps_ret]].
  intros w Hw.
  unfold bind at 1. unfold Db.select at 1, Db.statement at 1.
  destruct (db_fault env (db_ops w)) eqn:Hf; [exact Hw|].
  cbv beta iota.
  match goal with
  | |- context [Db.apply_limit ?l ?x] =>
      destruct (Db.apply_limit l x) as [|existing0 more] eqn:Hex
  end; after_lookup w Hw Hex.
Qed.

Lemma keeps_latest_upsertTick (tick : GetLatestPrices.Tick) :
  keeps (GetLatestPrices.upsertTick env tick).
Proof.
  unfold GetLatestPrices.upsertTick.
  apply keeps_try;
    [| intro e; apply keeps_bind;
       [apply keeps_console_error | intro; apply keeps_throw]].
  intros w Hw.
  unfold bind at 1. unfold Db.select at 1, Db.statement at 1.
  destruct (db_fault env (db_ops w)) eqn:Hf; [exact Hw|].
  cbv beta iota.
  match goal with
  | |- context [Db.apply_limit ?l ?x] =>
      destruct (Db.apply_limit l x) as [|existing0 more] eqn:Hex
  end; after_lookup w Hw Hex.
Qed.

Lemma keeps_fetch_upsertLoop (ticks : list NewStockTick) :
  forall acc, keeps (FetchStockData.upsertLoop env ticks acc).
Proof.
  induction ticks as [|tick rest IH]; intro acc; simpl.
  - apply keeps_ret.
  - apply keeps_bind; [apply keeps_fetch_upsertTick | intro; apply IH].
Qed.

Lemma keeps_batch_upsertLoop (ticks : list NewStockTick) :
  forall acc, keeps (BatchFetchStocks.upsertLoop env ticks acc).
Proof.
  induction ticks as [|tick rest IH]; intro acc; simpl.
  - apply keeps_ret.
  - apply keeps_bind; [apply keeps_batch_upsertTick | intro; apply IH].
Qed.

Lemma keeps_latest_upsertLoop (ticks : list GetLatestPrices.Tick) :
  forall acc, keeps (GetLatestPrices.upsertLoop env ticks acc).
Proof.
  induction ticks as [|tick rest IH]; intro acc; simpl.
  - apply keeps_ret.
  - apply keeps_bind; [apply keeps_latest_upsertTick | intro; apply IH].
Qed.

Lemma keeps_fetchStockData (input : FetchStockDataInput) :
  keeps (FetchStockData.fetchStockData env input).
Proof.
  unfold FetchStockData.fetchStockData.
  apply keeps_try.
  - apply keeps_bind; [apply keeps_console_log | intros _].
    apply keeps_bind; [apply keeps_request | intros [|y ys]].
    + apply keeps_ret.
    + apply keeps_bind; [apply keeps_fetch_upsertLoop | intro].
      apply keeps_bind; [apply keeps_console_log | intro; apply keeps_ret].
  - intro e. apply keeps_bind;
      [apply keeps_console_error | intro; apply keeps_throw].
Qed.

Lemma keeps_fetchStockDataForSymbol (s : StockSymbol) (i p : string) :
  keeps (BatchFetchStocks.fetchStockDataForSymbol env s i p).
Proof.
  unfold BatchFetchStocks.fetchStockDataForSymbol.
  apply keeps_bind; [apply keeps_console_log | intros _].
  apply keeps_bind; [apply keeps_request | intros [|y ys]].
  - apply keeps_bind; [apply keeps_console_log | intro; apply keeps_ret].
  - apply keeps_bind; [apply keeps_batch_upsertLoop | intro].
    apply keeps_bind; [apply keeps_console_log | intro; apply keeps_ret].
Qed.

Lemma keeps_symbolLoop (input : BatchFetchInput)
    (symbols : list StockSymbol) :
  forall acc errors,
    keeps (BatchFetchStocks.symbolLoop env input symbols acc errors).
Proof.
  induction symbols as [|s rest IH]; intros acc errors; simpl.
  - apply keeps_ret.
  - apply keeps_bind; [| intro; apply IH].
    apply keeps_try.
    + apply keeps_bind; [apply keeps_console_log | intros _].
      apply keeps_bind; [apply keeps_fetchStockDataForSymbol | intro].
      apply keeps_bind; [apply keeps_console_log | intro; apply keeps_ret].
    + intro e. apply keeps_bind;
        [apply keeps_console_error | intro; apply keeps_ret].
Qed.

Lemma keeps_batchFetchStocks (input : BatchFetchInput) :
  keeps (BatchFetchStocks.batchFetchStocks env input).
Proof.
  unfold BatchFetchStocks.batchFetchStocks.
  apply keeps_try.
  - apply keeps_bind; [apply keeps_console_log | intros _].
    apply keeps_bind; [apply keeps_symbolLoop | intros [ticks errors]].
    apply keeps_bind; [apply keeps_console_log | intros _].
    apply keeps_bind.
    + simpl. destruct errors; [apply keeps_ret | apply keeps_console_log].
    + intros _. apply keeps_bind;
        [apply keeps_console_log | intro; apply keeps_ret].
  - intro e. apply keeps_bind;
      [apply keeps_console_error | intro; apply keeps_throw].
Qed.

Lemma keeps_fetchLoop (symbols : list StockSymbol) :
  forall acc, keeps (GetLatestPrices.fetchLoop env symbols acc).
Proof.
  induction symbols as [|s rest IH]; intro acc; simpl.
  - apply keeps_ret.
  - apply keeps_bind; [| intro; apply IH].
    apply keeps_try.
    + apply keeps_bind; [apply keeps_request | intro; apply keeps_ret].
    + intro e. apply keeps_bind;
        [apply keeps_console_error | intro; apply keeps_ret].
Qed.

Lemma keeps_getLatestPrices (fetchFresh : bool) :
  keeps (GetLatestPrices.getLatestPrices env fetchFresh).
Proof.
  unfold GetLatestPrices.getLatestPrices.
  apply keeps_try.
  - apply keeps_bind.
    + destruct fetchFresh; [| apply keeps_ret].
      unfold GetLatestPrices.refresh.
      apply keeps_bind; [apply keeps_fetchLoop | intros [|t ts]].
      * apply keeps_ret.
      * apply keeps_bind; [| intro; apply keeps_ret].
        unfold GetLatestPrices.upsertStockTicks.
        apply keeps_latest_upsertLoop.
    + intros _. apply keeps_bind;
        [apply keeps_latest_join | intro; apply keeps_ret].
  - intro e. apply keeps_bind;
      [apply keeps_console_error | intro; apply keeps_throw].
Qed.

(** C1 -- Natural-key uniqueness invariant.  Whatever the provider
    answers and whichever database statements fail, a sequence of
    upsert operations (fetchAndStore, batchFetchAndStore, the refresh
    of latestPrices) run on a store with at most one row per
    (symbol, timestamp, interval) leaves at most one row per such
    triple, at all times: in the table the sequence ends with and in
    every table the store is left in by a statement on the way.  The
    operations run one after the other. *)
Theorem upserts_keep_natural_key_unique (ops : list UpsertOp) (w : World) :
  natural_key_unique (rows w) ->
  Forall natural_key_unique (history w) ->
  natural_key_unique (rows (run_upserts env ops w))
  /\ Forall natural_key_unique (history (run_upserts env ops w)).
Proof.
  intros Hr Hh.
  assert (Hw : unique_always w) by (split; assumption). clear Hr Hh.
  revert w Hw. induction ops as [|op rest IH]; intros w Hw; simpl.
  - exact Hw.
  - apply IH. destruct op; simpl.
    + apply keeps_fetchStockData; exact Hw.
    + apply keeps_batchFetchStocks; exact Hw.
    + apply keeps_getLatestPrices; exact Hw.
Qed.

(** The history is the record of the tables: a statement that was
    executed adds the table it leaves, and nothing else touches the
    rows. *)
Lemma history_records_statement {A : Type} (op : DbOp)
    (run : World -> Result A * World) (w : World) (a : A) (w' : World) :
  Db.statement env op run w = (Ok a, w') ->
  history w' = history (snd (run w)) ++ [rows w']
  /\ rows w' = rows (snd (run w)).
Proof.
  unfold Db.statement. destruct (db_fault env (db_ops w)); [discriminate|].
  destruct (run w) as [[b|e] w1]; [|discriminate].
  intro H; inversion H; subst. split; reflexivity.
Qed.

End Uniqueness.

Lemma upserts_keep_natural_key_unique_witness :
  natural_key_unique
    (rows (run_upserts (Sample.env (Sample.only 3) Sample.two_points)
             [fetchAndStore (mkFetchInput AAPL I1m "1d");
              batchFetchAndStore (mkBatchInput [AAPL; META] I1m "1d");
              latestPricesRefresh]
             Sample.empty))
  /\ Forall natural_key_unique
       (history
          (run_upserts (Sample.env (Sample.only 3) Sample.two_points)
             [fetchAndStore (mkFetchInput AAPL I1m "1d");
              batchFetchAndStore (mkBatchInput [AAPL; META] I1m "1d");
              latestPricesRefresh]
             Sample.empty)).
Proof.
  apply (@upserts_keep_natural_key_unique
           (Sample.env (Sample.only 3) Sample.two_points)).
  - constructor.
  - constructor.
Defined.

(* ================================================================== *)
(** * Upserting a natural key twice *)

Section Idempotence.
Variable env : Env.

Lemma rows_with_key_cons (k : NaturalKey) (r : StockTick)
    (l : list StockTick) :
  rows_with_key k (r :: l)
  = if key_eqb (natural_key r) k then r :: rows_with_key k l
    else rows_with_key k l.
Proof. reflexivity. Qed.

Lemma rows_with_key_none (k : NaturalKey) (l : list StockTick) :
  ~ In k (map natural_key l) -> rows_with_key k l = [].
Proof.
  intro Hnotin.
  destruct (rows_with_key k l) as [|x xs] eqn:Hf; [reflexivity|].
  exfalso. apply Hnotin.
  assert (Hx : In x (rows_with_key k l)) by (rewrite Hf; left; reflexivity).
  apply filter_In in Hx. destruct Hx as [Hin Hkx].
  apply key_eqb_eq in Hkx. rewrite <- Hkx. apply in_map; exact Hin.
Qed.

Lemma rows_with_key_unique (k : NaturalKey) (l : list StockTick) :
  natural_key_unique l -> (List.length (rows_with_key k l) <= 1)%nat.
Proof.
  unfold natural_key_unique.
  induction l as [|r l IH]; intros H; [simpl; lia|].
  simpl in H. inversion H as [|? ? Hnotin Hrest]; subst.
  rewrite rows_with_key_cons.
  destruct (key_eqb (natural_key r) k) eqn:Hk; [|auto].
  apply key_eqb_eq in Hk. rewrite Hk in Hnotin.
  rewrite (rows_with_key_none _ _ Hnotin). simpl. lia.
Qed.

Lemma rows_with_key_update (k : NaturalKey) (c : StockTick -> bool)
    (v : OHLCV) (l : list StockTick) :
  rows_with_key k (map (fun r => if c r then set_ohlcv r v else r) l)
  = map (fun r => if c r then set_ohlcv r v else r) (rows_with_key k l).
Proof.
  induction l as [|r l IH]; [reflexivity|].
  cbn [map]. rewrite !rows_with_key_cons, IH.
  replace (natural_key (if c r then set_ohlcv r v else r))
    with (natural_key r) by (destruct (c r); reflexivity).
  destruct (key_eqb (natural_key r) k); reflexivity.
Qed.

(** After an upsert on a store with unique natural keys, the key has
    exactly one row and the row holds the upserted values. *)
Lemma upserted_one_row (k : NaturalKey) (v : OHLCV) (w w' : World) :
  natural_key_unique (rows w) -> upserted k v w w' ->
  exists r, rows_with_key k (rows w') = [r] /\ ohlcv r = v.
Proof.
  intros Hu [[Hnone [r [Hrows [Hk Hv]]]] | [c [r0 [rest [Hsome [Hc Hrows]]]]]].
  - exists r. split; [|exact Hv].
    rewrite Hrows. unfold rows_with_key in *. rewrite filter_app, Hnone.
    cbn [filter app]. rewrite Hk.
    replace (key_eqb k k) with true
      by (symmetry; apply key_eqb_eq; reflexivity).
    reflexivity.
  - pose proof (rows_with_key_unique k Hu) as Hlen.
    rewrite Hsome in Hlen. destruct rest; [|simpl in Hlen; lia].
    exists (set_ohlcv r0 v). split; [|reflexivity].
    rewrite Hrows, rows_with_key_update, Hsome. simpl.
    rewrite Hc. reflexivity.
Qed.

Lemma key_filter (s : StockSymbol) (t : Z) (i : string)
    (l : list StockTick) :
  filter (Db.eval_where env
            (where_and [eq_symbol s; eq_timestamp t; eq_interval i])) l
  = rows_with_key (s, t, pg_interval_in env i) l.
Proof.
  unfold rows_with_key. apply filter_ext. intro r.
  apply eval_key_where.
Qed.

Lemma firstn_one_cons {A : Type} (l : list A) (x : A) (xs : list A) :
  firstn 1 l = x :: xs -> exists tl, l = x :: tl.
Proof.
  destruct l as [|a l]; simpl; [discriminate|].
  intro H; inversion H; subst. exists l; reflexivity.
Qed.

Lemma rows_with_key_head (k : NaturalKey) (l : list StockTick)
    (r0 : StockTick) (rest : list StockTick) :
  rows_with_key k l = r0 :: rest -> In r0 l.
Proof.
  intro H.
  assert (Hin : In r0 (rows_with_key k l)) by (rewrite H; left; reflexivity).
  apply filter_In in Hin. tauto.
Qed.

(** Rows selected through the id of a stored row: that row at least. *)
Lemma filter_id_nonempty (r0 : StockTick) (l : list StockTick) :
  In r0 l -> filter (fun r => id r =? id r0) l <> [].
Proof.
  intros Hin Hnil.
  pose proof (filter_nil_none _ _ Hnil r0 Hin) as H.
  simpl in H. rewrite Z.eqb_refl in H. discriminate.
Qed.

(** One round of the loop of fetch_stock_data.ts, when the database
    answers. *)
Lemma fetch_upsertTick_ok (tick : NewStockTick) (w : World) :
  db_fault env (db_ops w) = false ->
  db_fault env (S (db_ops w)) = false ->
  exists saved w',
    FetchStockData.upsertTick env tick w = (Ok saved, w')
    /\ upserted (stored_key env tick) (new_ohlcv tick) w w'
    /\ db_ops w' = S (S (db_ops w)).
Proof.
  intros Hf0 Hf1.
  unfold FetchStockData.upsertTick, upserted, stored_key.
  unfold bind at 1. unfold Db.select at 1, Db.statement at 1.
  rewrite Hf0. cbv beta iota. simpl Db.apply_order.
  rewrite key_filter.
  destruct (rows_with_key
              (new_symbol tick, new_timestamp tick,
               pg_interval_in env (new_interval tick)) (rows w))
    as [|existing0 tl] eqn:Hex.
  - unfold bind, Db.insert, Db.insert_into, Db.statement. simpl.
    rewrite Hf1. simpl.
    eexists; eexists. split; [reflexivity|]. split; [|reflexivity].
    left. split; [reflexivity|].
    eexists. split; [reflexivity|]. split; reflexivity.
  - pose proof (rows_with_key_head _ _ Hex) as Hin.
    unfold bind, Db.update, Db.statement. simpl.
    rewrite Hf1. simpl.
    change (Db.eval_where env (where_one (eq_id (id existing0))))
      with (fun r => id r =? id existing0).
    destruct (filter (fun r => id r =? id existing0) (rows w))
      as [|u us] eqn:Hupd;
      [exfalso; exact (filter_id_nonempty _ _ Hin Hupd)|].
    simpl.
    eexists; eexists. split; [reflexivity|]. split; [|reflexivity].
    right. exists (fun r => id r =? id existing0), existing0, tl.
    split; [reflexivity|]. split; [apply Z.eqb_refl | reflexivity].
Qed.

(** One round of the loop of [upsertStockTicks] in
    get_latest_prices.ts, when the database answers. *)
Lemma latest_upsertTick_ok (tick : GetLatestPrices.Tick) (w : World) :
  db_fault env (db_ops w) = false ->
  db_fault env (S (db_ops w)) = false ->
  exists saved w',
    GetLatestPrices.upsertTick env tick w = (Ok saved, w')
    /\ upserted (stored_key env (GetLatestPrices.values tick))
                (GetLatestPrices.tick_ohlcv tick) w w'
    /\ db_ops w' = S (S (db_ops w)).
Proof.
  intros Hf0 Hf1.
  unfold GetLatestPrices.upsertTick, upserted, stored_key, try_catch.
  unfold bind at 1. unfold Db.select at 1, Db.statement at 1.
  rewrite Hf0. cbv beta iota. simpl Db.apply_order.
  rewrite key_filter. simpl new_symbol. simpl new_timestamp.
  simpl new_interval.
  destruct (rows_with_key
              (GetLatestPrices.tick_symbol tick,
               GetLatestPrices.tick_timestamp tick,
               pg_interval_in env
                 (GetLatestPrices.reverseIntervalMapping
                    (GetLatestPrices.tick_interval tick))) (rows w))
    as [|existing0 tl] eqn:Hex.
  - unfold bind, Db.insert, Db.insert_into, Db.statement. simpl.
    rewrite Hf1. simpl.
    eexists; eexists. split; [reflexivity|]. split; [|reflexivity].
    left. split; [reflexivity|].
    eexists. split; [reflexivity|]. split; reflexivity.
  - pose proof (rows_with_key_head _ _ Hex) as Hin.
    unfold bind, Db.update, Db.statement. simpl.
    rewrite Hf1. simpl.
    change (Db.eval_where env (where_one (eq_id (id existing0))))
      with (fun r => id r =? id existing0).
    destruct (filter (fun r => id r =? id existing0) (rows w))
      as [|u us] eqn:Hupd;
      [exfalso; exact (filter_id_nonempty _ _ Hin Hupd)|].
    simpl.
    eexists; eexists. split; [reflexivity|]. split; [|reflexivity].
    right. exists (fun r => id r =? id existing0), existing0, tl.
    split; [reflexivity|]. split; [apply Z.eqb_refl | reflexivity].
Qed.

Lemma latest_upsertStockTicks_one (tick : GetLatestPrices.Tick)
    (w : World) :
  GetLatestPrices.upsertStockTicks env [tick] w
  = match GetLatestPrices.upsertTick env tick w with
    | (Ok saved, w') => (Ok [saved], w')
    | (Err e, w') => (Err e, w')
    end.
Proof.
  unfold GetLatestPrices.upsertStockTicks. simpl. unfold bind.
  destruct (GetLatestPrices.upsertTick env tick w) as [[saved|e] w'];
    reflexivity.
Qed.

(** An upsert leaves the natural key unique. *)
Lemma upserted_unique (k : NaturalKey) (v : OHLCV) (w w' : World) :
  natural_key_unique (rows w) -> upserted k v w w' ->
  natural_key_unique (rows w').
Proof.
  intros Hu [[Hnone [r [Hrows [Hk _]]]] | [c [r0 [more [_ [_ Hrows]]]]]].
  - rewrite Hrows. apply unique_snoc; [exact Hu|].
    intros x Hx. rewrite Hk.
    apply (filter_nil_none (fun r => key_eqb (natural_key r) k) _ Hnone x Hx).
  - rewrite Hrows. unfold natural_key_unique. rewrite map_key_update.
    exact Hu.
Qed.

(** An upsert on a key that has exactly one row rewrites that row and
    adds none. *)
Lemma upserted_existing (k : NaturalKey) (v : OHLCV) (w w' : World)
    (r1 : StockTick) :
  rows_with_key k (rows w) = [r1] -> upserted k v w w' ->
  rows_with_key k (rows w') = [set_ohlcv r1 v]
  /\ List.length (rows w') = List.length (rows w).
Proof.
  intros H1 [[Hnone _] | [c [r0 [rest [Hsome [Hc Hrows]]]]]].
  - rewrite H1 in Hnone. discriminate.
  - rewrite H1 in Hsome. inversion Hsome; subst r0 rest.
    rewrite Hrows, rows_with_key_update, H1, length_map. simpl.
    rewrite Hc. split; reflexivity.
Qed.

(** An upsert leaves the key the rows it had, one when it had none, a
    row of the key holding the upserted values. *)
Lemma upserted_count (k : NaturalKey) (v : OHLCV) (w w' : World) :
  upserted k v w w' ->
  List.length (rows_with_key k (rows w'))
  = Nat.max 1 (List.length (rows_with_key k (rows w)))
  /\ exists r, In r (rows_with_key k (rows w')) /\ ohlcv r = v.
Proof.
  intros [[Hnone [r [Hrows [Hk Hv]]]] | [c [r0 [rest [Hsome [Hc Hrows]]]]]].
  - rewrite Hrows. unfold rows_with_key in *. rewrite filter_app, Hnone.
    cbn [filter app]. rewrite Hk.
    replace (key_eqb k k) with true
      by (symmetry; apply key_eqb_eq; reflexivity).
    split; [reflexivity|]. exists r. split; [left; reflexivity | exact Hv].
  - rewrite Hrows, rows_with_key_update, Hsome, length_map.
    split; [cbn [List.length]; lia|].
    exists (set_ohlcv r0 v). cbn [map]. rewrite Hc.
    split; [left; reflexivity | reflexivity].
Qed.

(** On a key that has a row, an upsert adds none. *)
Lemma upserted_stored (k : NaturalKey) (v : OHLCV) (w w' : World) :
  rows_with_key k (rows w) <> [] -> upserted k v w w' ->
  List.length (rows w') = List.length (rows w).
Proof.
  intros Hne [[Hnone _] | [c [r0 [rest [_ [_ Hrows]]]]]].
  - contradiction.
  - rewrite Hrows, length_map. reflexivity.
Qed.

(** On a key stored at most once, an upsert leaves exactly one row. *)
Lemma upserted_single (k : NaturalKey) (v : OHLCV) (w w' : World) :
  (List.length (rows_with_key k (rows w)) <= 1)%nat -> upserted k v w w' ->
  exists r, rows_with_key k (rows w') = [r] /\ ohlcv r = v.
Proof.
  intros Hlen
         [[Hnone [r [Hrows [Hk Hv]]]] | [c [r0 [rest [Hsome [Hc Hrows]]]]]].
  - exists r. split; [|exact Hv].
    rewrite Hrows. unfold rows_with_key in *. rewrite filter_app, Hnone.
    cbn [filter app]. rewrite Hk.
    replace (key_eqb k k) with true
      by (symmetry; apply key_eqb_eq; reflexivity).
    reflexivity.
  - rewrite Hsome in Hlen. destruct rest; [|simpl in Hlen; lia].
    exists (set_ohlcv r0 v). split; [|reflexivity].
    rewrite Hrows, rows_with_key_update, Hsome. simpl.
    rewrite Hc. reflexivity.
Qed.

(** Two upserts of one key, one after the other. *)
Lemma upserted_then_upserted (k : NaturalKey) (v1 v2 : OHLCV)
    (w w1 w2 : World) :
  upserted k v1 w w1 -> upserted k v2 w1 w2 ->
  upserted_twice k v1 v2 w w1 w2.
Proof.
  intros Hup1 Hup2.
  destruct (upserted_count Hup1) as [Hn1 [held1 [Hheld1 _]]].
  destruct (upserted_count Hup2) as [Hn2 Hheld2].
  assert (Hne : rows_with_key k (rows w1) <> []).
  { intro Hnil. rewrite Hnil in Hheld1. exact Hheld1. }
  unfold upserted_twice.
  split; [rewrite Hn2, Hn1; lia|].
  split; [exact (upserted_stored Hne Hup2)|].
  split; [exact Hheld2|].
  intro Hone.
  destruct (upserted_single Hone Hup1) as [r1 [Hr1 Hv1]].
  exists r1. split; [exact Hr1|]. split; [exact Hv1|].
  exact (proj1 (upserted_existing Hr1 Hup2)).
Qed.

(** C2 (as amended) -- Upsert idempotence.  When the database answers,
    two successive upserts of one natural key both succeed and leave
    the key the rows it had, one when it had none: the second adds no
    row, and a row of the key holds its values.  On a key stored at
    most once they leave exactly one row, the same row (same id, same
    created_at) after both, holding the open, high, low, close and
    volume of the second upsert.  A key stored more than once keeps all
    its rows.  This holds for the upsert of fetch_stock_data.ts (the
    round of its loop) and for [upsertStockTicks] of
    get_latest_prices.ts. *)
Theorem upsert_twice_one_row (w : World) :
  no_fault_from env (db_ops w) ->
  (forall t1 t2 : NewStockTick,
      stored_key env t1 = stored_key env t2 ->
      exists s1 w1 s2 w2,
        FetchStockData.upsertTick env t1 w = (Ok s1, w1)
        /\ FetchStockData.upsertTick env t2 w1 = (Ok s2, w2)
        /\ upserted_twice (stored_key env t1) (new_ohlcv t1) (new_ohlcv t2)
                          w w1 w2)
  /\ (forall t1 t2 : GetLatestPrices.Tick,
         stored_key env (GetLatestPrices.values t1)
         = stored_key env (GetLatestPrices.values t2) ->
         exists s1 w1 s2 w2,
           GetLatestPrices.upsertStockTicks env [t1] w = (Ok s1, w1)
           /\ GetLatestPrices.upsertStockTicks env [t2] w1 = (Ok s2, w2)
           /\ upserted_twice (stored_key env (GetLatestPrices.values t1))
                             (GetLatestPrices.tick_ohlcv t1)
                             (GetLatestPrices.tick_ohlcv t2) w w1 w2).
Proof.
  intro Hnf. split.
  - intros t1 t2 Hkey.
    destruct (@fetch_upsertTick_ok t1 w) as [s1 [w1 [E1 [Hup1 Hops1]]]];
      try (apply Hnf; lia).
    destruct (@fetch_upsertTick_ok t2 w1) as [s2 [w2 [E2 [Hup2 _]]]];
      try (apply Hnf; lia).
    rewrite <- Hkey in Hup2.
    exists s1, w1, s2, w2.
    split; [exact E1|]. split; [exact E2|].
    exact (upserted_then_upserted Hup1 Hup2).
  - intros t1 t2 Hkey.
    destruct (@latest_upsertTick_ok t1 w) as [s1 [w1 [E1 [Hup1 Hops1]]]];
      try (apply Hnf; lia).
    destruct (@latest_upsertTick_ok t2 w1) as [s2 [w2 [E2 [Hup2 _]]]];
      try (apply Hnf; lia).
    rewrite <- Hkey in Hup2.
    exists [s1], w1, [s2], w2.
    rewrite !latest_upsertStockTicks_one, E1, E2.
    split; [reflexivity|]. split; [reflexivity|].
    exact (upserted_then_upserted Hup1 Hup2).
Qed.

End Idempotence.

(* ================================================================== *)
(** * Sorting newest first *)

Section SortFacts.
Variable A : Type.
Variable key : A -> Z.

Lemma insert_desc_perm (x : A) (l : list A) :
  Permutation (insert_desc key x l) (x :: l).
Proof.
  induction l as [|y ys IH]; simpl; [apply Permutation_refl|].
  destruct (key x <? key y).
  - apply perm_trans with (y :: x :: ys);
      [apply perm_skip; exact IH | apply perm_swap].
  - apply Permutation_refl.
Qed.

Lemma sort_desc_perm (l : list A) : Permutation (sort_desc key l) l.
Proof.
  induction l as [|x xs IH]; simpl; [apply perm_nil|].
  apply perm_trans with (x :: sort_desc key xs);
    [apply insert_desc_perm | apply perm_skip; exact IH].
Qed.

Lemma insert_desc_sorted (x : A) (l : list A) :
  StronglySorted (desc key) l ->
  StronglySorted (desc key) (insert_desc key x l).
Proof.
  induction l as [|y ys IH]; simpl; intro Hs.
  - constructor; constructor.
  - inversion Hs as [|? ? Hys Hall]; subst.
    destruct (key x <? key y) eqn:Hlt.
    + apply Z.ltb_lt in Hlt. constructor; [apply IH; exact Hys|].
      apply Forall_forall. intros z Hz.
      apply (Permutation_in _ (insert_desc_perm x ys)) in Hz.
      destruct Hz as [<-|Hz]; [unfold desc; lia|].
      rewrite Forall_forall in Hall. apply Hall; exact Hz.
    + apply Z.ltb_ge in Hlt. constructor; [exact Hs|].
      constructor; [exact Hlt|].
      rewrite Forall_forall in Hall |- *. intros z Hz.
      specialize (Hall z Hz). unfold desc in *. lia.
Qed.

Lemma sort_desc_sorted (l : list A) :
  StronglySorted (desc key) (sort_desc key l).
Proof.
  induction l as [|x xs IH]; simpl; [constructor|].
  apply insert_desc_sorted; exact IH.
Qed.

Lemma in_firstn (n : nat) (l : list A) (x : A) :
  In x (firstn n l) -> In x l.
Proof.
  intro H. rewrite <- (firstn_skipn n l). apply in_or_app. left; exact H.
Qed.

Lemma sorted_firstn (n : nat) (l : list A) :
  StronglySorted (desc key) l -> StronglySorted (desc key) (firstn n l).
Proof.
  revert n. induction l as [|x xs IH]; intros n Hs.
  - rewrite firstn_nil. constructor.
  - destruct n as [|n]; simpl; [constructor|].
    inversion Hs as [|? ? Hxs Hall]; subst.
    constructor; [apply IH; exact Hxs|].
    rewrite Forall_forall in Hall |- *. intros z Hz.
    apply Hall. eapply in_firstn; exact Hz.
Qed.

(** Sorting commutes with a map that keeps the keys. *)
Lemma sort_desc_map (B : Type) (f : B -> A) (l : list B) :
  map f (sort_desc (fun b => key (f b)) l) = sort_desc key (map f l).
Proof.
  induction l as [|x xs IH]; simpl; [reflexivity|].
  rewrite <- IH. generalize (sort_desc (fun b => key (f b)) xs).
  intro s. induction s as [|y ys IHs]; simpl; [reflexivity|].
  destruct (key (f x) <? key (f y)); simpl; [rewrite IHs|]; reflexivity.
Qed.

End SortFacts.

(* ================================================================== *)
(** * The range query *)

(** Decides the comparisons of timestamps left in the goal. *)
Ltac decide_order :=
  repeat match goal with
         | |- context [?a <? ?b] =>
             first [ replace (a <? b) with true
                       by (symmetry; apply Z.ltb_lt; lia)
                   | replace (a <? b) with false
                       by (symmetry; apply Z.ltb_ge; lia) ]
         | |- context [?a <=? ?b] =>
             first [ replace (a <=? b) with true
                       by (symmetry; apply Z.leb_le; lia)
                   | replace (a <=? b) with false
                       by (symmetry; apply Z.leb_gt; lia) ]
         end.

Section RangeQuery.
Variable env : Env.

(** The [conditions] the handler builds are the conjunction of the
    supplied predicates. *)
Lemma conditions_satisfies (input : GetHistoricalDataInput)
    (r : StockTick) :
  Db.eval_where env (build_where (GetHistoricalData.conditions input)) r
  = RangeQuerySpec.satisfies env input r.
Proof.
  destruct input as [[s|] i [sd|] [ed|] lim];
    unfold RangeQuerySpec.satisfies, RangeQuerySpec.symbol_ok,
      RangeQuerySpec.interval_ok, RangeQuerySpec.start_ok,
      RangeQuerySpec.end_ok, RangeQuerySpec.encode,
      GetHistoricalData.conditions;
    simpl; rewrite ?andb_true_r, ?andb_assoc; reflexivity.
Qed.

(** The handler computes the range query of the specification. *)
Lemma getHistoricalData_refines (input : GetHistoricalDataInput)
    (w : World) :
  db_fault env (db_ops w) = false ->
  GetHistoricalData.getHistoricalData env input w
  = (Ok (RangeQuerySpec.queryHistory env input (rows w)),
     executed (OpSelect (build_where (GetHistoricalData.conditions input))
                        true (Some (input_limit input))) w).
Proof.
  intro Hf.
  unfold GetHistoricalData.getHistoricalData, try_catch, bind,
    Db.select, Db.statement.
  rewrite Hf. cbv beta iota.
  unfold RangeQuerySpec.queryHistory, RangeQuerySpec.selected,
    RangeQuerySpec.decode, ret.
  simpl Db.apply_order. simpl Db.apply_limit.
  rewrite (filter_ext _ _ (conditions_satisfies input)).
  reflexivity.
Qed.

Lemma selected_sound (input : GetHistoricalDataInput)
    (stored : list StockTick) (r : StockTick) :
  In r (RangeQuerySpec.selected env input stored) ->
  In r stored /\ RangeQuerySpec.satisfies env input r = true.
Proof.
  unfold RangeQuerySpec.selected. intro H.
  apply in_firstn in H.
  apply (Permutation_in _ (sort_desc_perm timestamp _)) in H.
  apply filter_In in H. exact H.
Qed.

Lemma selected_newest_first (input : GetHistoricalDataInput)
    (stored : list StockTick) :
  newest_first (RangeQuerySpec.selected env input stored).
Proof.
  unfold RangeQuerySpec.selected, newest_first.
  apply sorted_firstn. apply sort_desc_sorted.
Qed.

Lemma selected_length (input : GetHistoricalDataInput)
    (stored : list StockTick) :
  List.length (RangeQuerySpec.selected env input stored)
  = Nat.min (input_limit input)
            (List.length
               (filter (RangeQuerySpec.satisfies env input) stored)).
Proof.
  unfold RangeQuerySpec.selected. rewrite length_firstn.
  rewrite (Permutation_length (sort_desc_perm timestamp _)).
  reflexivity.
Qed.

(** The rows returned are the first [limit] of a newest-first
    arrangement of exactly the rows that satisfy the predicates. *)
Lemma selected_prefix (input : GetHistoricalDataInput)
    (stored : list StockTick) :
  exists dropped,
    Permutation (RangeQuerySpec.selected env input stored ++ dropped)
                (filter (RangeQuerySpec.satisfies env input) stored)
    /\ newest_first (RangeQuerySpec.selected env input stored ++ dropped).
Proof.
  unfold RangeQuerySpec.selected, newest_first.
  exists (skipn (input_limit input)
                (sort_desc timestamp
                   (filter (RangeQuerySpec.satisfies env input) stored))).
  rewrite firstn_skipn. split;
    [apply sort_desc_perm | apply sort_desc_sorted].
Qed.

(** The range-filter scenario, on the rows selected. *)
Lemma range_example_selected (i5 i1 : string) (T : Z) :
  pg_interval_in env (RangeQuerySpec.encode I5m) = i5 ->
  i1 <> i5 ->
  RangeQuerySpec.selected env (mkHistInput None I5m None None 100)
                          (RangeExample.stored i5 i1 T)
  = [RangeExample.meta20 i5 T; RangeExample.aapl25 i5 T;
     RangeExample.aapl30 i5 T]
  /\ RangeQuerySpec.selected env
       (mkHistInput (Some AAPL) I5m None None 100)
       (RangeExample.stored i5 i1 T)
     = [RangeExample.aapl25 i5 T; RangeExample.aapl30 i5 T]
  /\ RangeQuerySpec.selected env
       (mkHistInput None I5m
                    (Some (T - RangeExample.minutes 32))
                    (Some (T - RangeExample.minutes 22)) 100)
       (RangeExample.stored i5 i1 T)
     = [RangeExample.aapl25 i5 T; RangeExample.aapl30 i5 T].
Proof.
  intros H5 Hne.
  apply String.eqb_neq in Hne.
  unfold RangeQuerySpec.selected, RangeExample.stored,
    RangeQuerySpec.satisfies, RangeQuerySpec.symbol_ok,
    RangeQuerySpec.interval_ok, RangeQuerySpec.start_ok,
    RangeQuerySpec.end_ok.
  cbn [input_symbol input_interval input_startDate input_endDate
       input_limit].
  rewrite H5.
  cbn [filter interval symbol timestamp RangeExample.aapl30
       RangeExample.aapl25 RangeExample.meta20 RangeExample.aapl15
       symbol_eqb andb].
  rewrite String.eqb_refl, Hne.
  repeat split.
  all: repeat (progress
                 (unfold RangeExample.minutes; decide_order;
                  cbn [filter andb sort_desc insert_desc timestamp
                       RangeExample.aapl30 RangeExample.aapl25
                       RangeExample.meta20 RangeExample.aapl15])).
  all: reflexivity.
Qed.

(** C3 -- Range query contract.  When the database answers,
    [getHistoricalData] returns, with the interval decoded, the stored
    ticks that satisfy the conjunction of the supplied predicates
    (symbol when given, the interval as encoded by
    [convertIntervalToPostgres], start <= timestamp <= end when
    given), newest first and cut to the first [limit] rows: the rows
    returned are stored rows that satisfy the predicates, they are in
    descending order of timestamp, there are min(limit, number of
    matching rows) of them, and they are the head of a newest-first
    arrangement of exactly the matching rows.  The store is left as it
    was.  On the store of the scenario (AAPL 5m at T-30m and T-25m,
    META 5m at T-20m, AAPL 1m at T-15m), the ticks of 5m held as the
    column keeps the encoding of 5m and the tick of 1m held as another
    value, interval 5m without symbol returns the ticks at T-20m,
    T-25m and T-30m, symbol AAPL with interval 5m returns two rows,
    and the window [T-32m, T-22m] returns exactly the ticks at T-25m
    and T-30m. *)
Theorem range_query_contract :
  (forall (w : World) (input : GetHistoricalDataInput),
      db_fault env (db_ops w) = false ->
      fst (GetHistoricalData.getHistoricalData env input w)
      = Ok (map RangeQuerySpec.returned
                (RangeQuerySpec.selected env input (rows w)))
      /\ rows (snd (GetHistoricalData.getHistoricalData env input w))
         = rows w
      /\ (forall r, In r (RangeQuerySpec.selected env input (rows w)) ->
                    In r (rows w)
                    /\ RangeQuerySpec.satisfies env input r = true)
      /\ newest_first (RangeQuerySpec.selected env input (rows w))
      /\ List.length (RangeQuerySpec.selected env input (rows w))
         = Nat.min (input_limit input)
                   (List.length
                      (filter (RangeQuerySpec.satisfies env input)
                              (rows w)))
      /\ exists dropped,
          Permutation
            (RangeQuerySpec.selected env input (rows w) ++ dropped)
            (filter (RangeQuerySpec.satisfies env input) (rows w))
          /\ newest_first
               (RangeQuerySpec.selected env input (rows w) ++ dropped))
  /\ (forall (w : World) (i5 i1 : string) (T : Z),
         rows w = RangeExample.stored i5 i1 T ->
         db_fault env (db_ops w) = false ->
         pg_interval_in env (RangeQuerySpec.encode I5m) = i5 ->
         i1 <> i5 ->
         fst (GetHistoricalData.getHistoricalData env
                (mkHistInput None I5m None None 100) w)
         = Ok (map RangeQuerySpec.returned
                   [RangeExample.meta20 i5 T; RangeExample.aapl25 i5 T;
                    RangeExample.aapl30 i5 T])
         /\ fst (GetHistoricalData.getHistoricalData env
                   (mkHistInput (Some AAPL) I5m None None 100) w)
            = Ok (map RangeQuerySpec.returned
                      [RangeExample.aapl25 i5 T; RangeExample.aapl30 i5 T])
         /\ fst (GetHistoricalData.getHistoricalData env
                   (mkHistInput None I5m
                                (Some (T - RangeExample.minutes 32))
                                (Some (T - RangeExample.minutes 22)) 100)
                   w)
            = Ok (map RangeQuerySpec.returned
                      [RangeExample.aapl25 i5 T;
                       RangeExample.aapl30 i5 T])).
Proof.
  split.
  - intros w input Hf.
    rewrite (getHistoricalData_refines input w Hf). cbn [fst snd].
    split; [reflexivity|]. split; [reflexivity|].
    split; [intro r; apply selected_sound|].
    split; [apply selected_newest_first|].
    split; [apply selected_length | apply selected_prefix].
  - intros w i5 i1 T Hrows Hf H5 Hne.
    destruct (range_example_selected T H5 Hne) as [E1 [E2 E3]].
    rewrite !(getHistoricalData_refines _ w Hf). cbn [fst].
    unfold RangeQuerySpec.queryHistory. rewrite Hrows, E1, E2, E3.
    repeat split; reflexivity.
Qed.


End RangeQuery.

Lemma upsert_twice_one_row_witness :
  exists s1 w1 s2 w2,
    FetchStockData.upsertTick (Sample.env Sample.never Sample.no_points)
      (mkNewStockTick AAPL 1704103200000 Sample.ohlcv1 "1m") Sample.empty
    = (Ok s1, w1)
    /\ FetchStockData.upsertTick (Sample.env Sample.never Sample.no_points)
         (mkNewStockTick AAPL 1704103200000 Sample.ohlcv2 "1m") w1
       = (Ok s2, w2)
    /\ upserted_twice (AAPL, 1704103200000, "00:01:00")
                      Sample.ohlcv1 Sample.ohlcv2 Sample.empty w1 w2.
Proof.
  assert (Hnf : no_fault_from (Sample.env Sample.never Sample.no_points)
                              (db_ops Sample.empty))
    by (intros m _; reflexivity).
  exact (proj1 (@upsert_twice_one_row
                  (Sample.env Sample.never Sample.no_points)
                  Sample.empty Hnf)
               (mkNewStockTick AAPL 1704103200000 Sample.ohlcv1 "1m")
               (mkNewStockTick AAPL 1704103200000 Sample.ohlcv2 "1m")
               eq_refl).
Defined.

(** C2, as stated, fails on a table that holds a key twice, and the
    chart handler leaves such tables (C6): from a table with one row of
    the key, a chart request whose window misses it stores a second
    one; the two upserts that follow leave both rows, and one of them
    does not hold the values of the second upsert. *)
Lemma upsert_twice_two_rows_counterexample :
  natural_key_unique (rows DuplicateExample.store)
  /\ (exists response,
        fst (GetChartData.getChartData DuplicateExample.env
                                       DuplicateExample.chartInput
                                       DuplicateExample.store)
        = Ok response)
  /\ stored_key DuplicateExample.env DuplicateExample.again
     = stored_key DuplicateExample.env DuplicateExample.onceMore
  /\ (exists s1,
        fst (FetchStockData.upsertTick DuplicateExample.env
               DuplicateExample.again DuplicateExample.afterChart)
        = Ok s1)
  /\ (exists s2,
        fst (FetchStockData.upsertTick DuplicateExample.env
               DuplicateExample.onceMore DuplicateExample.afterFirst)
        = Ok s2)
  /\ List.length
       (rows_with_key
          (stored_key DuplicateExample.env DuplicateExample.again)
          (rows DuplicateExample.afterSecond)) = 2%nat
  /\ In DuplicateExample.fetched
        (rows_with_key
           (stored_key DuplicateExample.env DuplicateExample.again)
           (rows DuplicateExample.afterSecond))
  /\ ohlcv DuplicateExample.fetched
     <> new_ohlcv DuplicateExample.onceMore.
Proof.
  split; [repeat constructor; simpl; tauto|].
  split; [vm_compute; eexists; reflexivity|].
  split; [reflexivity|].
  split; [vm_compute; eexists; reflexivity|].
  split; [vm_compute; eexists; reflexivity|].
  split; [vm_compute; reflexivity|].
  split; [vm_compute; right; left; reflexivity | discriminate].
Qed.

Lemma range_query_contract_witness :
  fst (GetHistoricalData.getHistoricalData
         (Sample.env Sample.never Sample.no_points)
         (mkHistInput None I5m
                      (Some (1704103200000 - RangeExample.minutes 32))
                      (Some (1704103200000 - RangeExample.minutes 22)) 100)
         (Sample.with_rows
            (RangeExample.stored "00:05:00" "00:01:00" 1704103200000)))
  = Ok (map RangeQuerySpec.returned
            [RangeExample.aapl25 "00:05:00" 1704103200000;
             RangeExample.aapl30 "00:05:00" 1704103200000]).
Proof.
  refine (proj2 (proj2
            (proj2 (@range_query_contract
                      (Sample.env Sample.never Sample.no_points))
                   (Sample.with_rows
                      (RangeExample.stored "00:05:00" "00:01:00"
                                           1704103200000))
                   "00:05:00" "00:01:00" 1704103200000
                   eq_refl eq_refl eq_refl _))).
  discriminate.
Defined.

(* ================================================================== *)
(** * The latest tick per symbol *)

Section LatestPrices.
Variable env : Env.

Lemma max_timestamp_spec (s : StockSymbol) (l : list StockTick) (m : Z) :
  Db.max_timestamp s l = Some m ->
  (forall r, In r l -> symbol r = s -> timestamp r <= m)
  /\ (exists r, In r l /\ symbol r = s /\ timestamp r = m).
Proof.
  revert m. induction l as [|x xs IH]; simpl; intros m H; [discriminate|].
  destruct (symbol_eqb (symbol x) s) eqn:Hs.
  - apply symbol_eqb_eq in Hs.
    destruct (Db.max_timestamp s xs) as [m'|] eqn:Hm.
    + inversion H; subst m. destruct (IH m' eq_refl) as [Hle [r [Hin [Hr Ht]]]].
      split.
      * intros r0 [<-|Hr0] Hs0; [lia|].
        specialize (Hle r0 Hr0 Hs0). lia.
      * destruct (Z.max_spec (timestamp x) m') as [[_ ->]|[_ ->]].
        -- exists r. auto.
        -- exists x. auto.
    + inversion H; subst m. split.
      * intros r0 [<-|Hr0] Hs0; [lia|].
        exfalso. clear IH H. induction xs as [|y ys IHy]; [contradiction|].
        simpl in Hm. destruct (symbol_eqb (symbol y) s) eqn:Hy;
          [discriminate|].
        destruct Hr0 as [<-|Hr0]; [|auto].
        apply symbol_eqb_eq in Hs0. congruence.
      * exists x. auto.
  - destruct (IH m H) as [Hle [r [Hin [Hr Ht]]]]. split.
    + intros r0 [<-|Hr0] Hs0; [|auto].
      apply symbol_eqb_eq in Hs0. congruence.
    + exists r. auto.
Qed.

Lemma max_timestamp_some (r : StockTick) (l : list StockTick) :
  In r l -> exists m, Db.max_timestamp (symbol r) l = Some m.
Proof.
  induction l as [|x xs IH]; simpl; intros H; [contradiction|].
  destruct (symbol_eqb (symbol x) (symbol r)) eqn:Hs; [eexists; reflexivity|].
  destruct H as [<-|H]; [|auto].
  rewrite symbol_eqb_refl in Hs. discriminate.
Qed.

(** A stored row has the latest timestamp of its symbol exactly when
    its timestamp is the maximum of the group of its symbol. *)
Lemma is_latest_max (all : list StockTick) (r : StockTick) (m : Z) :
  In r all -> Db.max_timestamp (symbol r) all = Some m ->
  (timestamp r =? m) = LatestSpec.is_latest all r.
Proof.
  intros Hin Hm.
  destruct (max_timestamp_spec _ _ Hm) as [Hle [r' [Hin' [Hs' Ht']]]].
  destruct (LatestSpec.is_latest all r) eqn:Hl.
  - apply Z.eqb_eq. unfold LatestSpec.is_latest in Hl.
    rewrite forallb_forall in Hl. specialize (Hl r' Hin').
    rewrite Hs', symbol_eqb_refl in Hl. simpl in Hl.
    apply Z.leb_le in Hl. specialize (Hle r Hin eq_refl). lia.
  - apply Z.eqb_neq. intro Heq.
    assert (Ht : LatestSpec.is_latest all r = true); [|congruence].
    unfold LatestSpec.is_latest. apply forallb_forall. intros x Hx.
    destruct (symbol_eqb (symbol x) (symbol r)) eqn:Hs; [|reflexivity].
    apply symbol_eqb_eq in Hs. simpl. apply Z.leb_le.
    specialize (Hle x Hx Hs). lia.
Qed.

(** The groups of the subquery that a row joins with: the group of its
    symbol, when the row has the maximum of the group. *)
Lemma join_groups (all : list StockTick) (s : StockSymbol) (t : Z) :
  filter (fun g => symbol_eqb s (fst g) && (t =? snd g))
         (Db.latest_timestamps all)
  = match Db.max_timestamp s all with
    | Some m => if t =? m then [(s, m)] else []
    | None => []
    end.
Proof.
  unfold Db.latest_timestamps, stockSymbolSchema. cbn [flat_map].
  destruct s;
    destruct (Db.max_timestamp META all), (Db.max_timestamp AAPL all),
    (Db.max_timestamp AMZN all), (Db.max_timestamp GOOG all),
    (Db.max_timestamp MSFT all), (Db.max_timestamp NVDA all);
    cbn [app filter fst snd symbol_eqb andb];
    try reflexivity;
    repeat match goal with
           | |- context [t =? ?z] => destruct (t =? z)
           end; reflexivity.
Qed.

Lemma innerJoin_rows (all l : list StockTick) :
  (forall r, In r l -> In r all) ->
  map fst (Db.innerJoin l (Db.latest_timestamps all))
  = filter (LatestSpec.is_latest all) l.
Proof.
  induction l as [|r l IH]; intro Hsub; [reflexivity|].
  unfold Db.innerJoin in *. cbn [flat_map filter].
  rewrite map_app, IH by (intros x Hx; apply Hsub; right; exact Hx).
  rewrite join_groups.
  destruct (max_timestamp_some r all (Hsub r (or_introl eq_refl))) as [m Hm].
  rewrite Hm, (is_latest_max all r (Hsub r (or_introl eq_refl)) Hm).
  destruct (LatestSpec.is_latest all r); reflexivity.
Qed.

(** The handler computes the latest ticks of the specification. *)
Lemma getLatestPrices_refines (w : World) :
  db_fault env (db_ops w) = false ->
  GetLatestPrices.getLatestPrices env false w
  = (Ok (LatestSpec.latestPrices (rows w)),
     executed OpLatestJoin w).
Proof.
  intro Hf.
  unfold GetLatestPrices.getLatestPrices, try_catch, bind, ret,
    Db.latest_join, Db.statement.
  rewrite Hf. cbv beta iota.
  unfold LatestSpec.latestPrices, LatestSpec.selected.
  rewrite <- (innerJoin_rows (rows w) (rows w)) by (intros; assumption).
  rewrite <- sort_desc_map, map_map. reflexivity.
Qed.

Lemma is_latest_iff (stored : list StockTick) (r : StockTick) :
  LatestSpec.is_latest stored r = true
  <-> forall r', In r' stored -> symbol r' = symbol r ->
                 timestamp r' <= timestamp r.
Proof.
  unfold LatestSpec.is_latest. rewrite forallb_forall. split.
  - intros H r' Hin Hs. specialize (H r' Hin).
    rewrite Hs, symbol_eqb_refl in H. simpl in H. apply Z.leb_le; exact H.
  - intros H r' Hin.
    destruct (symbol_eqb (symbol r') (symbol r)) eqn:Hs; [|reflexivity].
    apply symbol_eqb_eq in Hs. simpl. apply Z.leb_le. auto.
Qed.

Lemma latest_selected_iff (stored : list StockTick) (r : StockTick) :
  In r (LatestSpec.selected stored)
  <-> In r stored
      /\ forall r', In r' stored -> symbol r' = symbol r ->
                    timestamp r' <= timestamp r.
Proof.
  unfold LatestSpec.selected. rewrite <- is_latest_iff, <- filter_In.
  split; apply Permutation_in;
    [| apply Permutation_sym]; apply sort_desc_perm.
Qed.

(** Every symbol that has a stored tick is reported. *)
Lemma latest_selected_complete (stored : list StockTick) (r : StockTick) :
  In r stored ->
  exists r', In r' (LatestSpec.selected stored) /\ symbol r' = symbol r.
Proof.
  intro Hin. destruct (max_timestamp_some r stored Hin) as [m Hm].
  destruct (max_timestamp_spec _ _ Hm) as [Hle [r' [Hin' [Hs' Ht']]]].
  exists r'. split; [|exact Hs'].
  apply latest_selected_iff. split; [exact Hin'|].
  intros x Hx Hsx. rewrite Ht'. apply Hle; [exact Hx | congruence].
Qed.

(** Dropping rows keeps symbol and timestamp pairwise distinct. *)
Lemma latest_filter_distinct (keep : StockTick -> bool)
    (stored : list StockTick) :
  NoDup (map (fun r => (symbol r, timestamp r)) stored) ->
  NoDup (map (fun r => (symbol r, timestamp r)) (filter keep stored)).
Proof.
  induction stored as [|r rest IH]; intro Hd; [constructor|].
  cbn [map filter] in *. apply NoDup_cons_iff in Hd. destruct Hd as [Hr Hd].
  destruct (keep r); [|exact (IH Hd)].
  cbn [map]. apply NoDup_cons_iff. split; [|exact (IH Hd)].
  contradict Hr. apply in_map_iff in Hr. destruct Hr as [x [Ex Hx]].
  apply filter_In in Hx. destruct Hx as [Hx _].
  apply in_map_iff. exists x. split; assumption.
Qed.

Lemma NoDup_map_coarser {A B C : Type} (f : A -> B) (g : A -> C)
    (l : list A) :
  (forall a b, In a l -> In b l -> g a = g b -> f a = f b) ->
  NoDup (map f l) -> NoDup (map g l).
Proof.
  induction l as [|a l IH]; simpl; intros Hfg H; [constructor|].
  inversion H as [|? ? Hnotin Hrest]; subst.
  constructor.
  - intro Hin. apply Hnotin. apply in_map_iff in Hin.
    destruct Hin as [x [Hx Hxin]].
    rewrite (Hfg a x (or_introl eq_refl) (or_intror Hxin) (eq_sym Hx)).
    apply in_map; exact Hxin.
  - apply IH; [|exact Hrest]. intros x y Hx Hy. apply Hfg; right; assumption.
Qed.

(** When no two stored ticks share symbol and timestamp, a symbol is
    reported once. *)
Lemma latest_selected_one_per_symbol (stored : list StockTick) :
  NoDup (map (fun r => (symbol r, timestamp r)) stored) ->
  NoDup (map symbol (LatestSpec.selected stored)).
Proof.
  intro H. unfold LatestSpec.selected.
  apply Permutation_NoDup
    with (l := map symbol (filter (LatestSpec.is_latest stored) stored)).
  - apply Permutation_map, Permutation_sym, sort_desc_perm.
  - apply NoDup_map_coarser
      with (f := fun r => (symbol r, timestamp r));
      [| apply latest_filter_distinct; exact H].
    intros a b Ha Hb Hs.
    apply filter_In in Ha. apply filter_In in Hb.
    destruct Ha as [Ha La], Hb as [Hb Lb].
    rewrite is_latest_iff in La, Lb.
    specialize (La b Hb (eq_sym Hs)). specialize (Lb a Ha Hs).
    f_equal; [exact Hs | lia].
Qed.

Lemma latest_example_selected (i : string) (T : Z) :
  LatestSpec.selected (LatestExample.stored i T)
  = [LatestExample.aapl_new i T; LatestExample.meta_new i T].
Proof.
  unfold LatestSpec.selected, LatestExample.stored, LatestSpec.is_latest.
  cbn [filter forallb symbol timestamp symbol_eqb negb orb andb
       LatestExample.aapl_old LatestExample.meta_old
       LatestExample.aapl_new LatestExample.meta_new].
  repeat (progress
            (unfold RangeExample.minutes; decide_order;
             cbn [filter forallb andb orb sort_desc insert_desc timestamp
                  LatestExample.aapl_old LatestExample.meta_old
                  LatestExample.aapl_new LatestExample.meta_new])).
  reflexivity.
Qed.

(** C4 (as amended) -- Latest-price aggregation.  When the database
    answers, [getLatestPrices(false)] returns, with the interval
    decoded, every stored tick whose timestamp is the maximum among the
    stored ticks of its symbol, whatever the intervals: each symbol in
    storage is reported, the ticks come newest first, and the store is
    left as it was.  A symbol is reported once when no two stored ticks
    share symbol and timestamp.  With AAPL and META ticks at T-60m and
    at T, the result is exactly the two ticks at T. *)
Theorem latest_prices_contract :
  (forall w : World,
      db_fault env (db_ops w) = false ->
      fst (GetLatestPrices.getLatestPrices env false w)
      = Ok (map LatestSpec.returned (LatestSpec.selected (rows w)))
      /\ rows (snd (GetLatestPrices.getLatestPrices env false w)) = rows w
      /\ (forall r,
             In r (LatestSpec.selected (rows w))
             <-> In r (rows w)
                 /\ forall r', In r' (rows w) -> symbol r' = symbol r ->
                               timestamp r' <= timestamp r)
      /\ (forall r, In r (rows w) ->
                    exists r', In r' (LatestSpec.selected (rows w))
                               /\ symbol r' = symbol r)
      /\ newest_first (LatestSpec.selected (rows w))
      /\ (NoDup (map (fun r => (symbol r, timestamp r)) (rows w)) ->
          NoDup (map symbol (LatestSpec.selected (rows w)))))
  /\ (forall (w : World) (i : string) (T : Z),
         rows w = LatestExample.stored i T ->
         db_fault env (db_ops w) = false ->
         fst (GetLatestPrices.getLatestPrices env false w)
         = Ok (map LatestSpec.returned
                   [LatestExample.aapl_new i T;
                    LatestExample.meta_new i T])).
Proof.
  split.
  - intros w Hf. rewrite (getLatestPrices_refines w Hf). cbn [fst snd].
    split; [reflexivity|]. split; [reflexivity|].
    split; [intro r; apply latest_selected_iff|].
    split; [intro r; apply latest_selected_complete|].
    split; [apply sort_desc_sorted | apply latest_selected_one_per_symbol].
  - intros w i T Hrows Hf. rewrite (getLatestPrices_refines w Hf).
    cbn [fst]. unfold LatestSpec.latestPrices.
    rewrite Hrows, latest_example_selected. reflexivity.
Qed.


End LatestPrices.

Lemma latest_prices_contract_witness :
  fst (GetLatestPrices.getLatestPrices
         (Sample.env Sample.never Sample.no_points) false
         (Sample.with_rows (LatestExample.stored "00:01:00" 1704103200000)))
  = Ok (map LatestSpec.returned
            [LatestExample.aapl_new "00:01:00" 1704103200000;
             LatestExample.meta_new "00:01:00" 1704103200000]).
Proof.
  exact (proj2 (@latest_prices_contract
                  (Sample.env Sample.never Sample.no_points))
               (Sample.with_rows
                  (LatestExample.stored "00:01:00" 1704103200000))
               "00:01:00" 1704103200000 eq_refl eq_refl).
Defined.

(** C4, as stated, fails: a symbol with two ticks at its latest
    timestamp, under two intervals, is reported twice.  The store has
    one row per natural key. *)
Lemma latest_prices_tie_counterexample :
  natural_key_unique LatestExample.tied
  /\ fst (GetLatestPrices.getLatestPrices
            (Sample.env Sample.never Sample.no_points) false
            (Sample.with_rows LatestExample.tied))
     = Ok (map LatestSpec.returned LatestExample.tied)
  /\ map symbol (map LatestSpec.returned LatestExample.tied) = [AAPL; AAPL].
Proof.
  split; [|split; reflexivity].
  unfold natural_key_unique, LatestExample.tied. simpl.
  constructor; [|constructor; [intros []|constructor]].
  intros [H|[]]. discriminate H.
Qed.

(* ================================================================== *)
(** * Inserting a natural key that is already stored *)

(** C6 -- Insert raises iff duplicate: not so in the code.  The index
    on (symbol, timestamp, interval) is declared with [index], not
    [uniqueIndex], under the comment "Unique constraint to prevent
    duplicate entries".  An insert of a stored natural key succeeds and
    leaves two rows of that key; with the index unique the same insert
    is refused.  The chart handler, which inserts without looking up and
    counts on the refusal, duplicates the rows it fetches again: here
    the stored tick lies outside the requested window, the provider
    returns it again, and the store ends with two rows of its key. *)
Theorem insert_accepts_duplicate_key :
  rows_with_key (stored_key DuplicateExample.env DuplicateExample.again)
                (rows DuplicateExample.store)
  = [DuplicateExample.existing]
  /\ (exists r w',
         Db.insert DuplicateExample.env DuplicateExample.again
                   DuplicateExample.store = (Ok [r], w')
         /\ rows w' = [DuplicateExample.existing; r]
         /\ natural_key r = natural_key DuplicateExample.existing
         /\ ~ natural_key_unique (rows w'))
  /\ fst (Db.insert_into DuplicateExample.env DuplicateExample.uniqueTable
                         DuplicateExample.again DuplicateExample.store)
     = Err (ConstraintViolation "stock_ticks_unique_idx")
  /\ (exists response w',
         GetChartData.getChartData DuplicateExample.env
                                   DuplicateExample.chartInput
                                   DuplicateExample.store
         = (Ok response, w')
         /\ List.length
              (rows_with_key
                 (stored_key DuplicateExample.env DuplicateExample.again)
                 (rows w')) = 2%nat
         /\ ~ natural_key_unique (rows w')).
Proof.
  split; [reflexivity|]. split; [|split; [reflexivity|]].
  - eexists; eexists. split; [reflexivity|]. split; [reflexivity|].
    split; [reflexivity|].
    unfold natural_key_unique. simpl. intro H.
    inversion H as [|? ? Hnotin _]; subst. apply Hnotin. left; reflexivity.
  - eexists; eexists. split; [reflexivity|]. split; [reflexivity|].
    unfold natural_key_unique. simpl. intro H.
    inversion H as [|? ? Hnotin _]; subst. apply Hnotin. left; reflexivity.
Qed.

(* ================================================================== *)
(** * Failures of the store *)

Lemma db_failures_app (a b : list Event) :
  db_failures (a ++ b) = (db_failures a + db_failures b)%nat.
Proof.
  induction a as [|e a IH]; simpl; [reflexivity|].
  destruct e as [| op [|]]; simpl; rewrite IH; reflexivity.
Qed.

Lemma selects_app (a b : list Event) :
  selects (a ++ b) = (selects a + selects b)%nat.
Proof.
  induction a as [|e a IH]; simpl; [reflexivity|].
  destruct e as [| [] ok]; simpl; rewrite IH; reflexivity.
Qed.

Lemma error_lines_app (a b : list LogLine) :
  error_lines (a ++ b) = (error_lines a + error_lines b)%nat.
Proof.
  induction a as [|e a IH]; simpl; [reflexivity|].
  destruct e; simpl; rewrite IH; reflexivity.
Qed.

Section Failures.
Variable env : Env.

Lemma clean_refl (w : World) : clean w w.
Proof. reflexivity. Qed.

Lemma clean_trans (w1 w2 w3 : World) :
  clean w1 w2 -> clean w2 w3 -> clean w1 w3.
Proof. unfold clean. congruence. Qed.

Lemma aborted_after_clean {A : Type} (r : Result A) (w1 w2 w3 : World) :
  clean w1 w2 -> aborted r w2 w3 -> aborted r w1 w3.
Proof.
  unfold clean, aborted. intros Hc [Hr [t [op [Ht Hf]]]].
  split; [exact Hr|]. exists t, op. split; [exact Ht | congruence].
Qed.

Lemma quiet_fail_fast {A : Type} (m : M A) : quiet m -> fail_fast m.
Proof. intros H w. left. apply H. Qed.

Lemma quiet_ret {A : Type} (a : A) : quiet (ret a).
Proof. intro w. apply clean_refl. Qed.

Lemma quiet_throw {A : Type} (e : Error) : quiet (@throw A e).
Proof. intro w. apply clean_refl. Qed.

Lemma quiet_console_log (msg : string) : quiet (console_log msg).
Proof. intro w. unfold clean. reflexivity. Qed.

Lemma quiet_console_error (msg : string) : quiet (console_error msg).
Proof. intro w. unfold clean. reflexivity. Qed.

Lemma quiet_request (s : StockSymbol) (i p : string) :
  quiet (Yahoo.request env s i p).
Proof.
  intro w. unfold Yahoo.request, clean.
  destruct (provider env s i p (provider_calls w)); simpl;
    rewrite db_failures_app; simpl; lia.
Qed.

Lemma quiet_bind {A B : Type} (m : M A) (k : A -> M B) :
  quiet m -> (forall a, quiet (k a)) -> quiet (bind m k).
Proof.
  intros Hm Hk w. unfold bind. specialize (Hm w).
  destruct (m w) as [[a|e] w1]; simpl in *; [|exact Hm].
  apply clean_trans with w1; [exact Hm | apply Hk].
Qed.

Lemma quiet_try {A : Type} (m : M A) (h : Error -> M A) :
  quiet m -> (forall e, quiet (h e)) -> quiet (try_catch m h).
Proof.
  intros Hm Hh w. unfold try_catch. specialize (Hm w).
  destruct (m w) as [[a|e] w1]; simpl in *; [exact Hm|].
  apply clean_trans with w1; [exact Hm | apply Hh].
Qed.

Lemma fail_fast_bind {A B : Type} (m : M A) (k : A -> M B) :
  fail_fast m -> (forall a, fail_fast (k a)) -> fail_fast (bind m k).
Proof.
  intros Hm Hk w. unfold bind. specialize (Hm w).
  destruct (m w) as [[a|e] w1]; simpl in *.
  - destruct Hm as [Hc | [Hr _]]; [|discriminate].
    destruct (Hk a w1) as [Hc' | Ha].
    + left. apply clean_trans with w1; assumption.
    + right. apply aborted_after_clean with w1; assumption.
  - destruct Hm as [Hc | Ha]; [left; exact Hc|].
    right. destruct Ha as [Hr Ht]. inversion Hr; subst.
    split; [reflexivity | exact Ht].
Qed.

(** [try { m } catch (error) { console.error(...); throw error; }]. *)
Lemma fail_fast_rethrow {A : Type} (m : M A) (msg : string) :
  fail_fast m ->
  fail_fast (try_catch m (fun error => console_error msg;;; throw error)).
Proof.
  intros Hm w. unfold try_catch. specialize (Hm w).
  destruct (m w) as [[a|e] w1]; simpl in *; exact Hm.
Qed.

Lemma fail_fast_select (c : Where) (o : bool) (l : option nat) :
  fail_fast (Db.select env c o l).
Proof.
  intro w. unfold Db.select, Db.statement, clean, aborted.
  destruct (db_fault env (db_ops w)); simpl.
  - right. split; [reflexivity|]. eexists; eexists.
    split; reflexivity.
  - left. rewrite db_failures_app. simpl. lia.
Qed.

Lemma fail_fast_update (v : OHLCV) (c : Where) :
  fail_fast (Db.update env v c).
Proof.
  intro w. unfold Db.update, Db.statement, clean, aborted.
  destruct (db_fault env (db_ops w)); simpl.
  - right. split; [reflexivity|]. eexists; eexists.
    split; reflexivity.
  - left. rewrite db_failures_app. simpl. lia.
Qed.

Lemma fail_fast_insert (v : NewStockTick) : fail_fast (Db.insert env v).
Proof.
  intro w. unfold Db.insert, Db.insert_into, Db.statement, clean, aborted.
  destruct (db_fault env (db_ops w)); simpl.
  - right. split; [reflexivity|]. eexists; eexists.
    split; reflexivity.
  - left. rewrite db_failures_app. simpl. lia.
Qed.

Lemma fail_fast_latest_join : fail_fast (Db.latest_join env).
Proof.
  intro w. unfold Db.latest_join, Db.statement, clean, aborted.
  destruct (db_fault env (db_ops w)); simpl.
  - right. split; [reflexivity|]. eexists; eexists.
    split; reflexivity.
  - left. rewrite db_failures_app. simpl. lia.
Qed.

Lemma fail_fast_fetch_upsertTick (tick : NewStockTick) :
  fail_fast (FetchStockData.upsertTick env tick).
Proof.
  unfold FetchStockData.upsertTick.
  apply fail_fast_bind; [apply fail_fast_select | intros [|e0 rest]].
  - apply fail_fast_bind; [apply fail_fast_insert | intros [|sv ?]];
      apply quiet_fail_fast; [apply quiet_throw | apply quiet_ret].
  - apply fail_fast_bind; [apply fail_fast_update | intros [|sv ?]];
      apply quiet_fail_fast; [apply quiet_throw | apply quiet_ret].
Qed.

Lemma fail_fast_fetch_upsertLoop (ticks : list NewStockTick) :
  forall acc, fail_fast (FetchStockData.upsertLoop env ticks acc).
Proof.
  induction ticks as [|tick rest IH]; intro acc; simpl.
  - apply quiet_fail_fast, quiet_ret.
  - apply fail_fast_bind; [apply fail_fast_fetch_upsertTick | intro; apply IH].
Qed.

Lemma fail_fast_fetchStockData (input : FetchStockDataInput) :
  fail_fast (FetchStockData.fetchStockData env input).
Proof.
  unfold FetchStockData.fetchStockData. apply fail_fast_rethrow.
  apply fail_fast_bind;
    [apply quiet_fail_fast, quiet_console_log | intros _].
  apply fail_fast_bind;
    [apply quiet_fail_fast, quiet_request | intros [|y ys]].
  - apply quiet_fail_fast, quiet_ret.
  - apply fail_fast_bind; [apply fail_fast_fetch_upsertLoop | intro].
    apply quiet_fail_fast, quiet_bind;
      [apply quiet_console_log | intro; apply quiet_ret].
Qed.

Lemma fail_fast_getHistoricalData (input : GetHistoricalDataInput) :
  fail_fast (GetHistoricalData.getHistoricalData env input).
Proof.
  unfold GetHistoricalData.getHistoricalData. apply fail_fast_rethrow.
  apply fail_fast_bind; [apply fail_fast_select | intro].
  apply quiet_fail_fast, quiet_ret.
Qed.

Lemma fail_fast_latest_upsertTick (tick : GetLatestPrices.Tick) :
  fail_fast (GetLatestPrices.upsertTick env tick).
Proof.
  unfold GetLatestPrices.upsertTick. apply fail_fast_rethrow.
  apply fail_fast_bind; [apply fail_fast_select | intros existing].
  apply fail_fast_bind.
  - destruct existing as [|e0 rest].
    + apply fail_fast_bind; [apply fail_fast_insert | intro].
      apply quiet_fail_fast, quiet_ret.
    + apply fail_fast_bind; [apply fail_fast_update | intro].
      apply quiet_fail_fast, quiet_ret.
  - intros [r|]; apply quiet_fail_fast; [apply quiet_ret | apply quiet_throw].
Qed.

Lemma fail_fast_latest_upsertLoop (ticks : list GetLatestPrices.Tick) :
  forall acc, fail_fast (GetLatestPrices.upsertLoop env ticks acc).
Proof.
  induction ticks as [|tick rest IH]; intro acc; simpl.
  - apply quiet_fail_fast, quiet_ret.
  - apply fail_fast_bind;
      [apply fail_fast_latest_upsertTick | intro; apply IH].
Qed.

Lemma quiet_fetchLoop (symbols : list StockSymbol) :
  forall acc, quiet (GetLatestPrices.fetchLoop env symbols acc).
Proof.
  induction symbols as [|s rest IH]; intro acc; simpl.
  - apply quiet_ret.
  - apply quiet_bind; [| intro; apply IH].
    apply quiet_try.
    + apply quiet_bind; [apply quiet_request | intro; apply quiet_ret].
    + intro e. apply quiet_bind;
        [apply quiet_console_error | intro; apply quiet_ret].
Qed.

Lemma fail_fast_getLatestPrices (fetchFresh : bool) :
  fail_fast (GetLatestPrices.getLatestPrices env fetchFresh).
Proof.
  unfold GetLatestPrices.getLatestPrices. apply fail_fast_rethrow.
  apply fail_fast_bind.
  - destruct fetchFresh; [| apply quiet_fail_fast, quiet_ret].
    unfold GetLatestPrices.refresh.
    apply fail_fast_bind;
      [apply quiet_fail_fast, quiet_fetchLoop | intros [|t ts]].
    + apply quiet_fail_fast, quiet_ret.
    + apply fail_fast_bind; [| intro; apply quiet_fail_fast, quiet_ret].
      unfold GetLatestPrices.upsertStockTicks.
      apply fail_fast_latest_upsertLoop.
  - intros _. apply fail_fast_bind; [apply fail_fast_latest_join | intro].
    apply quiet_fail_fast, quiet_ret.
Qed.

(** ** The batch handler swallows the failure of a point *)

Ltac count_events :=
  simpl; rewrite ?selects_app, ?error_lines_app; simpl; lia.

Lemma stored_points_length (fault : nat -> bool) (k : nat) :
  forall n, List.length (stored_points fault n k) = k.
Proof.
  induction k as [|k IH]; intro n; cbn [stored_points]; [reflexivity|].
  destruct (fault n); cbn [List.length]; rewrite IH; reflexivity.
Qed.

Lemma stored_points_app (fault : nat -> bool) (k1 k2 : nat) :
  forall n,
    stored_points fault n (k1 + k2)
    = stored_points fault n k1
      ++ stored_points fault (after_points fault n k1) k2.
Proof.
  induction k1 as [|k1 IH]; intro n;
    cbn [Nat.add stored_points after_points app]; [reflexivity|].
  destruct (fault n); rewrite IH; reflexivity.
Qed.

Lemma after_points_app (fault : nat -> bool) (k1 k2 : nat) :
  forall n,
    after_points fault n (k1 + k2)
    = after_points fault (after_points fault n k1) k2.
Proof.
  induction k1 as [|k1 IH]; intro n;
    cbn [Nat.add after_points]; [reflexivity|].
  destruct (fault n); rewrite IH; reflexivity.
Qed.

Lemma kept_app {A : Type} (m1 m2 : list bool) (l1 l2 : list A) :
  List.length m1 = List.length l1 ->
  kept (m1 ++ m2) (l1 ++ l2) = kept m1 l1 ++ kept m2 l2.
Proof.
  revert l1. induction m1 as [|m m1 IH]; intros [|a l1] H;
    try discriminate; [reflexivity|].
  cbn [app kept]. inversion H as [H']. rewrite (IH l1 H').
  destruct m; reflexivity.
Qed.

Lemma skipped_app (m1 m2 : list bool) :
  skipped (m1 ++ m2) = (skipped m1 + skipped m2)%nat.
Proof. unfold skipped. rewrite filter_app, length_app. reflexivity. Qed.

(** The points of two runs, one after the other. *)
Lemma kept_points_app (vs1 vs2 : list NewStockTick) (n : nat) :
  kept (stored_points (db_fault env) n (List.length (vs1 ++ vs2)))
       (vs1 ++ vs2)
  = kept (stored_points (db_fault env) n (List.length vs1)) vs1
    ++ kept (stored_points (db_fault env)
               (after_points (db_fault env) n (List.length vs1))
               (List.length vs2)) vs2.
Proof.
  rewrite length_app, stored_points_app.
  apply kept_app. apply stored_points_length.
Qed.

Lemma skipped_points_app (k1 k2 n : nat) :
  skipped (stored_points (db_fault env) n (k1 + k2))
  = (skipped (stored_points (db_fault env) n k1)
     + skipped (stored_points (db_fault env)
                  (after_points (db_fault env) n k1) k2))%nat.
Proof. rewrite stored_points_app. apply skipped_app. Qed.

Lemma batch_outcome_app (vs1 vs2 : list NewStockTick) (w w1 w2 : World) :
  batch_outcome env vs1 w w1 -> batch_outcome env vs2 w1 w2 ->
  batch_outcome env (vs1 ++ vs2) w w2.
Proof.
  unfold batch_outcome.
  intros [Hops1 [Hsel1 [Hst1 [Hk1 Hlen1]]]] [Hops2 [Hsel2 [Hst2 [Hk2 Hlen2]]]].
  rewrite Hops1 in Hops2, Hst2, Hlen2.
  rewrite kept_points_app.
  rewrite length_app, after_points_app, skipped_points_app.
  split; [exact Hops2|].
  split; [lia|].
  split.
  { intros v Hv. apply in_app_or in Hv. destruct Hv as [Hv|Hv].
    - apply Hk2. exact (Hst1 v Hv).
    - exact (Hst2 v Hv). }
  split; [intros k Hk; apply Hk2; apply Hk1; exact Hk | lia].
Qed.

(** One round of the loop of [fetchStockDataForSymbol].  It always
    returns.  When neither its lookup nor its update or insert fails
    it pushes the tick of the point, and the point has its row; when
    one fails it pushes nothing, writes one line on [console.error] and
    leaves the table as it was. *)
Lemma batch_upsertTick_outcome (tick : NewStockTick) (w : World) :
  exists pushed w',
    BatchFetchStocks.upsertTick env tick w = (Ok pushed, w')
    /\ map tick_content pushed
       = map (batch_content env)
             (kept (stored_points (db_fault env) (db_ops w) 1) [tick])
    /\ error_lines (console w')
       = (error_lines (console w)
          + skipped (stored_points (db_fault env) (db_ops w) 1))%nat
    /\ provider_calls w' = provider_calls w
    /\ batch_outcome env [tick] w w'.
Proof.
  unfold batch_outcome, skipped.
  cbn [List.length stored_points after_points kept].
  unfold BatchFetchStocks.upsertTick, try_catch.
  unfold bind at 1. unfold Db.select, Db.statement.
  destruct (db_fault env (db_ops w)) eqn:Hf0.
  - eexists; eexists. split; [reflexivity|].
    split; [reflexivity|]. split; [count_events|].
    split; [reflexivity|]. split; [reflexivity|].
    split; [count_events|].
    split; [intros v []|]. split; [intros k Hk; exact Hk|].
    cbn. lia.
  - cbv beta iota. unfold Db.apply_limit, Db.apply_order.
    destruct (filter (Db.eval_where env
                        (BatchFetchStocks.natural_key_where tick)) (rows w))
      as [|existing0 more] eqn:Hex.
    + unfold bind, Db.insert, Db.insert_into, Db.statement.
      world.
      destruct (db_fault env (S (db_ops w))) eqn:Hf1; cbn [negb].
      * eexists; eexists. split; [reflexivity|].
        split; [reflexivity|]. split; [count_events|].
        split; [reflexivity|]. split; [reflexivity|].
        split; [count_events|].
        split; [intros v []|]. split; [intros k Hk; exact Hk|].
        cbn. lia.
      * rewrite stockTicksTable_accepts.
        eexists; eexists. split; [reflexivity|].
        split; [reflexivity|]. split; [count_events|].
        split; [reflexivity|]. split; [reflexivity|].
        split; [count_events|].
        cbn [snd]. world.
        split.
        { intros v [<-|[]]. rewrite map_app. apply in_or_app.
          right. left. reflexivity. }
        split.
        { intros k Hk. rewrite map_app. apply in_or_app. left. exact Hk. }
        rewrite length_app. cbn. lia.
    + assert (Hk0 : natural_key existing0 = stored_key env tick).
      { assert (Hin : In existing0
                         (filter (Db.eval_where env
                                    (BatchFetchStocks.natural_key_where tick))
                                 (rows w)))
          by (rewrite Hex; left; reflexivity).
        apply filter_In in Hin. destruct Hin as [_ Hev].
        unfold BatchFetchStocks.natural_key_where in Hev.
        rewrite eval_key_where in Hev. apply key_eqb_eq in Hev.
        exact Hev. }
      assert (Hin0 : In existing0 (rows w)).
      { assert (Hin : In existing0
                         (filter (Db.eval_where env
                                    (BatchFetchStocks.natural_key_where tick))
                                 (rows w)))
          by (rewrite Hex; left; reflexivity).
        apply filter_In in Hin. tauto. }
      unfold bind, Db.update, Db.statement.
      world.
      destruct (db_fault env (S (db_ops w))) eqn:Hf1; cbn [negb].
      * eexists; eexists. split; [reflexivity|].
        split; [reflexivity|]. split; [count_events|].
        split; [reflexivity|]. split; [reflexivity|].
        split; [count_events|].
        split; [intros v []|]. split; [intros k Hk; exact Hk|].
        cbn. lia.
      * world. rewrite Hex.
        eexists; eexists. split; [reflexivity|].
        split.
        { cbn [map hd_error kept]. unfold tick_content, batch_content.
          cbn [set_interval set_ohlcv symbol timestamp ohlcv interval].
          unfold natural_key, stored_key in Hk0.
          injection Hk0 as Hs Ht Hi. rewrite Hs, Ht, Hi. reflexivity. }
        split; [count_events|].
        split; [reflexivity|]. split; [reflexivity|].
        split; [count_events|].
        cbn [snd]. world.
        split.
        { intros v [<-|[]]. rewrite map_key_update, <- Hk0.
          apply in_map. exact Hin0. }
        split; [intros k Hk; rewrite map_key_update; exact Hk|].
        rewrite length_map. cbn. lia.
Qed.

Lemma batch_upsertLoop_outcome (ticks : list NewStockTick) :
  forall (acc : list StockTick) (w : World),
  exists res w',
    BatchFetchStocks.upsertLoop env ticks acc w = (Ok res, w')
    /\ map tick_content res
       = map tick_content acc
         ++ map (batch_content env)
                (kept (stored_points (db_fault env) (db_ops w)
                                     (List.length ticks)) ticks)
    /\ error_lines (console w')
       = (error_lines (console w)
          + skipped (stored_points (db_fault env) (db_ops w)
                                   (List.length ticks)))%nat
    /\ provider_calls w' = provider_calls w
    /\ batch_outcome env ticks w w'.
Proof.
  induction ticks as [|tick rest IH]; intros acc w.
  - exists acc, w. cbn [BatchFetchStocks.upsertLoop ret].
    split; [reflexivity|].
    split; [cbn; rewrite app_nil_r; reflexivity|].
    split; [cbn; lia|]. split; [reflexivity|].
    unfold batch_outcome. cbn.
    split; [reflexivity|]. split; [lia|].
    split; [intros v []|]. split; [intros k Hk; exact Hk | lia].
  - destruct (batch_upsertTick_outcome tick w)
      as [pushed [w1 [E1 [Hc1 [He1 [Hp1 Ho1]]]]]].
    destruct (IH (acc ++ pushed) w1)
      as [res [w2 [E2 [Hc2 [He2 [Hp2 Ho2]]]]]].
    exists res, w2. cbn [BatchFetchStocks.upsertLoop]. unfold bind.
    rewrite E1, E2.
    pose proof (proj1 Ho1) as Hops1. cbn [List.length] in Hops1.
    rewrite Hops1 in Hc2, He2.
    split; [reflexivity|].
    split.
    { rewrite Hc2, map_app, Hc1, <- app_assoc, <- map_app.
      change (tick :: rest) with ([tick] ++ rest).
      rewrite kept_points_app. reflexivity. }
    split.
    { change (List.length (tick :: rest))
        with (1 + List.length rest)%nat.
      rewrite skipped_points_app. lia. }
    split; [congruence|].
    exact (batch_outcome_app Ho1 Ho2).
Qed.

(** [fetchStockDataForSymbol] for the points the provider returns, or
    for none when it rejects the request. *)
Lemma fetchStockDataForSymbol_outcome (s : StockSymbol) (i p : string)
    (w : World) :
  exists w',
    match provider env s i p (provider_calls w) with
    | Some points =>
        exists ticks,
          BatchFetchStocks.fetchStockDataForSymbol env s i p w
          = (Ok ticks, w')
          /\ map tick_content ticks
             = map (batch_content env)
                   (kept (stored_points (db_fault env) (db_ops w)
                                        (List.length points))
                         (BatchFetchStocks.stockTicks s i points))
          /\ error_lines (console w')
             = (error_lines (console w)
                + skipped (stored_points (db_fault env) (db_ops w)
                                         (List.length points)))%nat
    | None =>
        BatchFetchStocks.fetchStockDataForSymbol env s i p w
        = (Err ProviderError, w')
        /\ error_lines (console w') = error_lines (console w)
    end
    /\ provider_calls w' = S (provider_calls w)
    /\ batch_outcome env
         (match provider env s i p (provider_calls w) with
          | Some points => BatchFetchStocks.stockTicks s i points
          | None => []
          end) w w'.
Proof.
  destruct (provider env s i p (provider_calls w)) as [points|] eqn:Hp;
    unfold BatchFetchStocks.fetchStockDataForSymbol,
      BatchFetchStocks.simulateYahooFinanceAPI;
    unfold bind at 1; cbn [console_log]; unfold bind at 1;
    unfold Yahoo.request; cbn [provider_calls]; rewrite Hp.
  - destruct points as [|y ys].
    + eexists. split.
      { exists []. split; [reflexivity|]. split; [reflexivity|].
        unfold skipped. count_events. }
      split; [reflexivity|].
      unfold batch_outcome. cbn.
      split; [reflexivity|]. split; [count_events|].
      split; [intros v []|]. split; [intros k Hk; exact Hk | lia].
    + unfold bind at 1.
      match goal with
      | |- context [BatchFetchStocks.upsertLoop env ?ts ?acc ?w1] =>
          destruct (batch_upsertLoop_outcome ts acc w1)
            as [res [w2 [E [Hc [He [Hpc Ho]]]]]]
      end.
      rewrite E.
      unfold batch_outcome in Ho.
      unfold BatchFetchStocks.stockTicks in Hc, He, Ho.
      rewrite length_map in Hc, He, Ho.
      cbn [db_ops trace console rows provider_calls record_event
           count_provider_call] in Hc, He, Ho, Hpc.
      rewrite selects_app in Ho. rewrite error_lines_app in He.
      cbn [selects error_lines] in Ho, He.
      destruct Ho as [Hops [Hsel [Hst [Hk Hlen]]]].
      eexists. split.
      { exists res. split; [reflexivity|].
        split; [exact Hc|]. cbn [snd console].
        rewrite error_lines_app. cbn [error_lines]. lia. }
      split; [exact Hpc|].
      unfold batch_outcome, BatchFetchStocks.stockTicks.
      rewrite length_map. cbn [snd db_ops trace rows].
      split; [exact Hops|]. split; [lia|].
      split; [exact Hst|]. split; [exact Hk | exact Hlen].
  - eexists. split; [split; [reflexivity | count_events]|].
    split; [reflexivity|].
    unfold batch_outcome. cbn.
    split; [reflexivity|]. split; [count_events|].
    split; [intros v []|]. split; [intros k Hk; exact Hk | lia].
Qed.

(** ** The loops that rethrow *)

(** A round of [upsertStockTicks] of get_latest_prices.ts whose lookup
    fails, and one whose update or insert fails: the failure is logged
    and thrown. *)
Lemma latest_upsertTick_lookup_fails (tick : GetLatestPrices.Tick)
    (w : World) :
  db_fault env (db_ops w) = true ->
  exists w',
    GetLatestPrices.upsertTick env tick w = (Err StoreError, w')
    /\ db_ops w' = S (db_ops w)
    /\ error_lines (console w') = S (error_lines (console w))
    /\ ends_on_failure w'.
Proof.
  intro Hf. unfold GetLatestPrices.upsertTick, try_catch.
  unfold bind at 1. unfold Db.select, Db.statement. rewrite Hf.
  eexists. split; [reflexivity|]. split; [reflexivity|].
  split; [count_events|]. eexists; eexists; reflexivity.
Qed.

Lemma latest_upsertTick_write_fails (tick : GetLatestPrices.Tick)
    (w : World) :
  db_fault env (db_ops w) = false ->
  db_fault env (S (db_ops w)) = true ->
  exists w',
    GetLatestPrices.upsertTick env tick w = (Err StoreError, w')
    /\ db_ops w' = S (S (db_ops w))
    /\ error_lines (console w') = S (error_lines (console w))
    /\ ends_on_failure w'.
Proof.
  intros Hf0 Hf1. unfold GetLatestPrices.upsertTick, try_catch.
  unfold bind at 1. unfold Db.select at 1, Db.statement at 1.
  rewrite Hf0. cbv beta iota.
  destruct (Db.apply_limit _ _) as [|existing0 tl];
    unfold bind, Db.insert, Db.insert_into, Db.update, Db.statement;
    world; rewrite Hf1;
    (eexists; split; [reflexivity|]; split; [reflexivity|];
     split; [count_events|]; eexists; eexists; reflexivity).
Qed.

(** A round that returns has written nothing on the console. *)
Lemma latest_upsertTick_silent (tick : GetLatestPrices.Tick) (w : World)
    (saved : StockTick) (w' : World) :
  GetLatestPrices.upsertTick env tick w = (Ok saved, w') ->
  console w' = console w.
Proof.
  unfold GetLatestPrices.upsertTick, try_catch.
  unfold bind at 1. unfold Db.select at 1, Db.statement at 1.
  destruct (db_fault env (db_ops w)); [intro H; discriminate H|].
  cbv beta iota.
  destruct (Db.apply_limit _ _) as [|existing0 tl].
  - unfold bind, Db.insert, Db.insert_into, Db.statement.
    world. destruct (db_fault env (S (db_ops w)));
      [intro H; discriminate H|].
    rewrite stockTicksTable_accepts.
    intro H. inversion H. reflexivity.
  - unfold bind, Db.update, Db.statement.
    world. destruct (db_fault env (S (db_ops w)));
      [intro H; discriminate H|].
    cbn [ret]. destruct (map _ _) as [|u us];
      intro H; [discriminate H | inversion H; reflexivity].
Qed.

(** The loop of [upsertStockTicks] stops on the first statement that
    fails. *)
Lemma latest_upsertLoop_stops (ticks : list GetLatestPrices.Tick) :
  forall (acc : list StockTick) (w : World) (m : nat),
    first_fault env (db_ops w) (2 * List.length ticks) m ->
    exists w',
      GetLatestPrices.upsertLoop env ticks acc w = (Err StoreError, w')
      /\ db_ops w' = S m
      /\ error_lines (console w') = S (error_lines (console w))
      /\ ends_on_failure w'.
Proof.
  induction ticks as [|tick rest IH]; intros acc w m [Hm [Hf Hbefore]];
    [cbn [List.length] in Hm; lia|].
  cbn [GetLatestPrices.upsertLoop]. unfold bind.
  destruct (Nat.eq_dec m (db_ops w)) as [->|Hm0].
  { destruct (latest_upsertTick_lookup_fails tick w Hf)
      as [w' [E [Hops [He Ht]]]].
    rewrite E. exists w'. repeat split; assumption. }
  assert (Hf0 : db_fault env (db_ops w) = false)
    by (apply Hbefore; lia).
  destruct (Nat.eq_dec m (S (db_ops w))) as [->|Hm1].
  { destruct (latest_upsertTick_write_fails tick w Hf0 Hf)
      as [w' [E [Hops [He Ht]]]].
    rewrite E. exists w'. repeat split; assumption. }
  assert (Hf1 : db_fault env (S (db_ops w)) = false)
    by (apply Hbefore; lia).
  destruct (@latest_upsertTick_ok env tick w Hf0 Hf1)
    as [saved [w1 [E [_ Hops]]]].
  pose proof (@latest_upsertTick_silent tick w saved w1 E) as Hsilent.
  rewrite E.
  destruct (IH (acc ++ [saved]) w1 m) as [w' [E' [Hops' [He' Ht']]]].
  { rewrite Hops. cbn [List.length] in Hm.
    split; [lia|]. split; [exact Hf|].
    intros j Hj. apply Hbefore. lia. }
  rewrite E'. exists w'. rewrite Hsilent in He'.
  repeat split; assumption.
Qed.

(** The same for the loop of fetch_stock_data.ts, which has no [catch]
    of its own: the failure goes to the [catch] of the handler. *)
Lemma fetch_upsertTick_lookup_fails (tick : NewStockTick) (w : World) :
  db_fault env (db_ops w) = true ->
  exists w',
    FetchStockData.upsertTick env tick w = (Err StoreError, w')
    /\ db_ops w' = S (db_ops w)
    /\ console w' = console w
    /\ ends_on_failure w'.
Proof.
  intro Hf. unfold FetchStockData.upsertTick.
  unfold bind at 1. unfold Db.select, Db.statement. rewrite Hf.
  eexists. split; [reflexivity|]. split; [reflexivity|].
  split; [reflexivity|]. eexists; eexists; reflexivity.
Qed.

Lemma fetch_upsertTick_write_fails (tick : NewStockTick) (w : World) :
  db_fault env (db_ops w) = false ->
  db_fault env (S (db_ops w)) = true ->
  exists w',
    FetchStockData.upsertTick env tick w = (Err StoreError, w')
    /\ db_ops w' = S (S (db_ops w))
    /\ console w' = console w
    /\ ends_on_failure w'.
Proof.
  intros Hf0 Hf1. unfold FetchStockData.upsertTick.
  unfold bind at 1. unfold Db.select at 1, Db.statement at 1.
  rewrite Hf0. cbv beta iota.
  destruct (Db.apply_limit _ _) as [|existing0 tl];
    unfold bind, Db.insert, Db.insert_into, Db.update, Db.statement;
    world; rewrite Hf1;
    (eexists; split; [reflexivity|]; split; [reflexivity|];
     split; [reflexivity|]; eexists; eexists; reflexivity).
Qed.

Lemma fetch_upsertTick_silent (tick : NewStockTick) (w : World)
    (saved : StockTick) (w' : World) :
  FetchStockData.upsertTick env tick w = (Ok saved, w') ->
  console w' = console w.
Proof.
  unfold FetchStockData.upsertTick.
  unfold bind at 1. unfold Db.select at 1, Db.statement at 1.
  destruct (db_fault env (db_ops w)); [intro H; discriminate H|].
  cbv beta iota.
  destruct (Db.apply_limit _ _) as [|existing0 tl].
  - unfold bind, Db.insert, Db.insert_into, Db.statement.
    world. destruct (db_fault env (S (db_ops w)));
      [intro H; discriminate H|].
    rewrite stockTicksTable_accepts.
    intro H. inversion H. reflexivity.
  - unfold bind, Db.update, Db.statement.
    world. destruct (db_fault env (S (db_ops w)));
      [intro H; discriminate H|].
    cbn [ret]. destruct (map _ _) as [|u us];
      intro H; [discriminate H | inversion H; reflexivity].
Qed.

Lemma fetch_upsertLoop_stops (ticks : list NewStockTick) :
  forall (acc : list StockTick) (w : World) (m : nat),
    first_fault env (db_ops w) (2 * List.length ticks) m ->
    exists w',
      FetchStockData.upsertLoop env ticks acc w = (Err StoreError, w')
      /\ db_ops w' = S m
      /\ console w' = console w
      /\ ends_on_failure w'.
Proof.
  induction ticks as [|tick rest IH]; intros acc w m [Hm [Hf Hbefore]];
    [cbn [List.length] in Hm; lia|].
  cbn [FetchStockData.upsertLoop]. unfold bind.
  destruct (Nat.eq_dec m (db_ops w)) as [->|Hm0].
  { destruct (fetch_upsertTick_lookup_fails tick w Hf)
      as [w' [E [Hops [He Ht]]]].
    rewrite E. exists w'. repeat split; assumption. }
  assert (Hf0 : db_fault env (db_ops w) = false)
    by (apply Hbefore; lia).
  destruct (Nat.eq_dec m (S (db_ops w))) as [->|Hm1].
  { destruct (fetch_upsertTick_write_fails tick w Hf0 Hf)
      as [w' [E [Hops [He Ht]]]].
    rewrite E. exists w'. repeat split; assumption. }
  assert (Hf1 : db_fault env (S (db_ops w)) = false)
    by (apply Hbefore; lia).
  destruct (@fetch_upsertTick_ok env tick w Hf0 Hf1)
    as [saved [w1 [E [_ Hops]]]].
  pose proof (@fetch_upsertTick_silent tick w saved w1 E) as Hsilent.
  rewrite E.
  destruct (IH (acc ++ [saved]) w1 m) as [w' [E' [Hops' [He' Ht']]]].
  { rewrite Hops. cbn [List.length] in Hm.
    split; [lia|]. split; [exact Hf|].
    intros j Hj. apply Hbefore. lia. }
  rewrite E'. exists w'. rewrite Hsilent in He'.
  repeat split; assumption.
Qed.

Lemma fetchStockData_stops (input : FetchStockDataInput) (w : World)
    (points : list YahooFinanceData) (m : nat) :
  provider env (fetch_symbol input) (interval_str (fetch_interval input))
           (fetch_period input) (provider_calls w) = Some points ->
  first_fault env (db_ops w) (2 * List.length points) m ->
  exists w',
    FetchStockData.fetchStockData env input w = (Err StoreError, w')
    /\ db_ops w' = S m
    /\ error_lines (console w') = S (error_lines (console w))
    /\ ends_on_failure w'.
Proof.
  intros Hp Hm.
  unfold FetchStockData.fetchStockData, try_catch,
    FetchStockData.fetchFromYahooFinance.
  unfold bind at 1. cbn [console_log]. unfold bind at 1.
  unfold Yahoo.request. cbn [provider_calls]. rewrite Hp.
  destruct points as [|y ys];
    [destruct Hm as [Hm _]; cbn [List.length] in Hm; lia|].
  unfold bind at 1.
  match goal with
  | |- context [FetchStockData.upsertLoop env ?ts ?acc ?w1] =>
      destruct (@fetch_upsertLoop_stops ts acc w1 m)
        as [w' [E [Hops [He Ht]]]]
  end.
  { unfold FetchStockData.ticksToUpsert. rewrite length_map. exact Hm. }
  rewrite E. unfold bind. cbn [console_error throw].
  eexists. split; [reflexivity|].
  split; [exact Hops|].
  split.
  { cbn [console]. rewrite error_lines_app, He.
    world. rewrite error_lines_app. cbn [error_lines]. lia. }
  exact Ht.
Qed.



(** ** Where a store failure ends up *)

(** The handlers whose [catch] logs and goes on always return. *)
Lemma symbolLoop_returns (input : BatchFetchInput)
    (symbols : list StockSymbol) :
  forall (acc : list StockTick) (errors : list StockSymbol) (w : World),
  exists done w',
    BatchFetchStocks.symbolLoop env input symbols acc errors w
    = (Ok done, w').
Proof.
  induction symbols as [|s rest IH]; intros acc errors w.
  - eexists; eexists; reflexivity.
  - simpl. unfold bind at 1. unfold try_catch.
    match goal with
    | |- context [match ?m w with _ => _ end] => destruct (m w) as [[a|e] w1]
    end.
    + apply IH.
    + unfold bind at 1. cbn [console_error ret]. apply IH.
Qed.

Lemma batchFetchStocks_returns (input : BatchFetchInput) (w : World) :
  exists ticks w',
    BatchFetchStocks.batchFetchStocks env input w = (Ok ticks, w').
Proof.
  unfold BatchFetchStocks.batchFetchStocks, try_catch.
  unfold bind at 1. cbn [console_log]. unfold bind at 1.
  match goal with
  | |- context [BatchFetchStocks.symbolLoop env input ?ss ?a ?e ?w1] =>
      destruct (symbolLoop_returns input ss a e w1) as [[ticks errs] [w2 E]]
  end.
  rewrite E. destruct errs; eexists; eexists; reflexivity.
Qed.

Lemma stockTicks_length (s : StockSymbol) (i : string)
    (points : list YahooFinanceData) :
  List.length (BatchFetchStocks.stockTicks s i points) = List.length points.
Proof. unfold BatchFetchStocks.stockTicks. apply length_map. Qed.

(** [batch_outcome] reads the statement counter, the trace and the
    table only. *)
Lemma batch_outcome_same (vs : list NewStockTick) (w0 w w1 w1' : World) :
  db_ops w0 = db_ops w -> selects (trace w0) = selects (trace w) ->
  rows w0 = rows w ->
  db_ops w1' = db_ops w1 -> selects (trace w1') = selects (trace w1) ->
  rows w1' = rows w1 ->
  batch_outcome env vs w0 w1 -> batch_outcome env vs w w1'.
Proof.
  unfold batch_outcome. intros H1 H2 H3 H4 H5 H6.
  rewrite H1, H2, H3, H4, H5, H6. exact (fun H => H).
Qed.

Lemma batch_outcome_nil (w w' : World) :
  db_ops w' = db_ops w -> selects (trace w') = selects (trace w) ->
  rows w' = rows w -> batch_outcome env [] w w'.
Proof.
  unfold batch_outcome. intros H1 H2 H3. rewrite H1, H2, H3. cbn.
  split; [reflexivity|]. split; [lia|].
  split; [intros v []|]. split; [intros k Hk; exact Hk | lia].
Qed.

(** The loop over the symbols of a batch: the ticks it gathers are
    those of the points that were stored, over all the symbols the
    provider answered for. *)
Lemma symbolLoop_outcome (input : BatchFetchInput)
    (symbols : list StockSymbol) :
  forall (acc : list StockTick) (errors : list StockSymbol) (w : World),
  exists done w',
    BatchFetchStocks.symbolLoop env input symbols acc errors w
    = (Ok done, w')
    /\ map tick_content (fst done)
       = map tick_content acc
         ++ map (batch_content env)
              (kept (stored_points (db_fault env) (db_ops w)
                       (List.length
                          (batch_points env
                             (interval_str (batch_interval input))
                             (batch_period input) symbols
                             (provider_calls w))))
                    (batch_points env
                       (interval_str (batch_interval input))
                       (batch_period input) symbols (provider_calls w)))
    /\ batch_outcome env
         (batch_points env (interval_str (batch_interval input))
                       (batch_period input) symbols (provider_calls w))
         w w'.
Proof.
  induction symbols as [|s rest IH]; intros acc errors w.
  - exists (acc, errors), w.
    cbn [BatchFetchStocks.symbolLoop ret batch_points List.length
         stored_points kept map fst].
    split; [reflexivity|]. split; [rewrite app_nil_r; reflexivity|].
    apply batch_outcome_nil; reflexivity.
  - cbn [BatchFetchStocks.symbolLoop batch_points].
    unfold bind at 1. unfold try_catch.
    unfold bind at 1. cbn [console_log]. unfold bind at 1.
    match goal with
    | |- context [BatchFetchStocks.fetchStockDataForSymbol env s ?i ?p ?w0] =>
        destruct (fetchStockDataForSymbol_outcome s i p w0)
          as [w1 [Hrun [Hcalls Hout]]]
    end.
    cbn [provider_calls] in Hrun, Hcalls, Hout.
    destruct (provider env s (interval_str (batch_interval input))
                       (batch_period input) (provider_calls w))
      as [points|].
    + destruct Hrun as [ticks [Hrun [Hcontent _]]].
      rewrite Hrun. unfold bind. cbn [console_log ret fst snd].
      match goal with
      | |- context [BatchFetchStocks.symbolLoop env input rest ?a ?e ?w2] =>
          destruct (IH a e w2) as [done [w' [E [Hc Ho]]]]
      end.
      cbn [provider_calls db_ops] in Hc, Ho. rewrite Hcalls in Hc, Ho.
      exists done, w'. split; [exact E|].
      pose proof (proj1 Hout) as Hops1. cbn [db_ops] in Hops1.
      rewrite Hops1 in Hc.
      split.
      { rewrite Hc, map_app, Hcontent, <- app_assoc, <- map_app.
        rewrite kept_points_app, !stockTicks_length. reflexivity. }
      eapply batch_outcome_app; [| exact Ho].
      eapply batch_outcome_same; [| | | | | | exact Hout]; reflexivity.
    + destruct Hrun as [Hrun _].
      rewrite Hrun. unfold bind. cbn [console_error ret fst snd].
      match goal with
      | |- context [BatchFetchStocks.symbolLoop env input rest ?a ?e ?w2] =>
          destruct (IH a e w2) as [done [w' [E [Hc Ho]]]]
      end.
      cbn [provider_calls db_ops] in Hc, Ho. rewrite Hcalls in Hc, Ho.
      exists done, w'. split; [exact E|].
      pose proof (proj1 Hout) as Hops1.
      cbn [db_ops List.length after_points] in Hops1.
      rewrite Hops1 in Hc.
      cbn [app]. split; [exact Hc|].
      change (batch_points env (interval_str (batch_interval input))
                           (batch_period input) rest
                           (S (provider_calls w)))
        with ([] ++ batch_points env (interval_str (batch_interval input))
                      (batch_period input) rest (S (provider_calls w))).
      eapply batch_outcome_app; [| exact Ho].
      eapply batch_outcome_same; [| | | | | | exact Hout]; reflexivity.
Qed.

(** The batch handler returns the ticks of the points it stored, and
    these only. *)
Lemma batchFetchStocks_outcome (input : BatchFetchInput) (w : World) :
  exists ticks w',
    BatchFetchStocks.batchFetchStocks env input w = (Ok ticks, w')
    /\ map tick_content ticks
       = map (batch_content env)
           (kept (stored_points (db_fault env) (db_ops w)
                    (List.length
                       (batch_points env
                          (interval_str (batch_interval input))
                          (batch_period input) (batch_symbols input)
                          (provider_calls w))))
                 (batch_points env (interval_str (batch_interval input))
                    (batch_period input) (batch_symbols input)
                    (provider_calls w)))
    /\ batch_outcome env
         (batch_points env (interval_str (batch_interval input))
                       (batch_period input) (batch_symbols input)
                       (provider_calls w))
         w w'.
Proof.
  unfold BatchFetchStocks.batchFetchStocks, try_catch.
  unfold bind at 1. cbn [console_log]. unfold bind at 1.
  match goal with
  | |- context [BatchFetchStocks.symbolLoop env input ?ss ?a ?e ?w1] =>
      destruct (symbolLoop_outcome input ss a e w1)
        as [[ticks errs] [w2 [E [Hc Ho]]]]
  end.
  rewrite E. cbn [provider_calls db_ops map app fst] in Hc, Ho.
  destruct errs; unfold bind; cbn [console_log ret snd fst];
    (eexists; eexists; split; [reflexivity|]; split; [exact Hc|];
     eapply batch_outcome_same; [| | | | | | exact Ho]; reflexivity).
Qed.

(** The inserts of the fallback: one statement per point, and every
    failure swallowed. *)
Lemma chart_insertLoop_runs (ticks : list NewStockTick) :
  forall w,
  exists w',
    GetChartData.insertLoop env ticks w = (Ok tt, w')
    /\ db_ops w' = (db_ops w + List.length ticks)%nat
    /\ (error_lines (console w) <= error_lines (console w'))%nat.
Proof.
  induction ticks as [|tick rest IH]; intro w.
  - exists w. cbn. split; [reflexivity|]. split; lia.
  - cbn [GetChartData.insertLoop]. unfold bind at 1. unfold try_catch.
    unfold bind at 1. unfold Db.insert, Db.insert_into, Db.statement.
    destruct (db_fault env (db_ops w)).
    + cbn [GetChartData.is_duplicate_error console_error].
      match goal with
      | |- context [GetChartData.insertLoop env rest ?w1] =>
          destruct (IH w1) as [w' [E [Hops He]]]
      end.
      exists w'. split; [exact E|].
      cbn [db_ops console failed record_event count_db_op] in Hops, He.
      rewrite error_lines_app in He. cbn [error_lines] in He.
      cbn [List.length]. split; lia.
    + rewrite stockTicksTable_accepts. cbn [ret].
      match goal with
      | |- context [GetChartData.insertLoop env rest ?w1] =>
          destruct (IH w1) as [w' [E [Hops He]]]
      end.
      exists w'. split; [exact E|].
      cbn [db_ops console executed snapshot set_rows record_event
           count_db_op] in Hops, He.
      cbn [List.length]. split; lia.
Qed.

Lemma chart_upsertStockTicks_runs (ticks : list NewStockTick) (w : World) :
  exists w',
    GetChartData.upsertStockTicks env ticks w = (Ok tt, w')
    /\ db_ops w' = (db_ops w + List.length ticks)%nat
    /\ (error_lines (console w) <= error_lines (console w'))%nat.
Proof.
  unfold GetChartData.upsertStockTicks. destruct ticks as [|tick rest].
  - exists w. cbn. split; [reflexivity|]. split; lia.
  - unfold try_catch.
    destruct (chart_insertLoop_runs (tick :: rest) w) as [w' [E H]].
    rewrite E. exists w'. split; [reflexivity | exact H].
Qed.

(** When the first query finds no row for a requested symbol, the chart
    handler answers whatever fails afterwards: with no point when the
    provider rejects the request or the second query fails, with the
    rows the second query finds otherwise. *)
Lemma getChartData_fallback_answers (input : GetHistoricalDataInput)
    (s : StockSymbol) (w : World) :
  input_symbol input = Some s ->
  fst (GetChartData.query env input w) = Ok [] ->
  exists data w',
    GetChartData.getChartData env input w
    = (Ok (mkChart s (input_interval input) data), w')
    /\ match provider env s (interval_str (input_interval input)) "1d"
                      (provider_calls w) with
       | None =>
           data = [] /\ rows w' = rows w
           /\ error_lines (console w') = S (error_lines (console w))
       | Some points =>
           if db_fault env (S (db_ops w) + List.length points)
           then data = []
                /\ (error_lines (console w') > error_lines (console w))%nat
           else data = GetChartData.chartData
                         (chart_rows env input (rows w'))
       end.
Proof.
  intros Hs Hq.
  unfold GetChartData.getChartData, try_catch. unfold bind at 1.
  revert Hq. unfold GetChartData.query at 1 2, Db.select, Db.statement.
  destruct (db_fault env (db_ops w)); [intro Hq; discriminate Hq|].
  cbn [fst].
  remember (Db.apply_limit (Some (input_limit input)) _) as found
    eqn:Hfound.
  intro Hq. injection Hq as ->. clear Hfound.
  rewrite Hs. unfold bind at 1.
  unfold GetChartData.fallback, try_catch.
  unfold bind at 1. cbn [console_log]. unfold bind at 1.
  unfold GetChartData.fetchFromYahooFinance, Yahoo.request.
  cbn [provider_calls executed snapshot record_event count_db_op].
  destruct (provider env s (interval_str (input_interval input)) "1d"
                     (provider_calls w)) as [points|].
  - unfold bind at 1.
    match goal with
    | |- context [GetChartData.upsertStockTicks env ?ts ?w1] =>
        destruct (chart_upsertStockTicks_runs ts w1) as [w2 [E [Hops He]]]
    end.
    rewrite E.
    unfold GetChartData.transformYahooData in Hops.
    rewrite length_map in Hops.
    cbn [db_ops console record_event count_provider_call executed snapshot
         count_db_op] in Hops, He.
    rewrite error_lines_app in He. cbn [error_lines] in He.
    unfold bind at 1.
    unfold GetChartData.query, Db.select, Db.statement.
    rewrite Hops.
    destruct (db_fault env (S (db_ops w) + List.length points)).
    + cbn [console_error ret]. unfold bind. cbn [ret].
      eexists; eexists. split; [reflexivity|].
      split; [reflexivity|].
      cbn [snd console failed record_event count_db_op].
      rewrite error_lines_app. cbn [error_lines]. lia.
    + cbn [ret]. unfold bind. cbn [ret].
      eexists; eexists. split; [reflexivity|]. reflexivity.
  - cbn [console_error ret]. unfold bind. cbn [ret].
    eexists; eexists. split; [reflexivity|].
    split; [reflexivity|]. split; [reflexivity|].
    cbn [snd]. world. rewrite !error_lines_app. cbn [error_lines]. lia.
Qed.

Lemma getChartData_first_query_fails (input : GetHistoricalDataInput)
    (w : World) :
  db_fault env (db_ops w) = true ->
  exists w',
    GetChartData.getChartData env input w = (Err StoreError, w')
    /\ rows w' = rows w /\ db_ops w' = S (db_ops w).
Proof.
  intro Hf.
  unfold GetChartData.getChartData, try_catch. unfold bind at 1.
  unfold GetChartData.query, Db.select, Db.statement. rewrite Hf.
  eexists. split; [reflexivity|]. split; reflexivity.
Qed.



End Failures.

(* ================================================================== *)
(** * The chart handler *)

Section Chart.
Variable env : Env.

Lemma select_ok (c : Where) (o : bool) (l : option nat) (w : World) :
  db_fault env (db_ops w) = false ->
  Db.select env c o l w
  = (Ok (Db.apply_limit l (Db.apply_order o (filter (Db.eval_where env c)
                                                    (rows w)))),
     executed (OpSelect c o l) w).
Proof. intro Hf. unfold Db.select, Db.statement. rewrite Hf. reflexivity. Qed.

Lemma select_fails (c : Where) (o : bool) (l : option nat) (w : World) :
  db_fault env (db_ops w) = true ->
  Db.select env c o l w
  = (Err StoreError,
     failed (OpSelect c o l) w).
Proof. intro Hf. unfold Db.select, Db.statement. rewrite Hf. reflexivity. Qed.

Lemma chart_query_ok (input : GetHistoricalDataInput) (w : World) :
  db_fault env (db_ops w) = false ->
  GetChartData.query env input w
  = (Ok (chart_rows env input (rows w)),
     executed (chart_select input) w).
Proof. intro Hf. unfold GetChartData.query. rewrite select_ok by exact Hf.
       reflexivity. Qed.

Lemma chart_query_fails (input : GetHistoricalDataInput) (w : World) :
  db_fault env (db_ops w) = true ->
  GetChartData.query env input w
  = (Err StoreError,
     failed (chart_select input) w).
Proof. intro Hf. unfold GetChartData.query. rewrite select_fails by exact Hf.
       reflexivity. Qed.

(** The inserts of the fallback, when the database answers. *)
Lemma insertLoop_ok (vs : list NewStockTick) :
  forall w : World,
    no_fault_from env (db_ops w) ->
    GetChartData.insertLoop env vs w
    = (Ok tt,
       mkWorld (rows w ++ appended env vs (next_id w) (clock w))
               (next_id w + Z.of_nat (List.length vs)) (clock w)
               (db_ops w + List.length vs)%nat (provider_calls w)
               (trace w ++ map (fun v => EvDb (OpInsert v) true) vs)
               (console w)
               (history w
                ++ appended_stores env vs (rows w) (next_id w) (clock w))).
Proof.
  induction vs as [|v rest IH]; intros w Hnf.
  - destruct w. simpl. unfold ret.
    rewrite !app_nil_r, Z.add_0_r, Nat.add_0_r. reflexivity.
  - cbn [GetChartData.insertLoop]. unfold bind at 1. unfold try_catch.
    unfold bind at 1. unfold Db.insert, Db.insert_into, Db.statement.
    rewrite (Hnf (db_ops w)) by lia.
    rewrite stockTicksTable_accepts. unfold ret. cbv beta iota.
    rewrite IH by (intros m Hm; apply Hnf; simpl in Hm; lia).
    f_equal. world.
    cbn [appended appended_stores map List.length Db.new_row].
    f_equal.
    + rewrite <- app_assoc. reflexivity.
    + lia.
    + lia.
    + rewrite <- app_assoc. reflexivity.
    + rewrite <- app_assoc. reflexivity.
Qed.

Lemma chart_upsertStockTicks_ok (vs : list NewStockTick) (w : World) :
  no_fault_from env (db_ops w) ->
  GetChartData.upsertStockTicks env vs w
  = (Ok tt,
     mkWorld (rows w ++ appended env vs (next_id w) (clock w))
             (next_id w + Z.of_nat (List.length vs)) (clock w)
             (db_ops w + List.length vs)%nat (provider_calls w)
             (trace w ++ map (fun v => EvDb (OpInsert v) true) vs)
             (console w)
             (history w
              ++ appended_stores env vs (rows w) (next_id w) (clock w))).
Proof.
  intro Hnf. destruct vs as [|v rest].
  - destruct w. simpl. unfold ret.
    rewrite !app_nil_r, Z.add_0_r, Nat.add_0_r. reflexivity.
  - unfold GetChartData.upsertStockTicks, try_catch.
    rewrite insertLoop_ok by exact Hnf. reflexivity.
Qed.

(** The fallback of the chart handler, when the database answers and
    the provider replies. *)
Lemma chart_fallback_ok (input : GetHistoricalDataInput) (s : StockSymbol)
    (w : World) (points : list YahooFinanceData) :
  input_symbol input = Some s ->
  no_fault_from env (db_ops w) ->
  chart_rows env input (rows w) = [] ->
  provider env s (interval_str (input_interval input)) "1d"
           (provider_calls w) = Some points ->
  exists w',
    GetChartData.getChartData env input w
    = (Ok (mkChart s (input_interval input)
                   (GetChartData.chartData
                      (chart_rows env input (rows w')))), w')
    /\ rows w'
       = rows w
         ++ appended env
              (GetChartData.transformYahooData
                 points s (interval_str (input_interval input)))
              (next_id w) (clock w)
    /\ trace w'
       = trace w
         ++ [EvDb (chart_select input) true;
             EvProvider s (interval_str (input_interval input)) "1d"]
         ++ map (fun v => EvDb (OpInsert v) true)
                (GetChartData.transformYahooData
                   points s (interval_str (input_interval input)))
         ++ [EvDb (chart_select input) true]
    /\ (db_ops w <= db_ops w')%nat.
Proof.
  intros Hs Hnf Hnone Hp.
  unfold GetChartData.getChartData, try_catch. unfold bind at 1.
  rewrite chart_query_ok by (apply Hnf; lia).
  rewrite Hnone, Hs. unfold bind at 1.
  unfold GetChartData.fallback, try_catch.
  unfold bind at 1. cbn [console_log]. unfold bind at 1.
  unfold GetChartData.fetchFromYahooFinance, Yahoo.request.
  world.
  rewrite Hp. unfold bind at 1.
  rewrite chart_upsertStockTicks_ok
    by (intros m Hm; apply Hnf; simpl in Hm; lia).
  unfold bind at 1.
  rewrite chart_query_ok by (apply Hnf; simpl; lia).
  unfold ret. cbv beta iota.
  match goal with
  | |- exists w', ?X = _ /\ _ => exists (snd X)
  end.
  split; [reflexivity|].
  cbn [snd]; world.
  split; [reflexivity|]. split; [|lia].
  rewrite <- !app_assoc. reflexivity.
Qed.

(** The provider has nothing: whatever the second query does, the
    answer is the requested symbol with no point, after one request to
    the provider. *)
Lemma chart_fallback_empty (input : GetHistoricalDataInput)
    (s : StockSymbol) (w : World) :
  input_symbol input = Some s ->
  db_fault env (db_ops w) = false ->
  chart_rows env input (rows w) = [] ->
  provider env s (interval_str (input_interval input)) "1d"
           (provider_calls w) = Some [] ->
  exists w',
    GetChartData.getChartData env input w
    = (Ok (mkChart s (input_interval input) []), w')
    /\ rows w' = rows w
    /\ provider_requests (trace w') = S (provider_requests (trace w)).
Proof.
  intros Hs Hf Hnone Hp.
  assert (Hreq : forall t e1 e2,
             provider_requests
               (((t ++ [EvDb e1 true])
                 ++ [EvProvider s (interval_str (input_interval input)) "1d"])
                ++ [EvDb (chart_select input) e2])
             = S (provider_requests t)).
  { intros t e1 e2. induction t as [|[ | op ok] t IH]; simpl in *;
      try rewrite IH; reflexivity. }
  unfold GetChartData.getChartData, try_catch. unfold bind at 1.
  rewrite chart_query_ok by exact Hf.
  rewrite Hnone, Hs. unfold bind at 1.
  unfold GetChartData.fallback, try_catch.
  unfold bind at 1. cbn [console_log]. unfold bind at 1.
  unfold GetChartData.fetchFromYahooFinance, Yahoo.request.
  world.
  rewrite Hp. unfold bind at 1.
  cbn [GetChartData.transformYahooData map GetChartData.upsertStockTicks].
  unfold ret at 1. cbv beta iota. unfold bind at 1.
  destruct (db_fault env (S (db_ops w))) eqn:Hf1.
  - rewrite chart_query_fails by exact Hf1.
    eexists. split; [reflexivity|]. split; [reflexivity|].
    world. apply Hreq.
  - rewrite chart_query_ok by exact Hf1.
    world.
    rewrite Hnone.
    eexists. split; [reflexivity|]. split; [reflexivity|].
    world. apply Hreq.
Qed.

Lemma appended_keys (vs : list NewStockTick) :
  forall nid clk,
    map natural_key (appended env vs nid clk) = map (stored_key env) vs.
Proof.
  induction vs as [|v rest IH]; intros nid clk; simpl; [reflexivity|].
  rewrite IH. reflexivity.
Qed.

(** C7 (as amended) -- Chart fallback.  When [getChartData] is called
    with a symbol and its query finds no row, it sends one request to
    the provider for that symbol and interval (period '1d'), sends one
    plain insert per point fetched, sends its query a second time, and
    answers with the points that query finds: the calls issued are the
    query, the request, the inserts and the query again, in that order,
    and nothing else.  Points whose natural keys are new to the store
    and distinct become new rows and the natural key stays unique.  When
    the provider returns no point the answer is the requested symbol
    with an empty list, after exactly one request, whether or not the
    second query fails. *)
Theorem chart_fallback :
  (forall (input : GetHistoricalDataInput) (s : StockSymbol) (w : World)
          (points : list YahooFinanceData),
      input_symbol input = Some s ->
      no_fault_from env (db_ops w) ->
      chart_rows env input (rows w) = [] ->
      provider env s (interval_str (input_interval input)) "1d"
               (provider_calls w) = Some points ->
      exists w',
        GetChartData.getChartData env input w
        = (Ok (mkChart s (input_interval input)
                       (GetChartData.chartData
                          (chart_rows env input (rows w')))), w')
        /\ trace w'
           = trace w
             ++ [EvDb (chart_select input) true;
                 EvProvider s (interval_str (input_interval input)) "1d"]
             ++ map (fun v => EvDb (OpInsert v) true)
                    (GetChartData.transformYahooData
                       points s (interval_str (input_interval input)))
             ++ [EvDb (chart_select input) true]
        /\ (NoDup (map natural_key (rows w)
                   ++ map (stored_key env)
                          (GetChartData.transformYahooData
                             points s
                             (interval_str (input_interval input)))) ->
            rows w'
            = rows w
              ++ appended env
                   (GetChartData.transformYahooData
                      points s (interval_str (input_interval input)))
                   (next_id w) (clock w)
            /\ natural_key_unique (rows w')))
  /\ (forall (input : GetHistoricalDataInput) (s : StockSymbol) (w : World),
         input_symbol input = Some s ->
         db_fault env (db_ops w) = false ->
         chart_rows env input (rows w) = [] ->
         provider env s (interval_str (input_interval input)) "1d"
                  (provider_calls w) = Some [] ->
         exists w',
           GetChartData.getChartData env input w
           = (Ok (mkChart s (input_interval input) []), w')
           /\ rows w' = rows w
           /\ provider_requests (trace w')
              = S (provider_requests (trace w))).
Proof.
  split.
  - intros input s w points Hs Hnf Hnone Hp.
    destruct (chart_fallback_ok input w Hs Hnf Hnone Hp)
      as [w' [E [Hrows [Htrace _]]]].
    exists w'. split; [exact E|]. split; [exact Htrace|].
    intro Hfresh. split; [exact Hrows|].
    unfold natural_key_unique. rewrite Hrows, map_app, appended_keys.
    exact Hfresh.
  - exact chart_fallback_empty.
Qed.

(** ** The chart query against the range query *)

Lemma chart_conditions_satisfies (input : GetHistoricalDataInput)
    (r : StockTick) :
  codec_agrees env (input_interval input) ->
  Db.eval_where env (build_where (GetChartData.conditions input)) r
  = RangeQuerySpec.satisfies env input r.
Proof.
  unfold codec_agrees. intro Hc.
  destruct input as [[s|] i [sd|] [ed|] lim];
    unfold RangeQuerySpec.satisfies, RangeQuerySpec.symbol_ok,
      RangeQuerySpec.interval_ok, RangeQuerySpec.start_ok,
      RangeQuerySpec.end_ok, RangeQuerySpec.encode,
      GetChartData.conditions;
    cbn [input_symbol input_interval input_startDate input_endDate
         push_if app build_where Db.eval_where Db.eval_sql forallb] in *;
    rewrite Hc; rewrite ?andb_true_r, ?andb_assoc; reflexivity.
Qed.

Lemma chart_rows_selected (input : GetHistoricalDataInput)
    (stored : list StockTick) :
  codec_agrees env (input_interval input) ->
  chart_rows env input stored = RangeQuerySpec.selected env input stored.
Proof.
  intro Hc. unfold chart_rows, RangeQuerySpec.selected.
  rewrite (filter_ext _ _ (fun r => chart_conditions_satisfies input r Hc)).
  reflexivity.
Qed.

(** The projection drops the interval, decoded or not. *)
Lemma chartData_returned (l : list StockTick) :
  GetChartData.chartData (map RangeQuerySpec.returned l)
  = GetChartData.chartData l.
Proof.
  unfold GetChartData.chartData. rewrite map_map. reflexivity.
Qed.

(** What [getChartData] answers when the database answers: the points
    its query finds in the store as the handler leaves it. *)
Lemma getChartData_fault_free (input : GetHistoricalDataInput) (w : World) :
  no_fault_from env (db_ops w) ->
  exists response w',
    GetChartData.getChartData env input w = (Ok response, w')
    /\ (db_ops w <= db_ops w')%nat
    /\ chart_data response
       = GetChartData.chartData (chart_rows env input (rows w'))
    /\ (input_symbol input = None \/ chart_rows env input (rows w) <> [] ->
        rows w' = rows w).
Proof.
  intro Hnf.
  destruct (chart_rows env input (rows w)) as [|first more] eqn:Hrows.
  - destruct (input_symbol input) as [s|] eqn:Hs.
    + destruct (provider env s (interval_str (input_interval input)) "1d"
                         (provider_calls w)) as [points|] eqn:Hp.
      * destruct (chart_fallback_ok input w Hs Hnf Hrows Hp)
          as [w' [E [_ [_ Hops]]]].
        eexists; exists w'. split; [exact E|]. split; [exact Hops|].
        split; [reflexivity|].
        intros [H|H]; [discriminate | contradiction H; reflexivity].
      * unfold GetChartData.getChartData, try_catch. unfold bind at 1.
        rewrite chart_query_ok by (apply Hnf; lia).
        rewrite Hrows, Hs. unfold bind at 1.
        unfold GetChartData.fallback, try_catch.
        unfold bind at 1. cbn [console_log]. unfold bind at 1.
        unfold GetChartData.fetchFromYahooFinance, Yahoo.request.
        world.
        rewrite Hp. unfold bind at 1. cbn [console_error]. unfold ret.
        cbv beta iota.
        match goal with
        | |- exists r w', (Ok ?R, ?W) = _ /\ _ => exists R, W
        end.
        split; [reflexivity|].
        simpl. rewrite Hrows.
        split; [lia|]. split; [reflexivity|]. intros _; reflexivity.
    + unfold GetChartData.getChartData, try_catch. unfold bind at 1.
      rewrite chart_query_ok by (apply Hnf; lia).
      rewrite Hrows, Hs. unfold bind at 1. unfold ret. cbv beta iota.
      match goal with
      | |- exists r w', (Ok ?R, ?W) = _ /\ _ => exists R, W
      end.
      split; [reflexivity|].
      simpl. rewrite Hrows.
      split; [lia|]. split; [reflexivity|]. intros _; reflexivity.
  - unfold GetChartData.getChartData, try_catch. unfold bind at 1.
    rewrite chart_query_ok by (apply Hnf; lia).
    rewrite Hrows. unfold bind at 1. unfold ret. cbv beta iota.
    match goal with
    | |- exists r w', (Ok ?R, ?W) = _ /\ _ => exists R, W
    end.
    split; [reflexivity|].
    simpl. rewrite Hrows.
    split; [lia|]. split; [reflexivity|]. intros _; reflexivity.
Qed.

(** C8 (as amended) -- Chart/range query agreement.  When the database
    answers and the store treats the interval token of the request and
    its encoding as one value, the points of [getChartData] are, in
    order, the projection of the ticks that [getHistoricalData] returns
    for the same input on the store as [getChartData] leaves it, that
    is with the rows of the fetch-on-miss fallback when it fires.  On
    the store as it was before the call the two agree when no symbol
    is given or the range query finds a row. *)
Theorem chart_agrees_with_history (input : GetHistoricalDataInput)
    (w : World) :
  no_fault_from env (db_ops w) ->
  codec_agrees env (input_interval input) ->
  exists response w' ticks w'',
    GetChartData.getChartData env input w = (Ok response, w')
    /\ GetHistoricalData.getHistoricalData env input w' = (Ok ticks, w'')
    /\ chart_data response = GetChartData.chartData ticks
    /\ (input_symbol input = None
        \/ RangeQuerySpec.selected env input (rows w) <> [] ->
        fst (GetHistoricalData.getHistoricalData env input w) = Ok ticks).
Proof.
  intros Hnf Hc.
  destruct (@getChartData_fault_free input w Hnf)
    as [response [w' [E [Hops [Hdata Hsame]]]]].
  assert (Hf' : db_fault env (db_ops w') = false) by (apply Hnf; lia).
  exists response, w'. eexists; eexists.
  split; [exact E|].
  split; [apply getHistoricalData_refines; exact Hf'|].
  split.
  - rewrite Hdata, chart_rows_selected by exact Hc.
    unfold RangeQuerySpec.queryHistory. rewrite chartData_returned.
    reflexivity.
  - intro Hno. rewrite <- chart_rows_selected in Hno by exact Hc.
    rewrite getHistoricalData_refines by (apply Hnf; lia).
    cbn [fst]. rewrite (Hsame Hno). reflexivity.
Qed.


End Chart.

(* ================================================================== *)
(** * The statements above on concrete stores *)





Lemma chart_fallback_witness :
  (exists w',
      GetChartData.getChartData (Sample.env Sample.never Sample.two_points)
        (mkHistInput (Some AAPL) I1m None None 100) Sample.empty
      = (Ok (mkChart AAPL I1m
                     (GetChartData.chartData
                        (chart_rows
                           (Sample.env Sample.never Sample.two_points)
                           (mkHistInput (Some AAPL) I1m None None 100)
                           (rows w')))), w')
      /\ trace w'
         = trace Sample.empty
           ++ [EvDb (chart_select (mkHistInput (Some AAPL) I1m None None 100))
                    true;
               EvProvider AAPL "1m" "1d"]
           ++ map (fun v => EvDb (OpInsert v) true)
                  (GetChartData.transformYahooData
                     [mkYahoo 1704103200 Sample.ohlcv1;
                      mkYahoo 1704103260 Sample.ohlcv2] AAPL "1m")
           ++ [EvDb (chart_select (mkHistInput (Some AAPL) I1m None None 100))
                    true]
      /\ (NoDup (map natural_key (rows Sample.empty)
                 ++ map (stored_key
                           (Sample.env Sample.never Sample.two_points))
                        (GetChartData.transformYahooData
                           [mkYahoo 1704103200 Sample.ohlcv1;
                            mkYahoo 1704103260 Sample.ohlcv2] AAPL "1m")) ->
          rows w'
          = rows Sample.empty
            ++ appended (Sample.env Sample.never Sample.two_points)
                 (GetChartData.transformYahooData
                    [mkYahoo 1704103200 Sample.ohlcv1;
                     mkYahoo 1704103260 Sample.ohlcv2] AAPL "1m")
                 (next_id Sample.empty) (clock Sample.empty)
          /\ natural_key_unique (rows w')))
  /\ (exists w',
         GetChartData.getChartData (Sample.env Sample.never Sample.no_points)
           (mkHistInput (Some AAPL) I1m None None 100) Sample.empty
         = (Ok (mkChart AAPL I1m []), w')
         /\ rows w' = rows Sample.empty
         /\ provider_requests (trace w')
            = S (provider_requests (trace Sample.empty))).
Proof.
  split.
  - apply (proj1 (@chart_fallback
                    (Sample.env Sample.never Sample.two_points))
                 (mkHistInput (Some AAPL) I1m None None 100) AAPL
                 Sample.empty
                 [mkYahoo 1704103200 Sample.ohlcv1;
                  mkYahoo 1704103260 Sample.ohlcv2]);
      try reflexivity.
    intros m _; reflexivity.
  - exact (proj2 (@chart_fallback
                    (Sample.env Sample.never Sample.no_points))
                 (mkHistInput (Some AAPL) I1m None None 100) AAPL
                 Sample.empty eq_refl eq_refl eq_refl eq_refl).
Defined.

(** C7, as stated, fails: a point fetched for a natural key that is
    stored outside the requested window is not upserted.  The stored
    row keeps its values and the key ends with two rows. *)
Lemma chart_fallback_counterexample :
  exists response w',
    GetChartData.getChartData DuplicateExample.env
                              DuplicateExample.chartInput
                              DuplicateExample.staleStore
    = (Ok response, w')
    /\ rows_with_key (AAPL, 1704103200000, "00:01:00") (rows w')
       = [DuplicateExample.stale; DuplicateExample.fetched]
    /\ ohlcv DuplicateExample.stale <> ohlcv DuplicateExample.fetched.
Proof.
  eexists; eexists. split; [reflexivity|]. split; [reflexivity|].
  discriminate.
Qed.

Lemma chart_agrees_with_history_witness :
  exists response w' ticks w'',
    GetChartData.getChartData (Sample.env Sample.never Sample.two_points)
      (mkHistInput (Some AAPL) I1m None None 100) Sample.empty
    = (Ok response, w')
    /\ GetHistoricalData.getHistoricalData
         (Sample.env Sample.never Sample.two_points)
         (mkHistInput (Some AAPL) I1m None None 100) w' = (Ok ticks, w'')
    /\ chart_data response = GetChartData.chartData ticks
    /\ (input_symbol (mkHistInput (Some AAPL) I1m None None 100) = None
        \/ RangeQuerySpec.selected
             (Sample.env Sample.never Sample.two_points)
             (mkHistInput (Some AAPL) I1m None None 100)
             (rows Sample.empty) <> [] ->
        fst (GetHistoricalData.getHistoricalData
               (Sample.env Sample.never Sample.two_points)
               (mkHistInput (Some AAPL) I1m None None 100) Sample.empty)
        = Ok ticks).
Proof.
  apply (@chart_agrees_with_history
           (Sample.env Sample.never Sample.two_points)).
  - intros m _; reflexivity.
  - reflexivity.
Defined.

(** C8, as stated, fails: on an empty store, for a requested symbol,
    the chart handler answers with the two points it fetched, while the
    range query on that store and input returns no tick.  And on a
    column that keeps the text it is given, the chart handler finds the
    tick stored as '1m' while the range query, which looks for
    '00:01:00', finds none. *)
Lemma chart_history_disagree_counterexample :
  fst (GetChartData.getChartData
         (Sample.env Sample.never Sample.two_points)
         (mkHistInput (Some AAPL) I1m None None 100) Sample.empty)
  = Ok (mkChart AAPL I1m
                [mkCandle 1704103260000 Sample.ohlcv2;
                 mkCandle 1704103200000 Sample.ohlcv1])
  /\ fst (GetHistoricalData.getHistoricalData
            (Sample.env Sample.never Sample.two_points)
            (mkHistInput (Some AAPL) I1m None None 100) Sample.empty)
     = Ok []
  /\ fst (GetChartData.getChartData
            (mkEnv (fun v => v) Sample.never Sample.no_points)
            (mkHistInput (Some AAPL) I1m None None 100)
            (Sample.with_rows
               [mkStockTick 1 AAPL 1704103200000 Sample.ohlcv1 "1m"
                            1704103200000]))
     = Ok (mkChart AAPL I1m [mkCandle 1704103200000 Sample.ohlcv1])
  /\ fst (GetHistoricalData.getHistoricalData
            (mkEnv (fun v => v) Sample.never Sample.no_points)
            (mkHistInput (Some AAPL) I1m None None 100)
            (Sample.with_rows
               [mkStockTick 1 AAPL 1704103200000 Sample.ohlcv1 "1m"
                            1704103200000]))
     = Ok [].
Proof. repeat split; reflexivity. Qed.

(* ================================================================== *)
(** * Relations that every step of a handler keeps *)

Section Stepwise.
Variable env : Env.
Variable R : World -> World -> Prop.
Hypothesis R_refl : forall w, R w w.
Hypothesis R_trans : forall a b c, R a b -> R b c -> R a c.
Hypothesis R_console_log : forall msg, stepwise R (console_log msg).
Hypothesis R_console_error : forall msg, stepwise R (console_error msg).
Hypothesis R_request : forall s i p, stepwise R (Yahoo.request env s i p).
Hypothesis R_select : forall c o l, stepwise R (Db.select env c o l).
Hypothesis R_update : forall v c, stepwise R (Db.update env v c).
Hypothesis R_insert : forall v, stepwise R (Db.insert env v).
Hypothesis R_latest_join : stepwise R (Db.latest_join env).

Lemma stepwise_ret {A : Type} (a : A) : stepwise R (ret a).
Proof. intro w. apply R_refl. Qed.

Lemma stepwise_throw {A : Type} (e : Error) : stepwise R (@throw A e).
Proof. intro w. apply R_refl. Qed.

Lemma stepwise_bind {A B : Type} (m : M A) (k : A -> M B) :
  stepwise R m -> (forall a, stepwise R (k a)) -> stepwise R (bind m k).
Proof.
  intros Hm Hk w. unfold bind.
  specialize (Hm w). destruct (m w) as [[a|e] w1]; cbn [snd] in *.
  - apply R_trans with (b := w1); [exact Hm | apply Hk].
  - exact Hm.
Qed.

Lemma stepwise_try {A : Type} (m : M A) (h : Error -> M A) :
  stepwise R m -> (forall e, stepwise R (h e)) -> stepwise R (try_catch m h).
Proof.
  intros Hm Hh w. unfold try_catch.
  specialize (Hm w). destruct (m w) as [[a|e] w1]; cbn [snd] in *.
  - exact Hm.
  - apply R_trans with (b := w1); [exact Hm | apply Hh].
Qed.

(** Follows the structure of a handler down to its statements. *)
Ltac steps :=
  repeat first
    [ apply stepwise_ret
    | apply stepwise_throw
    | apply R_console_log
    | apply R_console_error
    | apply R_request
    | apply R_select
    | apply R_update
    | apply R_insert
    | apply R_latest_join
    | apply stepwise_bind; [| intro]
    | apply stepwise_try; [| intro]
    | match goal with
      | |- stepwise _ (match ?x with _ => _ end) => destruct x
      end ].

Lemma stepwise_fetch_upsertLoop (ticks : list NewStockTick) :
  forall acc, stepwise R (FetchStockData.upsertLoop env ticks acc).
Proof.
  induction ticks as [|tick rest IH]; intro acc; simpl.
  - steps.
  - apply stepwise_bind; [| intro; apply IH].
    unfold FetchStockData.upsertTick. steps.
Qed.

Lemma stepwise_fetchStockData (input : FetchStockDataInput) :
  stepwise R (FetchStockData.fetchStockData env input).
Proof.
  unfold FetchStockData.fetchStockData,
    FetchStockData.fetchFromYahooFinance.
  apply stepwise_try; [| intro; steps].
  apply stepwise_bind; [steps | intro].
  apply stepwise_bind; [steps | intros [|y ys]]; [steps|].
  apply stepwise_bind; [apply stepwise_fetch_upsertLoop | intro; steps].
Qed.

Lemma stepwise_batch_upsertLoop (ticks : list NewStockTick) :
  forall acc, stepwise R (BatchFetchStocks.upsertLoop env ticks acc).
Proof.
  induction ticks as [|tick rest IH]; intro acc; simpl.
  - steps.
  - apply stepwise_bind; [| intro; apply IH].
    unfold BatchFetchStocks.upsertTick. steps.
Qed.

Lemma stepwise_fetchStockDataForSymbol (s : StockSymbol) (i p : string) :
  stepwise R (BatchFetchStocks.fetchStockDataForSymbol env s i p).
Proof.
  unfold BatchFetchStocks.fetchStockDataForSymbol,
    BatchFetchStocks.simulateYahooFinanceAPI.
  apply stepwise_bind; [steps | intro].
  apply stepwise_bind; [steps | intros [|y ys]]; [steps|].
  apply stepwise_bind; [apply stepwise_batch_upsertLoop | intro; steps].
Qed.

Lemma stepwise_symbolLoop (input : BatchFetchInput)
    (symbols : list StockSymbol) :
  forall acc errors,
    stepwise R (BatchFetchStocks.symbolLoop env input symbols acc errors).
Proof.
  induction symbols as [|s rest IH]; intros acc errors; simpl.
  - steps.
  - apply stepwise_bind; [| intro; apply IH].
    apply stepwise_try; [| intro; steps].
    apply stepwise_bind; [steps | intro].
    apply stepwise_bind;
      [apply stepwise_fetchStockDataForSymbol | intro; steps].
Qed.

Lemma stepwise_batchFetchStocks (input : BatchFetchInput) :
  stepwise R (BatchFetchStocks.batchFetchStocks env input).
Proof.
  unfold BatchFetchStocks.batchFetchStocks.
  apply stepwise_try; [| intro; steps].
  apply stepwise_bind; [steps | intro].
  apply stepwise_bind; [apply stepwise_symbolLoop | intro; steps].
Qed.

Lemma stepwise_getHistoricalData (input : GetHistoricalDataInput) :
  stepwise R (GetHistoricalData.getHistoricalData env input).
Proof. unfold GetHistoricalData.getHistoricalData. steps. Qed.

Lemma stepwise_insertLoop (ticks : list NewStockTick) :
  stepwise R (GetChartData.insertLoop env ticks).
Proof.
  induction ticks as [|tick rest IH]; simpl.
  - steps.
  - apply stepwise_bind; [| intro; exact IH].
    apply stepwise_try; [steps | intro e].
    destruct (GetChartData.is_duplicate_error e); steps.
Qed.

Lemma stepwise_chart_upsertStockTicks (ticks : list NewStockTick) :
  stepwise R (GetChartData.upsertStockTicks env ticks).
Proof.
  unfold GetChartData.upsertStockTicks. destruct ticks as [|tick rest].
  - steps.
  - apply stepwise_try; [apply stepwise_insertLoop | intro; steps].
Qed.

Lemma stepwise_getChartData (input : GetHistoricalDataInput) :
  stepwise R (GetChartData.getChartData env input).
Proof.
  unfold GetChartData.getChartData, GetChartData.query.
  apply stepwise_try; [| intro; steps].
  apply stepwise_bind; [steps | intro results].
  apply stepwise_bind; [| intro; steps].
  destruct results as [|first more]; [| steps].
  destruct (input_symbol input) as [s|]; [| steps].
  unfold GetChartData.fallback, GetChartData.fetchFromYahooFinance,
    GetChartData.query.
  apply stepwise_try; [| intro; steps].
  apply stepwise_bind; [steps | intro].
  apply stepwise_bind; [steps | intro].
  apply stepwise_bind;
    [apply stepwise_chart_upsertStockTicks | intro; steps].
Qed.

Lemma stepwise_latest_upsertLoop (ticks : list GetLatestPrices.Tick) :
  forall acc, stepwise R (GetLatestPrices.upsertLoop env ticks acc).
Proof.
  induction ticks as [|tick rest IH]; intro acc; simpl.
  - steps.
  - apply stepwise_bind; [| intro; apply IH].
    unfold GetLatestPrices.upsertTick. steps.
Qed.

Lemma stepwise_latest_upsertStockTicks (ticks : list GetLatestPrices.Tick) :
  stepwise R (GetLatestPrices.upsertStockTicks env ticks).
Proof.
  unfold GetLatestPrices.upsertStockTicks. destruct ticks.
  - steps.
  - apply stepwise_latest_upsertLoop.
Qed.

Lemma stepwise_fetchLoop (symbols : list StockSymbol) :
  forall acc, stepwise R (GetLatestPrices.fetchLoop env symbols acc).
Proof.
  induction symbols as [|s rest IH]; intro acc; simpl.
  - steps.
  - apply stepwise_bind; [| intro; apply IH].
    unfold GetLatestPrices.fetchYahooFinanceData. steps.
Qed.

Lemma stepwise_getLatestPrices (fetchFresh : bool) :
  stepwise R (GetLatestPrices.getLatestPrices env fetchFresh).
Proof.
  unfold GetLatestPrices.getLatestPrices.
  apply stepwise_try; [| intro; steps].
  apply stepwise_bind; [| intro; steps].
  destruct fetchFresh; [| steps].
  unfold GetLatestPrices.refresh.
  apply stepwise_bind; [apply stepwise_fetchLoop | intros [|t ts]].
  - steps.
  - apply stepwise_bind;
      [apply stepwise_latest_upsertStockTicks | intro; steps].
Qed.

End Stepwise.

(* ================================================================== *)
(** * No handler drops or re-keys a stored row *)

Lemma extends_refl (w : World) : extends w w.
Proof. exists []. rewrite app_nil_r. apply Permutation_refl. Qed.

Lemma extends_trans (a b c : World) :
  extends a b -> extends b c -> extends a c.
Proof.
  intros [x Hx] [y Hy]. exists (x ++ y).
  apply Permutation_trans with (map frame (rows b) ++ y); [exact Hy|].
  rewrite app_assoc. apply Permutation_app_tail. exact Hx.
Qed.

Lemma extends_same_rows (w w' : World) : rows w' = rows w -> extends w w'.
Proof.
  intro H. exists []. rewrite H, app_nil_r. apply Permutation_refl.
Qed.

Lemma map_frame_update (c : StockTick -> bool) (v : OHLCV)
    (l : list StockTick) :
  map frame (map (fun r => if c r then set_ohlcv r v else r) l)
  = map frame l.
Proof.
  rewrite map_map. apply map_ext. intro r. destruct (c r); reflexivity.
Qed.

Section RowsKept.
Variable env : Env.

Lemma extends_console_log (msg : string) :
  stepwise extends (console_log msg).
Proof. intro w. apply extends_same_rows. reflexivity. Qed.

Lemma extends_console_error (msg : string) :
  stepwise extends (console_error msg).
Proof. intro w. apply extends_same_rows. reflexivity. Qed.

Lemma extends_request (s : StockSymbol) (i p : string) :
  stepwise extends (Yahoo.request env s i p).
Proof.
  intro w. apply extends_same_rows. unfold Yahoo.request.
  destruct (provider env s i p (provider_calls w)); reflexivity.
Qed.

Lemma extends_select (c : Where) (o : bool) (l : option nat) :
  stepwise extends (Db.select env c o l).
Proof.
  intro w. apply extends_same_rows. unfold Db.select, Db.statement.
  destruct (db_fault env (db_ops w)); reflexivity.
Qed.

Lemma extends_update (v : OHLCV) (c : Where) :
  stepwise extends (Db.update env v c).
Proof.
  intro w. unfold Db.update, Db.statement.
  destruct (db_fault env (db_ops w));
    [apply extends_same_rows; reflexivity|].
  exists []. cbn [snd]. world. rewrite map_frame_update, app_nil_r.
  apply Permutation_refl.
Qed.

Lemma extends_insert (v : NewStockTick) :
  stepwise extends (Db.insert env v).
Proof.
  intro w. unfold Db.insert, Db.insert_into, Db.statement.
  destruct (db_fault env (db_ops w));
    [apply extends_same_rows; reflexivity|].
  rewrite stockTicksTable_accepts.
  exists [frame (Db.new_row env v w)]. cbn [snd]. world.
  rewrite map_app. apply Permutation_refl.
Qed.

Lemma extends_latest_join : stepwise extends (Db.latest_join env).
Proof.
  intro w. apply extends_same_rows. unfold Db.latest_join, Db.statement.
  destruct (db_fault env (db_ops w)); reflexivity.
Qed.

(** The premises of the lemmas on [stepwise], for [extends]. *)
Ltac rows_kept :=
  first [ exact extends_refl | exact extends_trans
        | exact extends_console_log | exact extends_console_error
        | exact extends_request | exact extends_select
        | exact extends_update | exact extends_insert
        | exact extends_latest_join ].

(** X1 -- No handler drops or re-keys a stored row.  Whatever the
    provider answers and whichever statements fail, after a call of
    [fetchStockData], [batchFetchStocks], [getHistoricalData],
    [getChartData] or [getLatestPrices] the table holds every row it
    held, as often as it held it, each with the id, symbol, timestamp,
    interval and created_at it had (an update rewrites open, high, low,
    close and volume only), beside the rows the call added.  Nothing is
    said of where a row stands in the table. *)
Theorem handlers_keep_stored_rows :
  (forall input w,
      extends w (snd (FetchStockData.fetchStockData env input w)))
  /\ (forall input w,
         extends w (snd (BatchFetchStocks.batchFetchStocks env input w)))
  /\ (forall input w,
         extends w (snd (GetHistoricalData.getHistoricalData env input w)))
  /\ (forall input w,
         extends w (snd (GetChartData.getChartData env input w)))
  /\ (forall fetchFresh w,
         extends w (snd (GetLatestPrices.getLatestPrices env fetchFresh w))).
Proof.
  split; [intro input; apply stepwise_fetchStockData; rows_kept|].
  split; [intro input; apply stepwise_batchFetchStocks; rows_kept|].
  split; [intro input; apply stepwise_getHistoricalData; rows_kept|].
  split; [intro input; apply stepwise_getChartData; rows_kept|].
  intro fetchFresh. apply stepwise_getLatestPrices; rows_kept.
Qed.

End RowsKept.

(* ================================================================== *)
(** * The failures that reach the caller of a handler *)

Section Raises.
Variable env : Env.

Lemma raises_ret {A : Type} (P : Error -> Prop) (a : A) :
  raises_only P (ret a).
Proof. intros w e H. discriminate. Qed.

Lemma raises_throw {A : Type} (P : Error -> Prop) (e : Error) :
  P e -> raises_only P (@throw A e).
Proof. intros He w e' H. inversion H; subst. exact He. Qed.

Lemma raises_console_log (P : Error -> Prop) (msg : string) :
  raises_only P (console_log msg).
Proof. intros w e H. discriminate. Qed.

Lemma raises_console_error (P : Error -> Prop) (msg : string) :
  raises_only P (console_error msg).
Proof. intros w e H. discriminate. Qed.

Lemma raises_bind {A B : Type} (P : Error -> Prop) (m : M A)
    (k : A -> M B) :
  raises_only P m -> (forall a, raises_only P (k a)) ->
  raises_only P (bind m k).
Proof.
  intros Hm Hk w e. unfold bind.
  specialize (Hm w). destruct (m w) as [[a|e'] w1]; cbn [fst] in *.
  - apply Hk.
  - intro H. inversion H; subst. apply Hm. reflexivity.
Qed.

(** [catch (error) { console.error(...); throw error; }]. *)
Lemma raises_rethrow {A : Type} (P : Error -> Prop) (m : M A)
    (msg : string) :
  raises_only P m ->
  raises_only P (try_catch m (fun error =>
                                console_error msg;;; throw error)).
Proof.
  intros Hm w e. unfold try_catch.
  specialize (Hm w). destruct (m w) as [[a|e'] w1]; cbn [fst] in *.
  - intro H. discriminate.
  - unfold bind. cbn [console_error throw fst].
    intro H. inversion H; subst. apply Hm. reflexivity.
Qed.

(** A [catch] that goes on: only what the handler of the [catch]
    throws gets out. *)
Lemma raises_caught {A : Type} (P : Error -> Prop) (m : M A)
    (h : Error -> M A) :
  (forall e, raises_only P (h e)) -> raises_only P (try_catch m h).
Proof.
  intros Hh w e. unfold try_catch.
  destruct (m w) as [[a|e'] w1]; cbn [fst].
  - intro H. discriminate.
  - apply Hh.
Qed.

Lemma raises_weaken {A : Type} (P Q : Error -> Prop) (m : M A) :
  (forall e, P e -> Q e) -> raises_only P m -> raises_only Q m.
Proof. intros HPQ Hm w e H. apply HPQ. exact (Hm w e H). Qed.

Lemma raises_request (s : StockSymbol) (i p : string) :
  raises_only (fun e => e = ProviderError) (Yahoo.request env s i p).
Proof.
  intros w e. unfold Yahoo.request.
  destruct (provider env s i p (provider_calls w)); cbn [fst]; intro H;
    [discriminate | inversion H; reflexivity].
Qed.

Lemma raises_select (c : Where) (o : bool) (l : option nat) :
  raises_only store_failure (Db.select env c o l).
Proof.
  intros w e. unfold Db.select, Db.statement.
  destruct (db_fault env (db_ops w)); cbn [fst]; intro H;
    [inversion H; reflexivity | discriminate].
Qed.

Lemma raises_update (v : OHLCV) (c : Where) :
  raises_only store_failure (Db.update env v c).
Proof.
  intros w e. unfold Db.update, Db.statement.
  destruct (db_fault env (db_ops w)); cbn [fst]; intro H;
    [inversion H; reflexivity | discriminate].
Qed.

(** The table has no unique index: an insert fails only as any
    statement does. *)
Lemma raises_insert (v : NewStockTick) :
  raises_only store_failure (Db.insert env v).
Proof.
  intros w e. unfold Db.insert, Db.insert_into, Db.statement.
  destruct (db_fault env (db_ops w)); cbn [fst];
    [intro H; inversion H; reflexivity|].
  rewrite stockTicksTable_accepts. cbn [fst]. intro H. discriminate.
Qed.

Lemma raises_latest_join :
  raises_only store_failure (Db.latest_join env).
Proof.
  intros w e. unfold Db.latest_join, Db.statement.
  destruct (db_fault env (db_ops w)); cbn [fst]; intro H;
    [inversion H; reflexivity | discriminate].
Qed.

(** The row of a select limited to one is a stored row. *)
Lemma first_selected_stored (c : StockTick -> bool) (n : option nat)
    (l : list StockTick) (r0 : StockTick) (more : list StockTick) :
  Db.apply_limit n (filter c l) = r0 :: more -> In r0 l.
Proof.
  intro H.
  assert (Hin : In r0 (Db.apply_limit n (filter c l)))
    by (rewrite H; left; reflexivity).
  destruct n as [n|]; cbn [Db.apply_limit] in Hin.
  - apply in_firstn in Hin. apply filter_In in Hin. tauto.
  - apply filter_In in Hin. tauto.
Qed.

(** The loop body of fetch_stock_data.ts: the saved row it reads is
    there; only a statement can fail. *)
Lemma raises_fetch_upsertTick (tick : NewStockTick) :
  raises_only store_failure (FetchStockData.upsertTick env tick).
Proof.
  intros w e. unfold FetchStockData.upsertTick, store_failure.
  unfold bind at 1. unfold Db.select at 1, Db.statement at 1.
  destruct (db_fault env (db_ops w)); cbn [fst];
    [intro H; inversion H; reflexivity|].
  cbv beta iota. cbn [Db.apply_order].
  match goal with
  | |- context [Db.apply_limit ?n (filter ?c ?l)] =>
      destruct (Db.apply_limit n (filter c l)) as [|existing0 more] eqn:Hex
  end.
  - unfold bind, Db.insert, Db.insert_into, Db.statement. world.
    destruct (db_fault env (S (db_ops w))); cbn [fst];
      [intro H; inversion H; reflexivity|].
    rewrite stockTicksTable_accepts. cbn [ret fst]. intro H. discriminate.
  - apply first_selected_stored in Hex.
    unfold bind, Db.update, Db.statement. world.
    destruct (db_fault env (S (db_ops w))); cbn [fst];
      [intro H; inversion H; reflexivity|].
    change (Db.eval_where env (where_one (eq_id (id existing0))))
      with (fun r => id r =? id existing0).
    destruct (filter (fun r => id r =? id existing0) (rows w))
      as [|u us] eqn:Hupd;
      [exfalso; exact (filter_id_nonempty _ _ Hex Hupd)|].
    cbn [map ret fst]. intro H. discriminate.
Qed.

Lemma raises_fetch_upsertLoop (ticks : list NewStockTick) :
  forall acc,
    raises_only store_failure (FetchStockData.upsertLoop env ticks acc).
Proof.
  induction ticks as [|tick rest IH]; intro acc; simpl.
  - apply raises_ret.
  - apply raises_bind; [apply raises_fetch_upsertTick | intro; apply IH].
Qed.

Lemma raises_fetchStockData (input : FetchStockDataInput) :
  raises_only store_or_provider_failure
              (FetchStockData.fetchStockData env input).
Proof.
  unfold FetchStockData.fetchStockData,
    FetchStockData.fetchFromYahooFinance.
  apply raises_rethrow.
  apply raises_bind; [apply raises_console_log | intros _].
  apply raises_bind.
  - apply raises_weaken with (P := fun e => e = ProviderError);
      [intros e ->; right; reflexivity | apply raises_request].
  - intros [|y ys]; [apply raises_ret|].
    apply raises_weaken with (P := store_failure);
      [intros e ->; left; reflexivity|].
    apply raises_bind; [apply raises_fetch_upsertLoop | intro].
    apply raises_bind; [apply raises_console_log | intro; apply raises_ret].
Qed.

Lemma raises_getHistoricalData (input : GetHistoricalDataInput) :
  raises_only store_failure
              (GetHistoricalData.getHistoricalData env input).
Proof.
  unfold GetHistoricalData.getHistoricalData.
  apply raises_rethrow.
  apply raises_bind; [apply raises_select | intro; apply raises_ret].
Qed.

(** The block of the fallback ends in a [catch] that goes on. *)
Lemma raises_chart_fallback (input : GetHistoricalDataInput)
    (s : StockSymbol) :
  raises_only store_failure (GetChartData.fallback env input s).
Proof.
  unfold GetChartData.fallback. apply raises_caught. intro e.
  apply raises_bind; [apply raises_console_error | intro; apply raises_ret].
Qed.

Lemma raises_getChartData (input : GetHistoricalDataInput) :
  raises_only store_failure (GetChartData.getChartData env input).
Proof.
  unfold GetChartData.getChartData, GetChartData.query.
  apply raises_rethrow.
  apply raises_bind; [apply raises_select | intro results].
  apply raises_bind.
  - destruct results as [|first more]; [| apply raises_ret].
    destruct (input_symbol input) as [s|];
      [apply raises_chart_fallback | apply raises_ret].
  - intros [response|]; [apply raises_ret|].
    destruct results; apply raises_ret.
Qed.

(** The loop body of [upsertStockTicks] in get_latest_prices.ts. *)
Lemma raises_latest_upsertTick (tick : GetLatestPrices.Tick) :
  raises_only store_failure (GetLatestPrices.upsertTick env tick).
Proof.
  unfold GetLatestPrices.upsertTick. apply raises_rethrow.
  intros w e. unfold store_failure.
  unfold bind at 1. unfold Db.select at 1, Db.statement at 1.
  destruct (db_fault env (db_ops w)); cbn [fst];
    [intro H; inversion H; reflexivity|].
  cbv beta iota. cbn [Db.apply_order].
  match goal with
  | |- context [Db.apply_limit ?n (filter ?c ?l)] =>
      destruct (Db.apply_limit n (filter c l)) as [|existing0 more] eqn:Hex
  end.
  - unfold bind, Db.insert, Db.insert_into, Db.statement. world.
    destruct (db_fault env (S (db_ops w))); cbn [fst];
      [intro H; inversion H; reflexivity|].
    rewrite stockTicksTable_accepts. cbn [ret hd_error fst].
    intro H. discriminate.
  - apply first_selected_stored in Hex.
    unfold bind, Db.update, Db.statement. world.
    destruct (db_fault env (S (db_ops w))); cbn [fst];
      [intro H; inversion H; reflexivity|].
    change (Db.eval_where env (where_one (eq_id (id existing0))))
      with (fun r => id r =? id existing0).
    destruct (filter (fun r => id r =? id existing0) (rows w))
      as [|u us] eqn:Hupd;
      [exfalso; exact (filter_id_nonempty _ _ Hex Hupd)|].
    cbn [map ret hd_error fst]. intro H. discriminate.
Qed.

Lemma raises_latest_upsertLoop (ticks : list GetLatestPrices.Tick) :
  forall acc,
    raises_only store_failure (GetLatestPrices.upsertLoop env ticks acc).
Proof.
  induction ticks as [|tick rest IH]; intro acc; simpl.
  - apply raises_ret.
  - apply raises_bind; [apply raises_latest_upsertTick | intro; apply IH].
Qed.

(** A provider failure ends in the [catch] of the loop over the
    symbols. *)
Lemma raises_fetchLoop (symbols : list StockSymbol) :
  forall acc,
    raises_only store_failure (GetLatestPrices.fetchLoop env symbols acc).
Proof.
  induction symbols as [|s rest IH]; intro acc; simpl.
  - apply raises_ret.
  - apply raises_bind; [| intro; apply IH].
    apply raises_caught. intro e.
    apply raises_bind;
      [apply raises_console_error | intro; apply raises_ret].
Qed.

Lemma raises_getLatestPrices (fetchFresh : bool) :
  raises_only store_failure
              (GetLatestPrices.getLatestPrices env fetchFresh).
Proof.
  unfold GetLatestPrices.getLatestPrices. apply raises_rethrow.
  apply raises_bind.
  - destruct fetchFresh; [| apply raises_ret].
    unfold GetLatestPrices.refresh.
    apply raises_bind; [apply raises_fetchLoop | intros [|t ts]].
    + apply raises_ret.
    + apply raises_bind; [| intro; apply raises_ret].
      unfold GetLatestPrices.upsertStockTicks.
      apply raises_latest_upsertLoop.
  - intros _.
    apply raises_bind; [apply raises_latest_join | intro; apply raises_ret].
Qed.

(** X2 -- The failures that reach the caller.  The only failure that
    [getHistoricalData], [getChartData] and [getLatestPrices] pass to
    their caller is the failure of a database statement;
    [fetchStockData] passes that or the failure of the provider.  No
    handler fails on reading the row an update or insert was to return,
    no insert is refused for a duplicate, and a provider failure never
    fails [getChartData] or [getLatestPrices]. *)
Theorem failures_reaching_the_caller :
  (forall input w e,
      fst (FetchStockData.fetchStockData env input w) = Err e ->
      e = StoreError \/ e = ProviderError)
  /\ (forall input w e,
         fst (GetHistoricalData.getHistoricalData env input w) = Err e ->
         e = StoreError)
  /\ (forall input w e,
         fst (GetChartData.getChartData env input w) = Err e ->
         e = StoreError)
  /\ (forall fetchFresh w e,
         fst (GetLatestPrices.getLatestPrices env fetchFresh w) = Err e ->
         e = StoreError).
Proof.
  split; [exact raises_fetchStockData|].
  split; [exact raises_getHistoricalData|].
  split; [exact raises_getChartData | exact raises_getLatestPrices].
Qed.

End Raises.

(* ================================================================== *)
(** * The requests that go to the provider *)

Lemma provider_events_app (t u : list Event) :
  provider_events (t ++ u) = provider_events t ++ provider_events u.
Proof. apply filter_app. Qed.

Lemma same_requests_refl (w : World) : same_requests w w.
Proof. reflexivity. Qed.

Lemma same_requests_trans (a b c : World) :
  same_requests a b -> same_requests b c -> same_requests a c.
Proof. unfold same_requests. intros H1 H2. rewrite H2. exact H1. Qed.

Section Requests.
Variable env : Env.

Lemma silent_console_log (msg : string) :
  stepwise same_requests (console_log msg).
Proof. intro w. reflexivity. Qed.

Lemma silent_console_error (msg : string) :
  stepwise same_requests (console_error msg).
Proof. intro w. reflexivity. Qed.

Lemma silent_statement {A : Type} (op : DbOp)
    (run : World -> Result A * World) :
  (forall w, trace (snd (run w)) = trace w) ->
  stepwise same_requests (Db.statement env op run).
Proof.
  intros Hrun w. unfold same_requests, Db.statement.
  destruct (db_fault env (db_ops w)).
  - cbn [snd]. world. rewrite provider_events_app. apply app_nil_r.
  - specialize (Hrun w). destruct (run w) as [[a|e] w1]; cbn [snd] in *;
      world; rewrite provider_events_app, Hrun; apply app_nil_r.
Qed.

Lemma silent_select (c : Where) (o : bool) (l : option nat) :
  stepwise same_requests (Db.select env c o l).
Proof. apply silent_statement. reflexivity. Qed.

Lemma silent_update (v : OHLCV) (c : Where) :
  stepwise same_requests (Db.update env v c).
Proof. apply silent_statement. reflexivity. Qed.

Lemma silent_insert (v : NewStockTick) :
  stepwise same_requests (Db.insert env v).
Proof.
  apply silent_statement. intro w.
  destruct (violated_index stockTicksTable (rows w) (Db.new_row env v w));
    reflexivity.
Qed.

Lemma silent_latest_join : stepwise same_requests (Db.latest_join env).
Proof. apply silent_statement. reflexivity. Qed.

(** The premises of the lemmas on [stepwise], for [same_requests];
    there is none for the request itself. *)
Ltac silent :=
  first [ exact same_requests_refl | exact same_requests_trans
        | exact silent_console_log | exact silent_console_error
        | exact silent_select | exact silent_update
        | exact silent_insert | exact silent_latest_join ].

Lemma silent_ret {A : Type} (a : A) : stepwise same_requests (ret a).
Proof. apply stepwise_ret. silent. Qed.

Lemma silent_throw {A : Type} (e : Error) :
  stepwise same_requests (@throw A e).
Proof. apply stepwise_throw. silent. Qed.

Lemma silent_bind {A B : Type} (m : M A) (k : A -> M B) :
  stepwise same_requests m -> (forall a, stepwise same_requests (k a)) ->
  stepwise same_requests (bind m k).
Proof. apply stepwise_bind. silent. Qed.

Lemma silent_try {A : Type} (m : M A) (h : Error -> M A) :
  stepwise same_requests m -> (forall e, stepwise same_requests (h e)) ->
  stepwise same_requests (try_catch m h).
Proof. apply stepwise_try. silent. Qed.

Lemma emits_request (s : StockSymbol) (i p : string) :
  emits [EvProvider s i p] (Yahoo.request env s i p).
Proof.
  intro w. unfold Yahoo.request.
  destruct (provider env s i p (provider_calls w)); cbn [snd]; world;
    rewrite provider_events_app; reflexivity.
Qed.

(** What follows the requests sends none. *)
Lemma emits_bind {A B : Type} (evs : list Event) (m : M A)
    (k : A -> M B) :
  emits evs m -> (forall a, stepwise same_requests (k a)) ->
  emits evs (bind m k).
Proof.
  intros Hm Hk w. unfold bind.
  specialize (Hm w). destruct (m w) as [[a|e] w1]; cbn [snd] in *.
  - rewrite (Hk a w1). exact Hm.
  - exact Hm.
Qed.

Lemma emits_try {A : Type} (evs : list Event) (m : M A)
    (h : Error -> M A) :
  emits evs m -> (forall e, stepwise same_requests (h e)) ->
  emits evs (try_catch m h).
Proof.
  intros Hm Hh w. unfold try_catch.
  specialize (Hm w). destruct (m w) as [[a|e] w1]; cbn [snd] in *.
  - exact Hm.
  - rewrite (Hh e w1). exact Hm.
Qed.

(** A line on the console first. *)
Lemma emits_after_log {A : Type} (evs : list Event) (msg : string)
    (m : M A) :
  emits evs m -> emits evs (console_log msg;;; m).
Proof.
  intros Hm w. unfold bind. cbn [console_log]. rewrite Hm. reflexivity.
Qed.

(** A computation that always returns, followed by one that sends
    more. *)
Lemma emits_then {A B : Type} (evs1 evs2 : list Event) (m : M A)
    (k : A -> M B) :
  emits evs1 m -> (forall w, exists a, fst (m w) = Ok a) ->
  (forall a, emits evs2 (k a)) ->
  emits (evs1 ++ evs2) (bind m k).
Proof.
  intros Hm Hret Hk w. unfold bind.
  specialize (Hm w). destruct (Hret w) as [a Ha].
  destruct (m w) as [[a'|e] w1]; cbn [fst snd] in *; [|discriminate].
  rewrite (Hk a' w1), Hm, app_assoc. reflexivity.
Qed.

(** ** batch_fetch_stocks.ts *)

Lemma emits_fetchStockDataForSymbol (s : StockSymbol) (i p : string) :
  emits [EvProvider s i p]
        (BatchFetchStocks.fetchStockDataForSymbol env s i p).
Proof.
  unfold BatchFetchStocks.fetchStockDataForSymbol,
    BatchFetchStocks.simulateYahooFinanceAPI.
  apply emits_after_log. apply emits_bind; [apply emits_request|].
  intros [|y ys].
  - apply silent_bind; [apply silent_console_log | intro; apply silent_ret].
  - apply silent_bind;
      [apply stepwise_batch_upsertLoop; silent | intro].
    apply silent_bind; [apply silent_console_log | intro; apply silent_ret].
Qed.

(** One round of [for (const symbol of input.symbols)]: the request
    for the symbol goes out and the round returns, whatever failed. *)
Lemma emits_symbol_round (input : BatchFetchInput) (s : StockSymbol)
    (acc : list StockTick) (errors : list StockSymbol) :
  emits [EvProvider s (interval_str (batch_interval input))
                    (batch_period input)]
    (try_catch
       (console_log "Fetching data for";;;
        fetched <-
          BatchFetchStocks.fetchStockDataForSymbol env s
            (interval_str (batch_interval input)) (batch_period input);;
        console_log "Successfully fetched ticks for";;;
        ret (acc ++ fetched, errors))
       (fun error =>
          console_error "Failed to fetch data for";;;
          ret (acc, errors ++ [s]))).
Proof.
  apply emits_try.
  - apply emits_after_log.
    apply emits_bind; [apply emits_fetchStockDataForSymbol | intro].
    apply silent_bind; [apply silent_console_log | intro; apply silent_ret].
  - intro e.
    apply silent_bind; [apply silent_console_error | intro; apply silent_ret].
Qed.

Lemma symbol_round_returns {A : Type} (m : M A) (msg : string) (a : A)
    (w : World) :
  exists a', fst (try_catch m (fun error => console_error msg;;; ret a) w)
             = Ok a'.
Proof.
  unfold try_catch. destruct (m w) as [[x|e] w1].
  - exists x. reflexivity.
  - exists a. reflexivity.
Qed.

Lemma emits_symbolLoop (input : BatchFetchInput)
    (symbols : list StockSymbol) :
  forall acc errors,
    emits (map (fun s => EvProvider s (interval_str (batch_interval input))
                                    (batch_period input)) symbols)
          (BatchFetchStocks.symbolLoop env input symbols acc errors).
Proof.
  induction symbols as [|s rest IH]; intros acc errors.
  - intro w. cbn [map BatchFetchStocks.symbolLoop ret snd].
    rewrite app_nil_r. reflexivity.
  - cbn [map BatchFetchStocks.symbolLoop].
    change (?e :: ?l) with ([e] ++ l).
    apply emits_then.
    + apply emits_symbol_round.
    + intro w. apply symbol_round_returns.
    + intro step. apply IH.
Qed.

Lemma emits_batchFetchStocks (input : BatchFetchInput) :
  emits (map (fun s => EvProvider s (interval_str (batch_interval input))
                                  (batch_period input))
             (batch_symbols input))
        (BatchFetchStocks.batchFetchStocks env input).
Proof.
  unfold BatchFetchStocks.batchFetchStocks.
  apply emits_try.
  - apply emits_after_log.
    apply emits_bind; [apply emits_symbolLoop | intros [ticks errors]].
    apply silent_bind; [apply silent_console_log | intro].
    apply silent_bind.
    + cbn [snd]. destruct errors;
        [apply silent_ret | apply silent_console_log].
    + intro. apply silent_bind;
        [apply silent_console_log | intro; apply silent_ret].
  - intro e.
    apply silent_bind; [apply silent_console_error | intro; apply silent_throw].
Qed.

(** X3 -- The requests of a batch.  Whatever the provider answers and
    whichever statements fail, [batchFetchStocks] sends the provider
    exactly one request per symbol of its input, in the order of the
    input, each with the interval and the period of the input, and no
    other request: a symbol that fails does not stop the symbols after
    it, and none is retried. *)
Theorem batch_requests_each_symbol_once (input : BatchFetchInput)
    (w : World) :
  provider_events
    (trace (snd (BatchFetchStocks.batchFetchStocks env input w)))
  = provider_events (trace w)
    ++ map (fun s => EvProvider s (interval_str (batch_interval input))
                                (batch_period input))
           (batch_symbols input).
Proof.
  exact (emits_batchFetchStocks input w).
Qed.

(** ** get_latest_prices.ts *)

Lemma emits_fetchLoop (symbols : list StockSymbol) :
  forall acc,
    emits (map (fun s => EvProvider s "1m" "1d") symbols)
          (GetLatestPrices.fetchLoop env symbols acc).
Proof.
  induction symbols as [|s rest IH]; intro acc.
  - intro w. cbn [map GetLatestPrices.fetchLoop ret snd].
    rewrite app_nil_r. reflexivity.
  - cbn [map GetLatestPrices.fetchLoop].
    change (?e :: ?l) with ([e] ++ l).
    apply emits_then.
    + apply emits_try.
      * apply emits_bind;
          [apply emits_request | intro; apply silent_ret].
      * intro e. apply silent_bind;
          [apply silent_console_error | intro; apply silent_ret].
    + intro w. apply symbol_round_returns.
    + intro step. apply IH.
Qed.

Lemma emits_getLatestPrices_fresh :
  emits (map (fun s => EvProvider s "1m" "1d")
             [META; AAPL; AMZN; GOOG; MSFT; NVDA])
        (GetLatestPrices.getLatestPrices env true).
Proof.
  unfold GetLatestPrices.getLatestPrices. apply emits_try.
  - apply emits_bind.
    + unfold GetLatestPrices.refresh.
      apply emits_bind; [apply emits_fetchLoop | intros [|t ts]].
      * apply silent_ret.
      * apply silent_bind; [| intro; apply silent_ret].
        apply stepwise_latest_upsertStockTicks; silent.
    + intro. apply silent_bind;
        [apply silent_latest_join | intro; apply silent_ret].
  - intro e.
    apply silent_bind; [apply silent_console_error | intro; apply silent_throw].
Qed.

(** X4 -- The requests of a refresh.  [getLatestPrices(true)] sends the
    provider one request, for interval '1m' and period '1d', for every
    symbol that [getAllSymbols] returns, in that order, and no other,
    whatever the provider answers and whichever statements fail; these
    are all the symbols of the schema, each once.
    [getLatestPrices(false)] sends none. *)
Theorem refresh_requests_every_symbol (w : World) :
  exists symbols,
    GetAllSymbols.getAllSymbols w = (Ok symbols, w)
    /\ NoDup symbols
    /\ (forall s : StockSymbol, In s symbols)
    /\ provider_events
         (trace (snd (GetLatestPrices.getLatestPrices env true w)))
       = provider_events (trace w)
         ++ map (fun s => EvProvider s "1m" "1d") symbols
    /\ provider_events
         (trace (snd (GetLatestPrices.getLatestPrices env false w)))
       = provider_events (trace w).
Proof.
  eexists. split; [reflexivity|].
  split; [repeat constructor; simpl; intuition discriminate|].
  split; [intro s; destruct s; simpl; tauto|].
  split; [apply emits_getLatestPrices_fresh|].
  revert w.
  change (stepwise same_requests (GetLatestPrices.getLatestPrices env false)).
  unfold GetLatestPrices.getLatestPrices. apply silent_try.
  - apply silent_bind; [apply silent_ret | intro].
    apply silent_bind; [apply silent_latest_join | intro; apply silent_ret].
  - intro e.
    apply silent_bind; [apply silent_console_error | intro; apply silent_throw].
Qed.

Lemma emits_fetchStockData (input : FetchStockDataInput) :
  emits [EvProvider (fetch_symbol input)
                    (interval_str (fetch_interval input))
                    (fetch_period input)]
        (FetchStockData.fetchStockData env input).
Proof.
  unfold FetchStockData.fetchStockData, FetchStockData.fetchFromYahooFinance.
  apply emits_try.
  - apply emits_after_log.
    apply emits_bind; [apply emits_request | intros [|p ps]].
    + apply silent_ret.
    + apply silent_bind; [apply stepwise_fetch_upsertLoop; silent | intro].
      apply silent_bind;
        [apply silent_console_log | intro; apply silent_ret].
  - intro e.
    apply silent_bind; [apply silent_console_error | intro; apply silent_throw].
Qed.

Lemma silent_getHistoricalData (input : GetHistoricalDataInput) :
  stepwise same_requests (GetHistoricalData.getHistoricalData env input).
Proof. apply stepwise_getHistoricalData; silent. Qed.

Lemma silent_getLatestPrices_stored :
  stepwise same_requests (GetLatestPrices.getLatestPrices env false).
Proof.
  unfold GetLatestPrices.getLatestPrices. apply silent_try.
  - apply silent_bind; [apply silent_ret | intro].
    apply silent_bind; [apply silent_latest_join | intro; apply silent_ret].
  - intro e.
    apply silent_bind; [apply silent_console_error | intro; apply silent_throw].
Qed.

End Requests.

(* ================================================================== *)
(** * The handlers that only read *)

Section ReadOnly.
Variable env : Env.

(** X5 -- The queries never write.  [getHistoricalData] and
    [getLatestPrices()] (no refresh asked) send the database exactly one
    statement and the provider none, and leave the table and the serial
    of the ids as they were, whether the statement succeeds or fails;
    [getAllSymbols] touches nothing at all. *)
Theorem queries_never_write :
  (forall input w,
      rows (snd (GetHistoricalData.getHistoricalData env input w)) = rows w
      /\ next_id (snd (GetHistoricalData.getHistoricalData env input w))
         = next_id w
      /\ provider_calls (snd (GetHistoricalData.getHistoricalData env input w))
         = provider_calls w
      /\ db_ops (snd (GetHistoricalData.getHistoricalData env input w))
         = S (db_ops w))
  /\ (forall w,
         rows (snd (GetLatestPrices.getLatestPrices env false w)) = rows w
         /\ next_id (snd (GetLatestPrices.getLatestPrices env false w))
            = next_id w
         /\ provider_calls (snd (GetLatestPrices.getLatestPrices env false w))
            = provider_calls w
         /\ db_ops (snd (GetLatestPrices.getLatestPrices env false w))
            = S (db_ops w))
  /\ (forall w, snd (GetAllSymbols.getAllSymbols w) = w).
Proof.
  split; [| split; [| reflexivity]].
  - intros input w.
    unfold GetHistoricalData.getHistoricalData, try_catch, bind,
      Db.select, Db.statement.
    destruct (db_fault env (db_ops w)); repeat split; reflexivity.
  - intro w.
    unfold GetLatestPrices.getLatestPrices, try_catch, bind, ret,
      Db.latest_join, Db.statement.
    destruct (db_fault env (db_ops w)); repeat split; reflexivity.
Qed.

End ReadOnly.

(* ================================================================== *)
(** * fetchStockData: what it returns *)

Lemma filter_id_absent (i : Z) (l : list StockTick) :
  ~ In i (map id l) -> filter (fun r => id r =? i) l = [].
Proof.
  induction l as [|a l IH]; intro Hn; [reflexivity|].
  cbn [filter]. destruct (id a =? i) eqn:E.
  - exfalso. apply Hn. left. apply Z.eqb_eq. exact E.
  - apply IH. intro H. apply Hn. right. exact H.
Qed.

(** With distinct ids, the id of a stored row selects that row. *)
Lemma filter_id_unique (r0 : StockTick) (l : list StockTick) :
  NoDup (map id l) -> In r0 l -> filter (fun r => id r =? id r0) l = [r0].
Proof.
  induction l as [|a l IH]; intros Hnd Hin; [contradiction|].
  cbn [map] in Hnd. inversion Hnd as [|? ? Hnotin Hrest]; subst.
  cbn [filter]. destruct Hin as [->|Hin].
  - rewrite Z.eqb_refl, (filter_id_absent _ _ Hnotin). reflexivity.
  - assert (Hne : (id a =? id r0) = false).
    { apply Z.eqb_neq. intro E. apply Hnotin. rewrite E.
      apply in_map. exact Hin. }
    rewrite Hne. apply IH; assumption.
Qed.

Lemma map_id_update (c : StockTick -> bool) (v : OHLCV)
    (l : list StockTick) :
  map id (map (fun r => if c r then set_ohlcv r v else r) l) = map id l.
Proof.
  rewrite map_map. apply map_ext. intro r. destruct (c r); reflexivity.
Qed.

Section FetchReturns.
Variable env : Env.

(** X6 -- [fetchStockData] without points.  When the provider rejects
    the request, [fetchStockData] fails with that failure after one
    line on [console.error], and when the provider returns no point it
    returns the empty list; in both cases no statement goes to the
    database and the table is as it was. *)
Theorem fetchStockData_without_points (input : FetchStockDataInput)
    (w : World) :
  (provider env (fetch_symbol input) (interval_str (fetch_interval input))
            (fetch_period input) (provider_calls w) = None ->
   exists w',
     FetchStockData.fetchStockData env input w = (Err ProviderError, w')
     /\ rows w' = rows w /\ db_ops w' = db_ops w
     /\ error_lines (console w') = S (error_lines (console w)))
  /\ (provider env (fetch_symbol input)
               (interval_str (fetch_interval input))
               (fetch_period input) (provider_calls w) = Some [] ->
      exists w',
        FetchStockData.fetchStockData env input w = (Ok [], w')
        /\ rows w' = rows w /\ db_ops w' = db_ops w
        /\ error_lines (console w') = error_lines (console w)).
Proof.
  split; intro Hp;
    unfold FetchStockData.fetchStockData,
      FetchStockData.fetchFromYahooFinance, try_catch, bind,
      Yahoo.request;
    cbn [console_log provider_calls]; rewrite Hp;
    eexists; (split; [reflexivity|]);
    cbn [snd console_error throw ret]; world;
    (split; [reflexivity|]); (split; [reflexivity|]);
    rewrite ?error_lines_app; cbn [error_lines]; lia.
Qed.

End FetchReturns.

Section FetchSaves.
Variable env : Env.

(** One round of the loop of fetch_stock_data.ts on a table with
    distinct ids, when the database answers: the tick saved. *)
Lemma fetch_upsertTick_saved (tick : NewStockTick) (w : World) :
  db_fault env (db_ops w) = false ->
  db_fault env (S (db_ops w)) = false ->
  ids_fresh w ->
  exists saved w',
    FetchStockData.upsertTick env tick w = (Ok saved, w')
    /\ tick_content saved
       = (new_symbol tick, new_timestamp tick, new_ohlcv tick,
          pg_interval_in env (new_interval tick))
    /\ In saved (rows w')
    /\ ids_fresh w'
    /\ db_ops w' = S (S (db_ops w))
    /\ (forall k, In k (map natural_key (rows w)) ->
                  In k (map natural_key (rows w'))).
Proof.
  intros Hf0 Hf1 [Hnd Hlt].
  unfold FetchStockData.upsertTick.
  unfold bind at 1. unfold Db.select at 1, Db.statement at 1.
  rewrite Hf0. cbv beta iota. cbn [Db.apply_order Db.apply_limit].
  rewrite key_filter.
  destruct (rows_with_key
              (new_symbol tick, new_timestamp tick,
               pg_interval_in env (new_interval tick)) (rows w))
    as [|existing0 tl] eqn:Hex.
  - unfold bind, Db.insert, Db.insert_into, Db.statement.
    cbn [firstn]. world. rewrite Hf1, stockTicksTable_accepts.
    cbn [ret]. world.
    eexists; eexists. split; [reflexivity|].
    split; [reflexivity|].
    split; [apply in_or_app; right; left; reflexivity|].
    split; [|split; [reflexivity|]].
    + split; world.
      * rewrite map_app. cbn [map Db.new_row id]. world.
        apply NoDup_app; [exact Hnd | repeat constructor; simpl; tauto|].
        intros i Hi [<-|[]].
        apply in_map_iff in Hi. destruct Hi as [r [Hr Hin]].
        rewrite Forall_forall in Hlt. specialize (Hlt r Hin).
        cbn beta in Hlt. lia.
      * apply Forall_app. split.
        -- eapply Forall_impl; [|exact Hlt]. intros r Hr. cbn beta in *. lia.
        -- constructor; [cbn [Db.new_row id]; world; lia | constructor].
    + world. intros k Hk. rewrite map_app. apply in_or_app. left. exact Hk.
  - pose proof (rows_with_key_head _ _ Hex) as Hin.
    assert (Hkey : natural_key existing0
                   = (new_symbol tick, new_timestamp tick,
                      pg_interval_in env (new_interval tick))).
    { assert (H : In existing0
                     (rows_with_key
                        (new_symbol tick, new_timestamp tick,
                         pg_interval_in env (new_interval tick)) (rows w)))
        by (rewrite Hex; left; reflexivity).
      apply filter_In in H. apply key_eqb_eq. exact (proj2 H). }
    cbn [firstn].
    unfold bind, Db.update, Db.statement. world. rewrite Hf1.
    change (Db.eval_where env (where_one (eq_id (id existing0))))
      with (fun r => id r =? id existing0).
    rewrite (filter_id_unique existing0 (rows w) Hnd Hin). cbn [map ret]. world.
    eexists; eexists. split; [reflexivity|].
    split.
    { unfold tick_content. cbn [set_ohlcv symbol timestamp ohlcv interval].
      unfold natural_key in Hkey. inversion Hkey. reflexivity. }
    split.
    { apply in_map_iff. exists existing0. rewrite Z.eqb_refl.
      split; [reflexivity | exact Hin]. }
    split; [|split; [reflexivity|]].
    + split; world.
      * rewrite map_id_update. exact Hnd.
      * rewrite Forall_forall in Hlt |- *. intros r Hr.
        apply in_map_iff in Hr. destruct Hr as [r' [<- Hr']].
        specialize (Hlt r' Hr').
        destruct (id r' =? id existing0); exact Hlt.
    + world. intros k Hk. rewrite map_key_update. exact Hk.
Qed.

(** The loop of fetch_stock_data.ts, when the database answers. *)
Lemma fetch_upsertLoop_saved (ticks : list NewStockTick) :
  forall (acc : list StockTick) (w : World),
    no_fault_from env (db_ops w) ->
    ids_fresh w ->
    exists saved w',
      FetchStockData.upsertLoop env ticks acc w = (Ok (acc ++ saved), w')
      /\ map tick_content saved
         = map (fun tick => (new_symbol tick, new_timestamp tick,
                             new_ohlcv tick,
                             pg_interval_in env (new_interval tick)))
               ticks
      /\ (forall t, In t saved ->
                    In (natural_key t) (map natural_key (rows w')))
      /\ db_ops w' = (db_ops w + 2 * List.length ticks)%nat
      /\ (forall k, In k (map natural_key (rows w)) ->
                    In k (map natural_key (rows w'))).
Proof.
  induction ticks as [|tick rest IH]; intros acc w Hnf Hids.
  - exists [], w. cbn [FetchStockData.upsertLoop ret map List.length].
    rewrite app_nil_r. split; [reflexivity|]. split; [reflexivity|].
    split; [intros t []|]. split; [lia | auto].
  - destruct (@fetch_upsertTick_saved tick w)
      as [s1 [w1 [E1 [Hc1 [Hin1 [Hids1 [Hops1 Hkeys1]]]]]]];
      try (apply Hnf; lia); try exact Hids.
    destruct (IH (acc ++ [s1]) w1)
      as [more [w2 [E2 [Hc2 [Hin2 [Hops2 Hkeys2]]]]]];
      [intros m Hm; apply Hnf; lia | exact Hids1 |].
    exists (s1 :: more), w2.
    cbn [FetchStockData.upsertLoop]. unfold bind. rewrite E1, E2.
    split; [rewrite <- app_assoc; reflexivity|].
    split; [cbn [map]; rewrite Hc1, Hc2; reflexivity|].
    split.
    { intros t [<-|Ht]; [|apply Hin2; exact Ht].
      apply Hkeys2. apply in_map. exact Hin1. }
    split; [cbn [List.length]; lia|].
    intros k Hk. apply Hkeys2. apply Hkeys1. exact Hk.
Qed.

(** X7 -- What [fetchStockData] returns.  When the database answers, on
    a table with distinct ids, [fetchStockData] returns one tick per
    point of the provider, in the order of the points: the tick has the
    symbol of the request, the timestamp of the point in milliseconds,
    its open, high, low, close and volume, and the interval as the
    column holds it (the handler does not translate it back).  Each
    tick returned is stored under its natural key, and the call has
    sent two statements per point. *)
Theorem fetchStockData_returns_the_points (input : FetchStockDataInput)
    (w : World) (points : list YahooFinanceData) :
  no_fault_from env (db_ops w) ->
  ids_fresh w ->
  provider env (fetch_symbol input) (interval_str (fetch_interval input))
           (fetch_period input) (provider_calls w) = Some points ->
  exists ticks w',
    FetchStockData.fetchStockData env input w = (Ok ticks, w')
    /\ map tick_content ticks
       = map (fun data =>
                (fetch_symbol input, yahoo_timestamp data * 1000,
                 yahoo_ohlcv data,
                 pg_interval_in env (interval_str (fetch_interval input))))
             points
    /\ (forall t, In t ticks ->
                  In (natural_key t) (map natural_key (rows w')))
    /\ db_ops w' = (db_ops w + 2 * List.length points)%nat.
Proof.
  intros Hnf Hids Hp.
  unfold FetchStockData.fetchStockData,
    FetchStockData.fetchFromYahooFinance, try_catch.
  unfold bind at 1. cbn [console_log]. unfold bind at 1.
  unfold Yahoo.request. cbn [provider_calls]. rewrite Hp.
  destruct points as [|y ys].
  - eexists; eexists. split; [reflexivity|]. split; [reflexivity|].
    split; [intros t []|]. cbn [snd ret List.length]. world. lia.
  - unfold bind at 1.
    match goal with
    | |- context [FetchStockData.upsertLoop env ?ts ?acc ?w1] =>
        destruct (@fetch_upsertLoop_saved ts acc w1)
          as [saved [w2 [E [Hc [Hin [Hops _]]]]]];
          [exact Hnf | exact Hids |]
    end.
    rewrite E. cbn [app].
    unfold bind. cbn [console_log ret].
    eexists; eexists. split; [reflexivity|].
    split.
    { rewrite Hc. unfold FetchStockData.ticksToUpsert. rewrite map_map.
      reflexivity. }
    split; [exact Hin|].
    rewrite Hops. unfold FetchStockData.ticksToUpsert.
    rewrite length_map. reflexivity.
Qed.

End FetchSaves.

(* ================================================================== *)
(** * getChartData: the shape of the response *)

Section ChartShape.
Variable env : Env.

Lemma chart_rows_length (input : GetHistoricalDataInput)
    (stored : list StockTick) :
  (List.length (chart_rows env input stored) <= input_limit input)%nat.
Proof. unfold chart_rows. apply firstn_le_length. Qed.

Lemma chart_query_length (input : GetHistoricalDataInput) (w : World)
    (found : list StockTick) (w' : World) :
  GetChartData.query env input w = (Ok found, w') ->
  (List.length found <= input_limit input)%nat.
Proof.
  destruct (db_fault env (db_ops w)) eqn:Hf.
  - rewrite chart_query_fails by exact Hf. discriminate.
  - rewrite chart_query_ok by exact Hf. intro H. inversion H.
    apply chart_rows_length.
Qed.

(** The block of the fallback returns, with a response for the symbol
    when nothing failed in it. *)
Lemma chart_fallback_shape (input : GetHistoricalDataInput)
    (s : StockSymbol) (w : World) :
  exists early w',
    GetChartData.fallback env input s w = (Ok early, w')
    /\ match early with
       | Some response =>
           chart_symbol response = s
           /\ chart_interval response = input_interval input
           /\ (List.length (chart_data response) <= input_limit input)%nat
       | None => True
       end.
Proof.
  unfold GetChartData.fallback, try_catch.
  match goal with
  | |- context [match ?m w with _ => _ end] =>
      destruct (m w) as [[a|e] w1] eqn:E
  end.
  - exists a, w1. split; [reflexivity|].
    revert E. unfold bind at 1. cbn [console_log]. unfold bind at 1.
    match goal with
    | |- context [GetChartData.fetchFromYahooFinance env ?x ?y ?z ?w0] =>
        destruct (GetChartData.fetchFromYahooFinance env x y z w0)
          as [[pts|e1] w2]
    end; [|discriminate].
    unfold bind at 1.
    match goal with
    | |- context [GetChartData.upsertStockTicks env ?ts ?w0] =>
        destruct (GetChartData.upsertStockTicks env ts w0) as [[u|e2] w3]
    end; [|discriminate].
    unfold bind at 1.
    destruct (GetChartData.query env input w3) as [[newResults|e3] w4] eqn:Q;
      [|discriminate].
    unfold ret. intro H; inversion H; subst.
    split; [reflexivity|]. split; [reflexivity|].
    cbn [chart_data]. unfold GetChartData.chartData. rewrite length_map.
    exact (chart_query_length _ _ Q).
  - eexists; eexists. split; [reflexivity | exact I].
Qed.

(** X8 -- The shape of a chart response.  When its first query is
    answered, [getChartData] returns a response: it carries the
    interval of the request and at most [limit] points; its symbol is
    the symbol of the request when there is one.  Without a symbol in
    the request the response is named after the newest tick found, or
    'AAPL' when none is found, and the call neither writes to the table
    nor asks the provider. *)
Theorem chart_response_shape (input : GetHistoricalDataInput) (w : World) :
  db_fault env (db_ops w) = false ->
  exists response w',
    GetChartData.getChartData env input w = (Ok response, w')
    /\ chart_interval response = input_interval input
    /\ (List.length (chart_data response) <= input_limit input)%nat
    /\ match input_symbol input with
       | Some s => chart_symbol response = s
       | None =>
           chart_symbol response
           = match chart_rows env input (rows w) with
             | [] => AAPL
             | first :: _ => symbol first
             end
           /\ rows w' = rows w
           /\ provider_calls w' = provider_calls w
       end.
Proof.
  intro Hf.
  pose proof (chart_rows_length input (rows w)) as Hlen.
  unfold GetChartData.getChartData, try_catch. unfold bind at 1.
  rewrite chart_query_ok by exact Hf.
  destruct (chart_rows env input (rows w)) as [|first more] eqn:Hrows.
  - destruct (input_symbol input) as [s|] eqn:Hs.
    + unfold bind at 1.
      match goal with
      | |- context [GetChartData.fallback env input s ?w1] =>
          destruct (chart_fallback_shape input s w1)
            as [early [w2 [E Hearly]]]
      end.
      rewrite E. destruct early as [response|].
      * destruct Hearly as [H1 [H2 H3]].
        exists response, w2. cbn [ret].
        repeat split; assumption.
      * eexists; eexists. cbn [ret]. split; [reflexivity|].
        cbn [chart_interval chart_data chart_symbol List.length].
        repeat split; lia.
    + unfold bind at 1. cbn [ret].
      eexists; eexists. split; [reflexivity|].
      cbn [chart_interval chart_data chart_symbol List.length].
      repeat split; lia.
  - unfold bind at 1. cbn [ret].
    eexists; eexists. split; [reflexivity|].
    cbn [chart_interval chart_data chart_symbol].
    split; [reflexivity|].
    split; [unfold GetChartData.chartData; rewrite length_map; exact Hlen|].
    destruct (input_symbol input); repeat split; reflexivity.
Qed.

End ChartShape.

(* ================================================================== *)
(** * getHistoricalData: the ticks as the caller sees them *)

Section HistoryLabels.
Variable env : Env.

(** X9 -- The ticks of [getHistoricalData] as the caller sees them.  On
    a column that holds the encoding of the requested interval as it is
    given, every tick that [getHistoricalData] returns is labelled with
    the interval of the request, except that a request for '60m' gets
    its ticks labelled '1h'; it has the symbol of the request when
    there is one and its timestamp lies between startDate and endDate
    when these are given. *)
Theorem history_ticks_match_the_request (input : GetHistoricalDataInput)
    (w : World) :
  db_fault env (db_ops w) = false ->
  pg_interval_in env (RangeQuerySpec.encode (input_interval input))
  = RangeQuerySpec.encode (input_interval input) ->
  exists ticks w',
    GetHistoricalData.getHistoricalData env input w = (Ok ticks, w')
    /\ forall t, In t ticks ->
         interval t = match input_interval input with
                      | I60m => "1h"
                      | i => interval_str i
                      end
         /\ (forall s, input_symbol input = Some s -> symbol t = s)
         /\ (forall d, input_startDate input = Some d -> d <= timestamp t)
         /\ (forall d, input_endDate input = Some d -> timestamp t <= d).
Proof.
  intros Hf Hcol.
  rewrite (getHistoricalData_refines env input w Hf).
  eexists; eexists. split; [reflexivity|].
  intros t Ht. unfold RangeQuerySpec.queryHistory in Ht.
  apply in_map_iff in Ht. destruct Ht as [r [<- Hr]].
  apply selected_sound in Hr. destruct Hr as [_ Hsat].
  unfold RangeQuerySpec.satisfies in Hsat.
  rewrite !andb_true_iff in Hsat.
  destruct Hsat as [[[Hsym Hint] Hstart] Hend].
  unfold RangeQuerySpec.returned.
  cbn [set_interval interval symbol timestamp].
  split.
  - unfold RangeQuerySpec.interval_ok in Hint.
    apply String.eqb_eq in Hint. rewrite Hint, Hcol.
    destruct (input_interval input); reflexivity.
  - split; [| split].
    + intros s Hs. unfold RangeQuerySpec.symbol_ok in Hsym.
      rewrite Hs in Hsym. apply symbol_eqb_eq. exact Hsym.
    + intros d Hd. unfold RangeQuerySpec.start_ok in Hstart.
      rewrite Hd in Hstart. apply Z.leb_le. exact Hstart.
    + intros d Hd. unfold RangeQuerySpec.end_ok in Hend.
      rewrite Hd in Hend. apply Z.leb_le. exact Hend.
Qed.

End HistoryLabels.

(* ================================================================== *)
(** * The decoding tables of the three handlers *)

(** Decides a look-up in a table of literals for an unknown key, one
    literal after the other. *)
Ltac by_key s :=
  repeat match goal with
         | |- context [String.eqb ?k s] =>
             let E := fresh "E" in
             destruct (String.eqb k s) eqn:E;
             [ apply String.eqb_eq in E; subst s;
               first [ reflexivity | congruence | exfalso; tauto ]
             | ]
         end.

(** X10 -- Where the decodings differ.  The three handlers that
    translate a stored interval back ([normalizeInterval] of
    batch_fetch_stocks, [intervalMapping] of get_latest_prices,
    [convertIntervalFromPostgres] of get_historical_data) return the
    same token for every stored value, known to their tables or not,
    with these exceptions only: '01:00:00' is '60m' for the batch
    handler and '1h' for the other two; '1 mon' and '3 mons' are
    translated by the batch and latest-price handlers only, '1 month'
    and '3 months' by the range query only. *)
Theorem decodings_differ_only_on (s : string) :
  (BatchFetchStocks.normalizeInterval s = GetLatestPrices.schemaInterval s s
   <-> s <> "01:00:00")
  /\ (GetHistoricalData.convertIntervalFromPostgres s
      = GetLatestPrices.schemaInterval s s
      <-> ~ In s ["1 mon"; "3 mons"; "1 month"; "3 months"]).
Proof.
  split; split.
  - intros H ->. vm_compute in H. discriminate.
  - intro Hne.
    unfold BatchFetchStocks.normalizeInterval,
      GetLatestPrices.schemaInterval, BatchFetchStocks.intervalMap,
      GetLatestPrices.intervalMapping.
    cbn [lookup]. by_key s. reflexivity.
  - intros H [<-|[<-|[<-|[<-|[]]]]]; vm_compute in H; discriminate.
  - intro Hne. cbn [In] in Hne.
    unfold GetHistoricalData.convertIntervalFromPostgres,
      GetLatestPrices.schemaInterval, GetHistoricalData.reverseMap,
      GetLatestPrices.intervalMapping.
    cbn [lookup]. by_key s. reflexivity.
Qed.

(* ================================================================== *)
(** * The simulated provider of get_chart_data.ts *)

Lemma intervalMs_seconds (interval : string) :
  exists k, 60 <= k /\ ChartSimulation.intervalMs interval = k * 1000.
Proof.
  unfold ChartSimulation.intervalMs.
  destruct (String.eqb interval "1m");
    [exists 60; lia|].
  destruct (String.eqb interval "5m"); [exists 300; lia | exists 3600; lia].
Qed.

(** X11 -- The simulated chart provider.  Whatever the clock, the
    symbol and the interval, [fetchFromYahooFinance] of
    get_chart_data.ts returns ten points in strictly ascending order of
    timestamp, the last at the current second; every point has its low
    below and its high above both its open and its close, and a volume
    of at least 100000. *)
Theorem chart_simulation_points (now : Z) (symbol : StockSymbol)
    (interval period : string) :
  List.length
    (ChartSimulation.fetchFromYahooFinance now symbol interval period)
  = 10%nat
  /\ chronological
       (ChartSimulation.fetchFromYahooFinance now symbol interval period)
  /\ option_map yahoo_timestamp
       (hd_error
          (rev (ChartSimulation.fetchFromYahooFinance now symbol interval
                                                      period)))
     = Some (now / 1000)
  /\ Forall (fun data => well_formed (yahoo_ohlcv data)
                         /\ low (yahoo_ohlcv data) < open (yahoo_ohlcv data)
                         /\ close (yahoo_ohlcv data)
                            < high (yahoo_ohlcv data)
                         /\ 100000 <= volume (yahoo_ohlcv data))
            (ChartSimulation.fetchFromYahooFinance now symbol interval
                                                   period).
Proof.
  destruct (intervalMs_seconds interval) as [k [Hk Hms]].
  assert (Hts : forall i,
             yahoo_timestamp (ChartSimulation.mockPoint now symbol interval i)
             = now / 1000 - i * k).
  { intro i. unfold ChartSimulation.mockPoint. cbn [yahoo_timestamp].
    rewrite Hms.
    replace (now - i * (k * 1000)) with (now + (- (i * k)) * 1000) by lia.
    rewrite Z.div_add by lia. lia. }
  unfold ChartSimulation.fetchFromYahooFinance, chronological.
  cbn [map rev app List.length hd_error option_map].
  split; [reflexivity|].
  split.
  - rewrite !Hts.
    repeat (apply SSorted_cons; [| repeat constructor; lia]).
    constructor.
  - split; [rewrite Hts; f_equal; lia|].
    assert (Hwf : forall i, 0 <= i ->
               well_formed
                 (yahoo_ohlcv (ChartSimulation.mockPoint now symbol interval i))
               /\ low (yahoo_ohlcv
                         (ChartSimulation.mockPoint now symbol interval i))
                  < open (yahoo_ohlcv
                            (ChartSimulation.mockPoint now symbol interval i))
               /\ close (yahoo_ohlcv
                           (ChartSimulation.mockPoint now symbol interval i))
                  < high (yahoo_ohlcv
                            (ChartSimulation.mockPoint now symbol interval i))
               /\ 100000
                  <= volume (yahoo_ohlcv
                               (ChartSimulation.mockPoint now symbol interval
                                                          i))).
    { intros i Hi. unfold ChartSimulation.mockPoint, well_formed.
      cbn [yahoo_ohlcv open high low close volume].
      destruct (i mod 2 =? 0); lia. }
    repeat (constructor; [apply Hwf; lia|]). constructor.
Qed.

(* ================================================================== *)
(** * The chart of freshly fetched points *)

Section SortAscending.
Variable A : Type.
Variable key : A -> Z.

Lemma insert_desc_oldest (x : A) (l : list A) :
  (forall y, In y l -> key x < key y) -> insert_desc key x l = l ++ [x].
Proof.
  induction l as [|y ys IH]; intro H; [reflexivity|].
  cbn [insert_desc app].
  replace (key x <? key y) with true
    by (symmetry; apply Z.ltb_lt; apply H; left; reflexivity).
  rewrite IH; [reflexivity|]. intros z Hz. apply H. right. exact Hz.
Qed.

(** Sorting newest first turns an ascending list around. *)
Lemma sort_desc_ascending (l : list A) :
  StronglySorted Z.lt (map key l) -> sort_desc key l = rev l.
Proof.
  induction l as [|x xs IH]; intro Hs; [reflexivity|].
  cbn [map] in Hs. inversion Hs as [|? ? Hxs Hall]; subst.
  cbn [sort_desc rev]. rewrite (IH Hxs).
  apply insert_desc_oldest. intros y Hy.
  apply in_rev in Hy. rewrite Forall_forall in Hall.
  apply Hall. apply in_map. exact Hy.
Qed.

End SortAscending.

Section ChartOfFetched.
Variable env : Env.

Lemma appended_length (vs : list NewStockTick) :
  forall nid clk, List.length (appended env vs nid clk) = List.length vs.
Proof.
  induction vs as [|v rest IH]; intros nid clk; [reflexivity|].
  cbn [appended List.length]. f_equal. apply IH.
Qed.

Lemma appended_timestamps (points : list YahooFinanceData)
    (s : StockSymbol) (tok : string) :
  forall nid clk,
    map timestamp
        (appended env (GetChartData.transformYahooData points s tok) nid clk)
    = map (fun data => yahoo_timestamp data * 1000) points.
Proof.
  induction points as [|p ps IH]; intros nid clk; [reflexivity|].
  cbn [GetChartData.transformYahooData map appended timestamp
       new_timestamp].
  f_equal. apply IH.
Qed.

Lemma appended_candles (points : list YahooFinanceData)
    (s : StockSymbol) (tok : string) :
  forall nid clk,
    GetChartData.chartData
      (appended env (GetChartData.transformYahooData points s tok) nid clk)
    = map candle_of points.
Proof.
  induction points as [|p ps IH]; intros nid clk; [reflexivity|].
  unfold GetChartData.chartData in *.
  cbn [GetChartData.transformYahooData map appended timestamp ohlcv
       new_timestamp new_ohlcv].
  f_equal. apply IH.
Qed.

(** The rows of the fallback answer a request for their symbol and
    interval with no window. *)
Lemma appended_match (input : GetHistoricalDataInput) (s : StockSymbol)
    (points : list YahooFinanceData) :
  input_symbol input = Some s ->
  input_startDate input = None ->
  input_endDate input = None ->
  forall nid clk,
    filter (Db.eval_where env (build_where (GetChartData.conditions input)))
           (appended env
              (GetChartData.transformYahooData
                 points s (interval_str (input_interval input))) nid clk)
    = appended env
        (GetChartData.transformYahooData
           points s (interval_str (input_interval input))) nid clk.
Proof.
  intros Hs Hsd Hed.
  unfold GetChartData.conditions. rewrite Hs, Hsd, Hed.
  cbn [push_if app build_where].
  induction points as [|p ps IH]; intros nid clk; [reflexivity|].
  cbn [GetChartData.transformYahooData map appended filter
       Db.eval_where Db.eval_sql forallb symbol interval new_symbol
       new_interval].
  rewrite symbol_eqb_refl, String.eqb_refl. cbn [andb].
  f_equal. apply IH.
Qed.

Lemma ascending_in_milliseconds (points : list YahooFinanceData) :
  chronological points ->
  StronglySorted Z.lt (map (fun data => yahoo_timestamp data * 1000) points).
Proof.
  unfold chronological.
  induction points as [|p ps IH]; intro Hs; [constructor|].
  cbn [map] in *. inversion Hs as [|? ? Hps Hall]; subst.
  constructor; [apply IH; exact Hps|].
  rewrite Forall_forall in Hall |- *. intros t Ht.
  apply in_map_iff in Ht. destruct Ht as [q [<- Hq]].
  assert (yahoo_timestamp p < yahoo_timestamp q)
    by (apply Hall; apply in_map; exact Hq).
  lia.
Qed.

(** X12 -- The chart of freshly fetched points.  When a chart is asked
    for a symbol, with no window, the table has no tick for the request
    and the database answers, the points the provider returns in
    ascending order of time come back as the chart, newest first and
    cut to [limit]: each candle has the timestamp of its point in
    milliseconds and its open, high, low, close and volume, and the
    table has one more row per point. *)
Theorem chart_of_fetched_points (input : GetHistoricalDataInput)
    (s : StockSymbol) (w : World) (points : list YahooFinanceData) :
  input_symbol input = Some s ->
  input_startDate input = None ->
  input_endDate input = None ->
  no_fault_from env (db_ops w) ->
  chart_rows env input (rows w) = [] ->
  provider env s (interval_str (input_interval input)) "1d"
           (provider_calls w) = Some points ->
  chronological points ->
  exists w',
    GetChartData.getChartData env input w
    = (Ok (mkChart s (input_interval input)
                   (firstn (input_limit input)
                           (rev (map candle_of points)))), w')
    /\ List.length (rows w')
       = (List.length (rows w) + List.length points)%nat.
Proof.
  intros Hs Hsd Hed Hnf Hnone Hp Hchron.
  destruct (@chart_fallback_ok env input s w points Hs Hnf Hnone Hp)
    as [w' [E [Hrows _]]].
  exists w'. split.
  - rewrite E. f_equal. f_equal.
    unfold chart_rows. rewrite Hrows.
    destruct (input_limit input) as [|n] eqn:Hlim; [reflexivity|].
    assert (Hold : filter (Db.eval_where env
                             (build_where (GetChartData.conditions input)))
                          (rows w) = []).
    { unfold chart_rows in Hnone. rewrite Hlim in Hnone.
      pose proof (sort_desc_perm timestamp
                    (filter (Db.eval_where env
                               (build_where (GetChartData.conditions input)))
                            (rows w))) as Hperm.
      destruct (sort_desc timestamp
                  (filter (Db.eval_where env
                             (build_where (GetChartData.conditions input)))
                          (rows w))) as [|x xs];
        [|discriminate].
      apply Permutation_nil in Hperm. exact Hperm. }
    rewrite filter_app, Hold. cbn [app].
    rewrite (appended_match input points Hs Hsd Hed).
    rewrite sort_desc_ascending
      by (rewrite appended_timestamps;
          apply ascending_in_milliseconds; exact Hchron).
    unfold GetChartData.chartData at 1.
    rewrite <- firstn_map, map_rev.
    rewrite <- (appended_candles points s
                  (interval_str (input_interval input))
                  (next_id w) (clock w)).
    reflexivity.
  - rewrite Hrows, length_app, appended_length.
    unfold GetChartData.transformYahooData. rewrite length_map.
    reflexivity.
Qed.

End ChartOfFetched.

(* ================================================================== *)
(** * The simulated provider of fetch_stock_data.ts *)

Lemma intervalMap_minutes (interval : string) :
  1 <= FetchSimulation.js_or_number
         (lookup FetchSimulation.intervalMap interval) 1 <= 1440.
Proof.
  unfold FetchSimulation.intervalMap.
  cbn [lookup].
  repeat match goal with
         | |- context [String.eqb ?k interval] =>
             destruct (String.eqb k interval);
             [cbn [FetchSimulation.js_or_number Z.eqb]; lia|]
         end.
  cbn [FetchSimulation.js_or_number]. lia.
Qed.

Lemma inherited_In (key : string) :
  FetchSimulation.inherited key = true
  <-> In key FetchSimulation.objectPrototype.
Proof.
  unfold FetchSimulation.inherited. rewrite existsb_exists. split.
  - intros [k [Hin Hk]]. apply String.eqb_eq in Hk. subst k. exact Hin.
  - intro Hin. exists key. split; [exact Hin | apply String.eqb_refl].
Qed.

Lemma pointCount_values (period : string) :
  In (FetchSimulation.pointCount period) [60; 100; 300; 720]%nat.
Proof.
  unfold FetchSimulation.pointCount.
  destruct (String.eqb period "1mo"); [simpl; tauto|].
  destruct (String.eqb period "5d"); [simpl; tauto|].
  destruct (String.eqb period "1d"); simpl; tauto.
Qed.

(** Counting down from [n - 1] with a positive step gives ascending
    seconds. *)
Lemma countdown_ascending (now step : Z) (n : nat) :
  1 <= step ->
  StronglySorted Z.lt
    (map (fun i => (now - Z.of_nat i * step * 60 * 1000) / 1000)
         (rev (seq 0 n))).
Proof.
  intro Hstep.
  assert (Hts : forall i : nat,
             (now - Z.of_nat i * step * 60 * 1000) / 1000
             = now / 1000 - Z.of_nat i * (step * 60)).
  { intro i.
    replace (now - Z.of_nat i * step * 60 * 1000)
      with (now + (- (Z.of_nat i * (step * 60))) * 1000) by lia.
    rewrite Z.div_add by lia. lia. }
  induction n as [|n IH]; [constructor|].
  rewrite seq_S, rev_app_distr. cbn [rev app map plus].
  constructor; [exact IH|].
  rewrite Forall_forall. intros t Ht.
  apply in_map_iff in Ht.
  destruct Ht as [j [<- Hj]].
  apply in_rev in Hj. apply in_seq in Hj.
  rewrite !Hts. nia.
Qed.

(** X13 -- The simulated provider of [fetchStockData].  Whatever the
    clock and the draws of the prices, [fetchFromYahooFinance] of
    fetch_stock_data.ts returns 60 points for the period '1d', 300 for
    '5d', 720 for '1mo' and 100 for any other period.  For an interval
    that is not the name of a member of [Object.prototype], the
    timestamps are numbers, in strictly ascending order and ending at
    the current second; their spacing is the interval in minutes, which
    [getIntervalMinutes] then puts between 1 and 1440, with 1 for an
    interval its table does not know.  For 'constructor', 'toString',
    '__proto__' and the other such names [getIntervalMinutes] returns
    the inherited member, and every timestamp is NaN. *)
Theorem fetch_simulation_points (now : Z) (draws : nat -> OHLCV)
    (symbol : StockSymbol) (interval period : string) :
  List.length (FetchSimulation.fetchFromYahooFinance
                 now draws symbol interval period)
  = (if String.eqb period "1mo" then 720
     else if String.eqb period "5d" then 300
     else if String.eqb period "1d" then 60 else 100)%nat
  /\ match FetchSimulation.getIntervalMinutes interval with
     | Some minutes =>
         ~ In interval FetchSimulation.objectPrototype
         /\ 1 <= minutes <= 1440
         /\ (lookup FetchSimulation.intervalMap interval = None ->
             minutes = 1)
         /\ exists seconds,
              map FetchSimulation.point_timestamp
                  (FetchSimulation.fetchFromYahooFinance
                     now draws symbol interval period)
              = map Some seconds
              /\ StronglySorted Z.lt seconds
              /\ hd_error (rev seconds) = Some (now / 1000)
     | None =>
         In interval FetchSimulation.objectPrototype
         /\ Forall (fun point =>
                      FetchSimulation.point_timestamp point = None)
                   (FetchSimulation.fetchFromYahooFinance
                      now draws symbol interval period)
     end.
Proof.
  split.
  { unfold FetchSimulation.fetchFromYahooFinance.
    rewrite length_map, length_rev, length_seq.
    unfold FetchSimulation.pointCount.
    destruct (String.eqb period "1mo"); [reflexivity|].
    destruct (String.eqb period "5d"); reflexivity. }
  unfold FetchSimulation.fetchFromYahooFinance,
    FetchSimulation.timestampAt, FetchSimulation.getIntervalMinutes.
  destruct (FetchSimulation.inherited interval) eqn:Hin.
  - split; [apply inherited_In; exact Hin|].
    apply Forall_forall. intros point Hp.
    apply in_map_iff in Hp. destruct Hp as [i [<- _]]. reflexivity.
  - pose proof (intervalMap_minutes interval) as Hm.
    split.
    { intro H. apply inherited_In in H. congruence. }
    split; [exact Hm|].
    split; [intro Hnone; rewrite Hnone; reflexivity|].
    set (minutes := FetchSimulation.js_or_number _ 1) in *.
    exists (map (fun i => (now - Z.of_nat i * minutes * 60 * 1000) / 1000)
                (rev (seq 0 (FetchSimulation.pointCount period)))).
    split; [rewrite !map_map; reflexivity|].
    split; [apply countdown_ascending; lia|].
    rewrite <- map_rev, rev_involutive.
    pose proof (pointCount_values period) as Hn.
    destruct (FetchSimulation.pointCount period) as [|n];
      [simpl in Hn; intuition discriminate|].
    cbn [seq map hd_error].
    f_equal. cbn [Z.of_nat]. rewrite Z.mul_0_l, Z.sub_0_r. reflexivity.
Qed.

(* ================================================================== *)
(** * client: the price grid *)

Section PriceGrid.

Lemma get_none (acc : StockPriceGrid.Dict) (key : StockSymbol) :
  StockPriceGrid.get acc key = None -> ~ In key (map fst acc).
Proof.
  induction acc as [|[k v] rest IH]; intros H Hin; [exact Hin|].
  cbn [StockPriceGrid.get] in H. cbn [map fst] in Hin.
  destruct (symbol_eqb k key) eqn:E; [discriminate|].
  destruct Hin as [->|Hin]; [rewrite symbol_eqb_refl in E; discriminate|].
  exact (IH H Hin).
Qed.

Lemma get_some (acc : StockPriceGrid.Dict) (key : StockSymbol)
    (v : StockTick) :
  StockPriceGrid.get acc key = Some v -> In (key, v) acc.
Proof.
  induction acc as [|[k u] rest IH]; intro H; [discriminate|].
  cbn [StockPriceGrid.get] in H.
  destruct (symbol_eqb k key) eqn:E.
  - apply symbol_eqb_eq in E. inversion H; subst. left. reflexivity.
  - right. exact (IH H).
Qed.

(** Writing a key that is not there adds it last. *)
Lemma set_new (acc : StockPriceGrid.Dict) (key : StockSymbol)
    (tick : StockTick) :
  ~ In key (map fst acc) ->
  StockPriceGrid.set acc key tick = acc ++ [(key, tick)].
Proof.
  induction acc as [|[k v] rest IH]; intro Hn; [reflexivity|].
  cbn [StockPriceGrid.set app]. cbn [map fst] in Hn.
  destruct (symbol_eqb k key) eqn:E.
  - exfalso. apply Hn. left. apply symbol_eqb_eq. exact E.
  - rewrite IH; [reflexivity|]. intro H. apply Hn. right. exact H.
Qed.

(** Writing a key keeps the keys there are and their order. *)
Lemma set_keys (acc : StockPriceGrid.Dict) (key : StockSymbol)
    (tick : StockTick) :
  In key (map fst acc) ->
  map fst (StockPriceGrid.set acc key tick) = map fst acc.
Proof.
  induction acc as [|[k v] rest IH]; intro Hin; [contradiction|].
  cbn [StockPriceGrid.set]. destruct (symbol_eqb k key) eqn:E.
  - reflexivity.
  - cbn [map fst] in *. f_equal. apply IH.
    destruct Hin as [->|Hin]; [|exact Hin].
    rewrite symbol_eqb_refl in E. discriminate.
Qed.

(** What a written object holds, when its keys are distinct. *)
Lemma set_entries (acc : StockPriceGrid.Dict) (key : StockSymbol)
    (tick : StockTick) (k : StockSymbol) (v : StockTick) :
  NoDup (map fst acc) ->
  In (k, v) (StockPriceGrid.set acc key tick) ->
  (k = key /\ v = tick) \/ (k <> key /\ In (k, v) acc).
Proof.
  induction acc as [|[k0 v0] rest IH]; cbn [StockPriceGrid.set];
    intros Hnd H.
  - destruct H as [H|[]]. inversion H; subst. left. split; reflexivity.
  - cbn [map fst] in Hnd. inversion Hnd as [|? ? Hnotin Hrest]; subst.
    destruct (symbol_eqb k0 key) eqn:E.
    + apply symbol_eqb_eq in E. subst k0.
      destruct H as [H|H].
      * inversion H; subst. left. split; reflexivity.
      * right. split; [| right; exact H].
        intro Hk. subst k. apply Hnotin.
        change key with (fst (key, v)). apply in_map. exact H.
    + destruct H as [H|H].
      * inversion H; subst. right. split; [| left; reflexivity].
        intro Hk. subst k. rewrite symbol_eqb_refl in E. discriminate.
      * destruct (IH Hrest H) as [Hl|[Hne Hin]]; [left; exact Hl|].
        right. split; [exact Hne | right; exact Hin].
Qed.

(** An object with distinct keys holds one value per key. *)
Lemma entries_functional (acc : StockPriceGrid.Dict) (key : StockSymbol)
    (v1 v2 : StockTick) :
  NoDup (map fst acc) -> In (key, v1) acc -> In (key, v2) acc -> v1 = v2.
Proof.
  induction acc as [|[k0 v0] more IH]; [intros _ []|].
  cbn [map fst]. intro Hnd.
  inversion Hnd as [|? ? Hnotin Hrest]; subst.
  intros [H1|H1] [H2|H2].
  - congruence.
  - inversion H1; subst. exfalso. apply Hnotin.
    change key with (fst (key, v2)). apply in_map. exact H2.
  - inversion H2; subst. exfalso. apply Hnotin.
    change key with (fst (key, v1)). apply in_map. exact H1.
  - exact (IH Hrest H1 H2).
Qed.

Lemma set_holds (acc : StockPriceGrid.Dict) (key : StockSymbol)
    (tick : StockTick) :
  In (key, tick) (StockPriceGrid.set acc key tick).
Proof.
  induction acc as [|[k0 v0] rest IH]; cbn [StockPriceGrid.set].
  - left. reflexivity.
  - destruct (symbol_eqb k0 key) eqn:E.
    + apply symbol_eqb_eq in E. subst k0. left. reflexivity.
    + right. exact IH.
Qed.

Lemma set_keeps (acc : StockPriceGrid.Dict) (key : StockSymbol)
    (tick : StockTick) (k : StockSymbol) (v : StockTick) :
  k <> key -> In (k, v) acc -> In (k, v) (StockPriceGrid.set acc key tick).
Proof.
  intro Hne. induction acc as [|[k0 v0] rest IH]; [intros []|].
  cbn [StockPriceGrid.set]. intros [H|H].
  - inversion H; subst.
    destruct (symbol_eqb k key) eqn:E;
      [apply symbol_eqb_eq in E; contradiction | left; reflexivity].
  - destruct (symbol_eqb k0 key); right; [exact H | exact (IH H)].
Qed.

Lemma set_keys_distinct (acc : StockPriceGrid.Dict) (key : StockSymbol)
    (tick : StockTick) :
  NoDup (map fst acc) -> NoDup (map fst (StockPriceGrid.set acc key tick)).
Proof.
  intro Hnd.
  destruct (StockPriceGrid.get acc key) as [held|] eqn:Hget;
    [apply get_some in Hget;
     assert (Hin : In key (map fst acc))
       by (change key with (fst (key, held)); apply in_map; exact Hget)
    | pose proof (get_none _ _ Hget) as Hnotin].
  - rewrite set_keys by exact Hin. exact Hnd.
  - rewrite set_new by exact Hnotin. rewrite map_app. cbn [map fst].
    apply NoDup_app; [exact Hnd | repeat constructor; simpl; tauto|].
    intros k Hk [<-|[]]. exact (Hnotin Hk).
Qed.

(** What the object holds after the ticks [seen]: one entry per symbol
    seen, holding a tick of that symbol that no tick seen is newer
    than. *)
Lemma keepLatest_invariant (prices : list StockTick) :
  forall (acc : StockPriceGrid.Dict) (seen : list StockTick),
    NoDup (map fst acc) ->
    (forall k v, In (k, v) acc ->
                 symbol v = k /\ In v seen
                 /\ forall t, In t seen -> symbol t = k ->
                               timestamp t <= timestamp v) ->
    (forall t, In t seen -> In (symbol t) (map fst acc)) ->
    NoDup (map fst (fold_left StockPriceGrid.keepLatest prices acc))
    /\ (forall k v,
           In (k, v) (fold_left StockPriceGrid.keepLatest prices acc) ->
           symbol v = k /\ In v (seen ++ prices)
           /\ forall t, In t (seen ++ prices) -> symbol t = k ->
                         timestamp t <= timestamp v)
    /\ (forall t, In t (seen ++ prices) ->
                  In (symbol t)
                     (map fst (fold_left StockPriceGrid.keepLatest
                                         prices acc))).
Proof.
  induction prices as [|tick rest IH]; intros acc seen Hnd Hmax Hall.
  - cbn [fold_left]. rewrite app_nil_r.
    split; [exact Hnd|]. split; [exact Hmax | exact Hall].
  - cbn [fold_left].
    replace (seen ++ tick :: rest) with ((seen ++ [tick]) ++ rest)
      by (rewrite <- app_assoc; reflexivity).
    apply IH.
    + unfold StockPriceGrid.keepLatest.
      destruct (StockPriceGrid.get acc (symbol tick)) as [held|];
        [destruct (timestamp held <? timestamp tick)|];
        try apply set_keys_distinct; exact Hnd.
    + intros k v Hin. unfold StockPriceGrid.keepLatest in Hin.
      destruct (StockPriceGrid.get acc (symbol tick)) as [held|] eqn:Hget.
      * apply get_some in Hget. destruct (Hmax _ _ Hget) as [_ [_ Hheld]].
        destruct (timestamp held <? timestamp tick) eqn:Hlt.
        -- apply Z.ltb_lt in Hlt.
           destruct (@set_entries acc (symbol tick) tick k v Hnd Hin)
             as [[-> ->]|[Hne Hold]].
           ++ split; [reflexivity|].
              split; [apply in_or_app; right; left; reflexivity|].
              intros t Ht Hs. apply in_app_or in Ht.
              destruct Ht as [Ht|[<-|[]]]; [| lia].
              specialize (Hheld t Ht Hs). lia.
           ++ destruct (Hmax _ _ Hold) as [H1 [H2 H3]].
              split; [exact H1|].
              split; [apply in_or_app; left; exact H2|].
              intros t Ht Hs. apply in_app_or in Ht.
              destruct Ht as [Ht|[<-|[]]]; [exact (H3 t Ht Hs)|].
              contradiction Hne. symmetry. exact Hs.
        -- apply Z.ltb_ge in Hlt.
           destruct (Hmax _ _ Hin) as [H1 [H2 H3]].
           split; [exact H1|].
           split; [apply in_or_app; left; exact H2|].
           intros t Ht Hs. apply in_app_or in Ht.
           destruct Ht as [Ht|[<-|[]]]; [exact (H3 t Ht Hs)|].
           subst k. rewrite <- Hs in Hin.
           assert (v = held)
             by (exact (@entries_functional acc (symbol tick) v held
                                             Hnd Hin Hget)).
           subst v. exact Hlt.
      * apply get_none in Hget. rewrite set_new in Hin by exact Hget.
        apply in_app_or in Hin. destruct Hin as [Hold|[Hnew|[]]].
        -- destruct (Hmax _ _ Hold) as [H1 [H2 H3]].
           split; [exact H1|].
           split; [apply in_or_app; left; exact H2|].
           intros t Ht Hs. apply in_app_or in Ht.
           destruct Ht as [Ht|[<-|[]]]; [exact (H3 t Ht Hs)|].
           exfalso. apply Hget. rewrite Hs.
           change k with (fst (k, v)). apply in_map. exact Hold.
        -- inversion Hnew; subst. split; [reflexivity|].
           split; [apply in_or_app; right; left; reflexivity|].
           intros t Ht Hs. apply in_app_or in Ht.
           destruct Ht as [Ht|[<-|[]]]; [| lia].
           exfalso. apply Hget. rewrite <- Hs. apply Hall. exact Ht.
    + intros t Ht. apply in_app_or in Ht.
      assert (Hkeys : forall k, In k (map fst acc) ->
                 In k (map fst (StockPriceGrid.keepLatest acc tick))).
      { intros k Hk. unfold StockPriceGrid.keepLatest.
        destruct (StockPriceGrid.get acc (symbol tick)) as [held|] eqn:Hget.
        - destruct (timestamp held <? timestamp tick); [|exact Hk].
          rewrite set_keys; [exact Hk|].
          apply get_some in Hget.
          change (symbol tick) with (fst (symbol tick, held)).
          apply in_map. exact Hget.
        - apply get_none in Hget. rewrite set_new by exact Hget.
          rewrite map_app. apply in_or_app. left. exact Hk. }
      destruct Ht as [Ht|[<-|[]]]; [apply Hkeys; apply Hall; exact Ht|].
      unfold StockPriceGrid.keepLatest.
      destruct (StockPriceGrid.get acc (symbol tick)) as [held|] eqn:Hget.
      * apply get_some in Hget.
        assert (Hk : In (symbol tick) (map fst acc)).
        { change (symbol tick) with (fst (symbol tick, held)).
          apply in_map. exact Hget. }
        destruct (timestamp held <? timestamp tick); [|exact Hk].
        rewrite set_keys; exact Hk.
      * apply get_none in Hget. rewrite set_new by exact Hget.
        rewrite map_app. apply in_or_app. right. left. reflexivity.
Qed.

(** X14 -- One card per symbol.  Whatever list of ticks the price grid
    is given, in whatever order and with whatever repetitions, it draws
    exactly one card for every symbol that has a tick in the list: the
    card is a tick of the list, and no tick of the list of that symbol
    is newer. *)
Theorem price_grid_one_card_per_symbol (prices : list StockTick) :
  NoDup (map symbol (StockPriceGrid.cards prices))
  /\ (forall card, In card (StockPriceGrid.cards prices) ->
                   In card prices
                   /\ forall t, In t prices -> symbol t = symbol card ->
                                 timestamp t <= timestamp card)
  /\ (forall t, In t prices ->
                exists card, In card (StockPriceGrid.cards prices)
                             /\ symbol card = symbol t).
Proof.
  destruct (keepLatest_invariant prices [] []) as [Hnd [Hmax Hall]];
    [constructor | intros k v [] | intros t [] |].
  cbn [app] in Hmax, Hall.
  fold (StockPriceGrid.latestPrices prices) in Hnd, Hmax, Hall.
  assert (Hsym : map symbol (StockPriceGrid.cards prices)
                 = map fst (StockPriceGrid.latestPrices prices)).
  { unfold StockPriceGrid.cards. rewrite map_map.
    apply map_ext_in. intros [k v] Hin. exact (proj1 (Hmax _ _ Hin)). }
  split; [rewrite Hsym; exact Hnd|].
  split.
  - intros card Hc. unfold StockPriceGrid.cards in Hc.
    apply in_map_iff in Hc. destruct Hc as [[k v] [<- Hin]].
    destruct (Hmax _ _ Hin) as [Hk [Hv Hnewest]]. cbn [snd].
    split; [exact Hv|]. intros t Ht Hs. apply Hnewest; [exact Ht|].
    rewrite Hs. exact Hk.
  - intros t Ht. specialize (Hall t Ht).
    apply in_map_iff in Hall. destruct Hall as [[k v] [Hk Hin]].
    cbn [fst] in Hk. subst k.
    exists v. split.
    + unfold StockPriceGrid.cards. apply in_map_iff.
      exists (symbol t, v). split; [reflexivity | exact Hin].
    + exact (proj1 (Hmax _ _ Hin)).
Qed.

End PriceGrid.

(* ================================================================== *)
(** * client: the table and the chart of the ticks *)

Section SortedLists.
Variable A : Type.
Variable key : A -> Z.

(** A list that is in order stays as it is. *)
Lemma sort_desc_sorted_id (l : list A) :
  StronglySorted (desc key) l -> sort_desc key l = l.
Proof.
  induction l as [|x xs IH]; intro Hs; [reflexivity|].
  inversion Hs as [|? ? Hxs Hall]; subst.
  cbn [sort_desc]. rewrite (IH Hxs).
  destruct xs as [|y ys]; [reflexivity|].
  cbn [insert_desc].
  replace (key x <? key y) with false; [reflexivity|].
  symmetry. apply Z.ltb_ge.
  rewrite Forall_forall in Hall. apply (Hall y). left. reflexivity.
Qed.

Lemma sorted_app (l1 l2 : list A) :
  StronglySorted (desc key) (l1 ++ l2) ->
  StronglySorted (desc key) l1 /\ StronglySorted (desc key) l2
  /\ forall a b, In a l1 -> In b l2 -> key b <= key a.
Proof.
  induction l1 as [|x xs IH]; cbn [app]; intro Hs.
  - split; [constructor|]. split; [exact Hs|]. intros a b [].
  - inversion Hs as [|? ? Hrest Hall]; subst.
    destruct (IH Hrest) as [H1 [H2 H3]].
    rewrite Forall_forall in Hall.
    split.
    + constructor; [exact H1|]. rewrite Forall_forall.
      intros y Hy. apply Hall. apply in_or_app. left. exact Hy.
    + split; [exact H2|].
      intros a b [<-|Ha] Hb; [| exact (H3 a b Ha Hb)].
      apply Hall. apply in_or_app. right. exact Hb.
Qed.

(** Turning a descending list around makes it ascending. *)
Lemma sorted_rev (l : list A) :
  StronglySorted (desc key) l ->
  StronglySorted (fun a b => key a <= key b) (rev l).
Proof.
  induction l as [|x xs IH]; intro Hs; [constructor|].
  inversion Hs as [|? ? Hxs Hall]; subst. cbn [rev].
  specialize (IH Hxs). revert IH.
  assert (Hle : forall y, In y (rev xs) -> key y <= key x).
  { intros y Hy. apply in_rev in Hy. rewrite Forall_forall in Hall.
    exact (Hall y Hy). }
  revert Hle. generalize (rev xs). intros l Hle Hl.
  induction Hl as [|z zs Hzs IHz Hz]; cbn [app].
  - repeat constructor.
  - constructor.
    + apply IHz. intros y Hy. apply Hle. right. exact Hy.
    + apply Forall_app. split; [exact Hz|].
      constructor; [apply Hle; left; reflexivity | constructor].
Qed.

End SortedLists.

(** X15 -- The rows of the table.  Whatever ticks the table is given,
    it draws them newest first and stops after 50: the rows drawn are
    min(50, n) of the n ticks, none of them older than a tick left out,
    and the line that says that rows were left out is drawn exactly
    when n exceeds 50.  Ticks that come newest first are drawn in the
    order they came. *)
Theorem stock_table_rows (data : list StockTick) :
  newest_first (StockTable.tableRows data)
  /\ List.length (StockTable.tableRows data)
     = Nat.min 50 (List.length data)
  /\ (exists hidden,
        Permutation (StockTable.tableRows data ++ hidden) data
        /\ forall shown t,
             In shown (StockTable.tableRows data) -> In t hidden ->
             timestamp t <= timestamp shown)
  /\ (StockTable.truncated data = true <-> (50 < List.length data)%nat)
  /\ (newest_first data -> StockTable.tableRows data = firstn 50 data).
Proof.
  unfold StockTable.tableRows, StockTable.truncated, StockTable.sortedData.
  pose proof (sort_desc_sorted timestamp data) as Hs.
  pose proof (sort_desc_perm timestamp data) as Hp.
  split; [apply sorted_firstn; exact Hs|].
  split; [rewrite length_firstn, (Permutation_length Hp); reflexivity|].
  split.
  - exists (skipn 50 (sort_desc timestamp data)).
    rewrite firstn_skipn. split; [exact Hp|].
    rewrite <- (firstn_skipn 50 (sort_desc timestamp data)) in Hs.
    apply sorted_app in Hs. destruct Hs as [_ [_ H]].
    intros shown t Hshown Ht. exact (H shown t Hshown Ht).
  - split.
    + rewrite (Permutation_length Hp). apply Nat.ltb_lt.
    + intro Hnf. unfold newest_first in Hnf.
      rewrite (sort_desc_sorted_id Hnf). reflexivity.
Qed.

Section ChartOfHistory.
Variable env : Env.

(** The ticks of the range query come newest first. *)
Lemma queryHistory_newest_first (input : GetHistoricalDataInput)
    (stored : list StockTick) :
  newest_first (RangeQuerySpec.queryHistory env input stored).
Proof.
  unfold RangeQuerySpec.queryHistory, newest_first.
  pose proof (selected_newest_first env input stored) as Hs.
  unfold newest_first in Hs.
  induction Hs as [|r rs Hrs IH Hall]; cbn [map]; constructor.
  - exact IH.
  - rewrite Forall_forall in Hall |- *. intros t Ht.
    apply in_map_iff in Ht. destruct Ht as [r' [<- Hr']].
    exact (Hall r' Hr').
Qed.

Lemma current_is_last (front : list StockTick) (c : StockTick) :
  StockChart.current (front ++ [c]) = Some c.
Proof.
  unfold StockChart.current. rewrite length_app. cbn [List.length].
  rewrite nth_error_app2 by lia.
  replace (List.length front + 1 - 1 - List.length front)%nat with 0%nat
    by lia.
  reflexivity.
Qed.

(** X16 -- What the chart draws of a range query.  The chart is given
    the ticks of [getHistoricalData] as they come, newest first.  The
    price it shows as "Current" is then the close of the last tick of
    the response, which no tick of the response is older than; the bars
    are the last 20 ticks of the response, which are its 20 oldest, and
    the cards under them are the last 6 of the response, its 6 oldest,
    in ascending order of time, the first card being the tick under
    "Current": of the ticks loaded, the chart draws the oldest. *)
Theorem chart_draws_the_oldest_ticks (input : GetHistoricalDataInput)
    (w : World) :
  db_fault env (db_ops w) = false ->
  exists ticks w',
    GetHistoricalData.getHistoricalData env input w = (Ok ticks, w')
    /\ newest_first ticks
    /\ (ticks <> [] ->
        exists c, StockChart.current ticks = Some c
                  /\ In c ticks
                  /\ (forall t, In t ticks -> timestamp c <= timestamp t)
                  /\ hd_error (StockChart.recent ticks) = Some c)
    /\ (exists newer,
          ticks = newer ++ StockChart.bars ticks
          /\ List.length (StockChart.bars ticks)
             = Nat.min 20 (List.length ticks)
          /\ forall a b, In a newer -> In b (StockChart.bars ticks) ->
                         timestamp b <= timestamp a)
    /\ (exists newer,
          ticks = newer ++ rev (StockChart.recent ticks)
          /\ forall a b, In a newer -> In b (StockChart.recent ticks) ->
                         timestamp b <= timestamp a)
    /\ oldest_first (StockChart.recent ticks)
    /\ List.length (StockChart.recent ticks)
       = Nat.min 6 (List.length ticks).
Proof.
  intro Hf.
  rewrite (getHistoricalData_refines env input w Hf).
  eexists; eexists. split; [reflexivity|].
  pose proof (queryHistory_newest_first input (rows w)) as Hnf.
  generalize dependent (RangeQuerySpec.queryHistory env input (rows w)).
  intros ticks Hnf. unfold newest_first in Hnf.
  split; [exact Hnf|].
  split.
  { intro Hne. destruct (exists_last Hne) as [front [c Hc]].
    exists c. subst ticks.
    split; [apply current_is_last|].
    split; [apply in_or_app; right; left; reflexivity|].
    split.
    - destruct (sorted_app _ _ Hnf) as [_ [_ H]].
      intros t Ht. apply in_app_or in Ht.
      destruct Ht as [Ht|[<-|[]]]; [| lia].
      apply (H t c Ht). left. reflexivity.
    - unfold StockChart.recent, StockChart.slice_last.
      rewrite length_app. cbn [List.length].
      rewrite skipn_app.
      replace (List.length front + 1 - 6 - List.length front)%nat
        with 0%nat by lia.
      cbn [skipn]. rewrite rev_app_distr. reflexivity. }
  split.
  { unfold StockChart.bars, StockChart.slice_last.
    exists (firstn (List.length ticks - 20) ticks).
    split; [symmetry; apply firstn_skipn|].
    split; [rewrite length_skipn; lia|].
    rewrite <- (firstn_skipn (List.length ticks - 20) ticks) in Hnf.
    destruct (sorted_app _ _ Hnf) as [_ [_ H]].
    intros a b Ha Hb. exact (H a b Ha Hb). }
  split.
  { unfold StockChart.recent, StockChart.slice_last.
    exists (firstn (List.length ticks - 6) ticks).
    rewrite rev_involutive.
    split; [symmetry; apply firstn_skipn|].
    rewrite <- (firstn_skipn (List.length ticks - 6) ticks) in Hnf.
    destruct (sorted_app _ _ Hnf) as [_ [_ H]].
    intros a b Ha Hb. apply in_rev in Hb. exact (H a b Ha Hb). }
  split.
  { unfold StockChart.recent, StockChart.slice_last, oldest_first.
    apply sorted_rev.
    rewrite <- (firstn_skipn (List.length ticks - 6) ticks) in Hnf.
    destruct (sorted_app _ _ Hnf) as [_ [H _]]. exact H. }
  unfold StockChart.recent, StockChart.slice_last.
  rewrite length_rev, length_skipn. lia.
Qed.

End ChartOfHistory.

(* ================================================================== *)
(** * The router: what the schemas let through *)

Section Router.
Variable env : Env.

Lemma getHistoricalData_answers (input : GetHistoricalDataInput)
    (w : World) (ticks : list StockTick) (w' : World) :
  GetHistoricalData.getHistoricalData env input w = (Ok ticks, w') ->
  ticks = RangeQuerySpec.queryHistory env input (rows w)
  /\ rows w' = rows w.
Proof.
  destruct (db_fault env (db_ops w)) eqn:Hf.
  - unfold GetHistoricalData.getHistoricalData, try_catch, bind,
      Db.select, Db.statement.
    rewrite Hf. discriminate.
  - rewrite (getHistoricalData_refines env input w Hf).
    intro H. inversion H; subst. split; reflexivity.
Qed.

Lemma getHistoricalData_fails (input : GetHistoricalDataInput)
    (w : World) (e : Error) (w' : World) :
  GetHistoricalData.getHistoricalData env input w = (Err e, w') ->
  e = StoreError /\ rows w' = rows w.
Proof.
  intro H. split.
  - apply (raises_getHistoricalData env input w). rewrite H. reflexivity.
  - destruct (db_fault env (db_ops w)) eqn:Hf.
    + revert H.
      unfold GetHistoricalData.getHistoricalData, try_catch, bind,
        Db.select, Db.statement.
      rewrite Hf. intro H. inversion H. reflexivity.
    + rewrite (getHistoricalData_refines env input w Hf) in H.
      discriminate.
Qed.

Lemma queryHistory_length (input : GetHistoricalDataInput)
    (stored : list StockTick) :
  (List.length (RangeQuerySpec.queryHistory env input stored)
   <= input_limit input)%nat.
Proof.
  unfold RangeQuerySpec.queryHistory.
  rewrite length_map, selected_length. apply Nat.le_min_l.
Qed.

Lemma enum_symbol (given : string) :
  match Schema.enum Schema.symbol_str stockSymbolSchema given with
  | Some s => Schema.symbol_str s = given
  | None => ~ In given ["META"; "AAPL"; "AMZN"; "GOOG"; "MSFT"; "NVDA"]
  end.
Proof.
  unfold Schema.enum, stockSymbolSchema. cbn [find Schema.symbol_str].
  repeat match goal with
         | |- context [String.eqb ?k given] =>
             destruct (String.eqb k given) eqn:?;
             [apply String.eqb_eq; assumption|]
         end.
  intro Hin. cbn [In] in Hin.
  repeat match goal with
         | H : _ \/ _ |- _ => destruct H as [H|H]
         end;
    try contradiction; subst given; discriminate.
Qed.

Lemma enum_interval (given : string) :
  match Schema.enum interval_str intervalSchema given with
  | Some i => interval_str i = given
  | None => ~ In given ["1m"; "2m"; "5m"; "15m"; "30m"; "60m"; "90m";
                        "1h"; "1d"; "5d"; "1wk"; "1mo"; "3mo"]
  end.
Proof.
  unfold Schema.enum, intervalSchema. cbn [find interval_str].
  repeat match goal with
         | |- context [String.eqb ?k given] =>
             destruct (String.eqb k given) eqn:?;
             [apply String.eqb_eq; assumption|]
         end.
  intro Hin. cbn [In] in Hin.
  repeat match goal with
         | H : _ \/ _ |- _ => destruct H as [H|H]
         end;
    try contradiction; subst given; discriminate.
Qed.

Lemma enum_symbol_str (s : StockSymbol) :
  Schema.enum Schema.symbol_str stockSymbolSchema (Schema.symbol_str s)
  = Some s.
Proof. destruct s; reflexivity. Qed.

Lemma enum_interval_str (i : Interval) :
  Schema.enum interval_str intervalSchema (interval_str i) = Some i.
Proof. destruct i; reflexivity. Qed.

Lemma symbol_str_listed (s : StockSymbol) :
  In (Schema.symbol_str s)
     ["META"; "AAPL"; "AMZN"; "GOOG"; "MSFT"; "NVDA"].
Proof. destruct s; cbn; tauto. Qed.

Lemma interval_str_listed (i : Interval) :
  In (interval_str i)
     ["1m"; "2m"; "5m"; "15m"; "30m"; "60m"; "90m"; "1h"; "1d"; "5d";
      "1wk"; "1mo"; "3mo"].
Proof. destruct i; cbn; tauto. Qed.

Lemma limit_accepts (given : Schema.RawNumber) (n : nat) :
  Schema.limit given = Some n ->
  exists z, given = Schema.integer z /\ 0 < z <= 1000 /\ Z.of_nat n = z.
Proof.
  unfold Schema.limit. destruct given as [z|]; [|discriminate].
  destruct ((0 <? z) && (z <=? 1000)) eqn:Hz; [|discriminate].
  apply andb_true_iff in Hz. destruct Hz as [H0 H1].
  apply Z.ltb_lt in H0. apply Z.leb_le in H1.
  intro H. inversion H. exists z. split; [reflexivity | lia].
Qed.

Lemma limit_refuses (given : Schema.RawNumber) :
  Schema.limit given = None ->
  forall z, given = Schema.integer z -> ~ 0 < z <= 1000.
Proof.
  unfold Schema.limit. intros H z ->.
  destruct ((0 <? z) && (z <=? 1000)) eqn:Hz; [discriminate|].
  apply andb_false_iff in Hz. destruct Hz as [Hz|Hz].
  - apply Z.ltb_ge in Hz. lia.
  - apply Z.leb_gt in Hz. lia.
Qed.

(** The schema lets through exactly the requests that have nothing to
    refuse, and parses a limit into itself, 100 when it is left out. *)
Lemma getHistoricalDataInputSchema_spec
    (raw : Schema.GetHistoricalDataRaw) :
  match Schema.getHistoricalDataInputSchema raw with
  | Some input =>
      history_request_valid raw
      /\ (1 <= input_limit input <= 1000)%nat
      /\ match Schema.raw_limit raw with
         | Some (Schema.integer z) => Z.of_nat (input_limit input) = z
         | Some Schema.notInteger => False
         | None => input_limit input = 100%nat
         end
  | None => ~ history_request_valid raw
  end.
Proof.
  destruct raw as [sym int sd ed lim].
  unfold Schema.getHistoricalDataInputSchema, history_request_valid.
  cbn [Schema.raw_symbol Schema.raw_interval Schema.raw_startDate
       Schema.raw_endDate Schema.raw_limit].
  assert (Hsym :
            match Schema.optional
                    (Schema.enum Schema.symbol_str stockSymbolSchema) sym
            with
            | Some _ =>
                forall s, sym = Some s ->
                  In s ["META"; "AAPL"; "AMZN"; "GOOG"; "MSFT"; "NVDA"]
            | None =>
                exists s, sym = Some s
                  /\ ~ In s ["META"; "AAPL"; "AMZN"; "GOOG"; "MSFT"; "NVDA"]
            end).
  { destruct sym as [s|]; cbn [Schema.optional];
      [| intros s Hs; discriminate].
    pose proof (enum_symbol s) as H.
    destruct (Schema.enum Schema.symbol_str stockSymbolSchema s) as [x|];
      cbn [option_map].
    - intros s' Hs'. inversion Hs'; subst s'. rewrite <- H.
      apply symbol_str_listed.
    - exists s. split; [reflexivity | exact H]. }
  assert (Hint :
            match Schema.defaulted
                    (Schema.enum interval_str intervalSchema) I1m int
            with
            | Some _ =>
                forall i, int = Some i ->
                  In i ["1m"; "2m"; "5m"; "15m"; "30m"; "60m"; "90m";
                        "1h"; "1d"; "5d"; "1wk"; "1mo"; "3mo"]
            | None =>
                exists i, int = Some i
                  /\ ~ In i ["1m"; "2m"; "5m"; "15m"; "30m"; "60m"; "90m";
                             "1h"; "1d"; "5d"; "1wk"; "1mo"; "3mo"]
            end).
  { destruct int as [i|]; cbn [Schema.defaulted];
      [| intros i Hi; discriminate].
    pose proof (enum_interval i) as H.
    destruct (Schema.enum interval_str intervalSchema i) as [x|].
    - intros i' Hi'. inversion Hi'; subst i'. rewrite <- H.
      apply interval_str_listed.
    - exists i. split; [reflexivity | exact H]. }
  assert (Hdate : forall d,
            match Schema.optional Schema.coerce_date d with
            | Some _ => d <> Some Schema.invalidDate
            | None => d = Some Schema.invalidDate
            end).
  { intros [[ms|]|]; cbn; [discriminate | reflexivity | discriminate]. }
  pose proof (Hdate sd) as Hsd. pose proof (Hdate ed) as Hed. clear Hdate.
  destruct (Schema.optional
              (Schema.enum Schema.symbol_str stockSymbolSchema) sym)
    as [symbol|];
    [| intros [H _]; destruct Hsym as [s [Hs Hn]]; exact (Hn (H s Hs))].
  destruct (Schema.defaulted
              (Schema.enum interval_str intervalSchema) I1m int)
    as [interval|];
    [| intros [_ [H _]]; destruct Hint as [i [Hi Hn]]; exact (Hn (H i Hi))].
  destruct (Schema.optional Schema.coerce_date sd) as [startDate|];
    [| intros [_ [_ [H _]]]; exact (H Hsd)].
  destruct (Schema.optional Schema.coerce_date ed) as [endDate|];
    [| intros [_ [_ [_ [H _]]]]; exact (H Hed)].
  destruct lim as [given|]; cbn [Schema.defaulted].
  - destruct (Schema.limit given) as [n|] eqn:Hl.
    + destruct (limit_accepts given Hl) as [z [-> [Hz Hn]]].
      cbn [input_limit].
      split; [| split; [lia | exact Hn]].
      split; [exact Hsym|]. split; [exact Hint|].
      split; [exact Hsd|]. split; [exact Hed|].
      intros v Hv. inversion Hv; subst v. exists z. split; [reflexivity|].
      exact Hz.
    + intros [_ [_ [_ [_ H]]]].
      destruct (H given eq_refl) as [z [Hz Hr]].
      exact (@limit_refuses given Hl z Hz Hr).
  - cbn [input_limit].
    split; [| split; [lia | reflexivity]].
    split; [exact Hsym|]. split; [exact Hint|].
    split; [exact Hsd|]. split; [exact Hed|].
    intros v Hv. discriminate.
Qed.

(** X17 -- History requests through the router.  The router refuses a
    [getHistoricalData] request exactly when a field of it has
    something to refuse: a symbol or an interval outside its
    enumeration, a start or end date that is no date, a limit that is
    not an integer from 1 to 1000; the handler is then not run.  A
    request it lets through either fails with the store error or
    returns at most [limit] ticks, 100 when no limit is given and never
    more than 1000, newest first; the table is as it was in every
    case. *)
Theorem history_requests_through_the_router
    (raw : Schema.GetHistoricalDataRaw) (w : World) :
  match AppRouter.getHistoricalData env raw w with
  | (BadRequest, w') => w' = w /\ ~ history_request_valid raw
  | (Success ticks, w') =>
      history_request_valid raw
      /\ (List.length ticks <= 1000)%nat
      /\ match Schema.raw_limit raw with
         | Some (Schema.integer z) => Z.of_nat (List.length ticks) <= z
         | Some Schema.notInteger => False
         | None => (List.length ticks <= 100)%nat
         end
      /\ newest_first ticks
      /\ rows w' = rows w
  | (InternalServerError cause, w') =>
      history_request_valid raw /\ cause = StoreError /\ rows w' = rows w
  end.
Proof.
  unfold AppRouter.getHistoricalData, AppRouter.procedure.
  pose proof (getHistoricalDataInputSchema_spec raw) as Hschema.
  destruct (Schema.getHistoricalDataInputSchema raw) as [input|];
    [| split; [reflexivity | exact Hschema]].
  destruct Hschema as [Hvalid [Hmax Hlim]].
  destruct (GetHistoricalData.getHistoricalData env input w)
    as [[ticks|e] w'] eqn:Hrun.
  - apply getHistoricalData_answers in Hrun.
    destruct Hrun as [-> Hrows].
    pose proof (queryHistory_length input (rows w)) as Hlen.
    split; [exact Hvalid|].
    split; [lia|].
    split; [| split; [apply queryHistory_newest_first | exact Hrows]].
    destruct (Schema.raw_limit raw) as [[z|]|]; [lia | exact Hlim | lia].
  - apply getHistoricalData_fails in Hrun.
    split; [exact Hvalid | exact Hrun].
Qed.


End Router.

(* ================================================================== *)
(** * App.tsx: what the two buttons lead to *)

Section AppButtons.
Variable env : Env.

Lemma queryHistory_symbol (input : GetHistoricalDataInput)
    (stored : list StockTick) (s : StockSymbol) :
  input_symbol input = Some s ->
  Forall (fun t => symbol t = s)
         (RangeQuerySpec.queryHistory env input stored).
Proof.
  intro Hs. apply Forall_forall. intros t Ht.
  unfold RangeQuerySpec.queryHistory in Ht.
  apply in_map_iff in Ht. destruct Ht as [r [<- Hr]].
  apply selected_sound in Hr. destruct Hr as [_ Hsat].
  unfold RangeQuerySpec.satisfies in Hsat.
  rewrite !andb_true_iff in Hsat.
  destruct Hsat as [[[Hsym _] _] _].
  unfold RangeQuerySpec.symbol_ok in Hsym. rewrite Hs in Hsym.
  unfold RangeQuerySpec.returned. cbn [set_interval symbol].
  apply symbol_eqb_eq. exact Hsym.
Qed.

(** The reload of the ticks: those of one answer for the selected
    symbol and limit 100, or none. *)
Lemma loadHistoricalData_reloads (st : App.State) (w : World) :
  exists data,
    fst (App.loadHistoricalData env st w) = App.setStockData data st
    /\ newest_first data
    /\ (List.length data <= 100)%nat
    /\ Forall (fun t => symbol t = App.selectedSymbol st) data
    /\ provider_events (trace (snd (App.loadHistoricalData env st w)))
       = provider_events (trace w).
Proof.
  unfold App.loadHistoricalData, AppRouter.getHistoricalData,
    AppRouter.procedure, Schema.getHistoricalDataInputSchema.
  cbn [Schema.raw_limit Schema.raw_symbol Schema.raw_interval
       Schema.raw_startDate Schema.raw_endDate Schema.optional
       Schema.defaulted].
  rewrite enum_symbol_str, enum_interval_str.
  cbn [option_map Schema.limit Z.ltb Z.leb Z.compare Pos.compare
       Pos.compare_cont andb Z.to_nat Pos.to_nat Pos.iter_op Nat.add].
  set (input := mkHistInput _ _ _ _ _).
  pose proof (silent_getHistoricalData env input w) as Hev.
  unfold same_requests in Hev.
  destruct (GetHistoricalData.getHistoricalData env input w)
    as [[ticks|e] w'] eqn:Hrun; cbn [fst snd] in *.
  - apply getHistoricalData_answers in Hrun. destruct Hrun as [-> _].
    exists (RangeQuerySpec.queryHistory env input (rows w)).
    split; [reflexivity|].
    split; [apply queryHistory_newest_first|].
    split; [apply (queryHistory_length env input)|].
    split; [apply queryHistory_symbol; reflexivity | exact Hev].
  - exists []. split; [reflexivity|].
    split; [constructor|].
    split; [simpl; lia|].
    split; [constructor | exact Hev].
Qed.

(** The reload of the prices: an answer of the router, or the prices
    shown before. *)
Lemma loadLatestPrices_reloads (st : App.State) (w : World) :
  exists prices,
    fst (App.loadLatestPrices env st w) = App.setLatestPrices prices st
    /\ provider_events (trace (snd (App.loadLatestPrices env st w)))
       = provider_events (trace w).
Proof.
  unfold App.loadLatestPrices, AppRouter.getLatestPrices,
    AppRouter.procedure.
  pose proof (silent_getLatestPrices_stored env w) as Hev.
  unfold same_requests in Hev.
  destruct (GetLatestPrices.getLatestPrices env false w)
    as [[prices|e] w'] eqn:Hrun; cbn [fst snd] in *.
  - exists prices. split; [reflexivity | exact Hev].
  - exists (App.latestPrices st). split; [| exact Hev].
    destruct st; reflexivity.
Qed.



End AppButtons.

(* ================================================================== *)
(** * DataFetcher.tsx: the selection and the buttons *)

Section DataFetcherButtons.
Variable env : Env.

Lemma includes_In (selected : list StockSymbol) (s : StockSymbol) :
  DataFetcher.includes selected s = true <-> In s selected.
Proof.
  unfold DataFetcher.includes. rewrite existsb_exists. split.
  - intros [x [Hin Hx]]. apply symbol_eqb_eq in Hx. subst. exact Hin.
  - intro Hin. exists s. split; [exact Hin | apply symbol_eqb_refl].
Qed.

Lemma includes_unchecked (selected : list StockSymbol)
    (s t : StockSymbol) :
  DataFetcher.includes
    (filter (fun x => negb (symbol_eqb x s)) selected) t
  = if symbol_eqb t s then false else DataFetcher.includes selected t.
Proof.
  destruct (symbol_eqb t s) eqn:Hts.
  - apply symbol_eqb_eq in Hts. subst t.
    destruct (DataFetcher.includes
                (filter (fun x => negb (symbol_eqb x s)) selected) s)
      eqn:Hi; [|reflexivity].
    apply includes_In in Hi. apply filter_In in Hi.
    destruct Hi as [_ Hi]. rewrite symbol_eqb_refl in Hi. discriminate.
  - destruct (DataFetcher.includes selected t) eqn:Hi.
    + apply includes_In. apply filter_In.
      apply includes_In in Hi. split; [exact Hi|].
      rewrite Hts. reflexivity.
    + destruct (DataFetcher.includes
                  (filter (fun x => negb (symbol_eqb x s)) selected) t)
        eqn:Hf; [|reflexivity].
      apply includes_In in Hf. apply filter_In in Hf.
      destruct Hf as [Hin _]. apply includes_In in Hin. congruence.
Qed.

(** X21 -- A click on a checkbox.  A click on the checkbox of a symbol
    flips that symbol in the selection and no other: afterwards the
    symbol is selected exactly when it was not before, also when the
    selection held it more than once, and every other symbol is
    selected exactly when it was before. *)
Theorem checkbox_click_flips_one_symbol (selectedSymbols : list StockSymbol)
    (symbol other : StockSymbol) :
  DataFetcher.includes
    (DataFetcher.pick (DataFetcher.clickCheckbox symbol) selectedSymbols)
    other
  = if symbol_eqb other symbol
    then negb (DataFetcher.includes selectedSymbols symbol)
    else DataFetcher.includes selectedSymbols other.
Proof.
  unfold DataFetcher.pick, DataFetcher.handleSymbolToggle.
  destruct (DataFetcher.includes selectedSymbols symbol) eqn:Hsel;
    cbn [negb].
  - apply includes_unchecked.
  - unfold DataFetcher.includes at 1. rewrite existsb_app.
    cbn [existsb]. rewrite orb_false_r.
    destruct (symbol_eqb other symbol) eqn:Hos.
    + apply symbol_eqb_eq in Hos. subst other.
      rewrite symbol_eqb_refl. apply orb_true_r.
    + destruct (symbol_eqb symbol other) eqn:Hso; [| apply orb_false_r].
      apply symbol_eqb_eq in Hso. subst other.
      rewrite symbol_eqb_refl in Hos. discriminate.
Qed.

Lemma pick_keeps_distinct (p : DataFetcher.Pick)
    (selected : list StockSymbol) :
  NoDup selected -> NoDup (DataFetcher.pick p selected).
Proof.
  intro Hnd. destruct p as [s| |]; cbn [DataFetcher.pick].
  - unfold DataFetcher.handleSymbolToggle.
    destruct (DataFetcher.includes selected s) eqn:Hsel; cbn [negb].
    + apply NoDup_filter. exact Hnd.
    + apply NoDup_app.
      * exact Hnd.
      * repeat constructor. intros [].
      * intros x Hx [<-|[]].
        apply includes_In in Hx. congruence.
  - repeat constructor; simpl; intuition discriminate.
  - constructor.
Qed.

Lemma picks_keep_distinct (picks : list DataFetcher.Pick) :
  forall selected,
    NoDup selected ->
    NoDup (fold_left (fun sel p => DataFetcher.pick p sel) picks selected).
Proof.
  induction picks as [|p rest IH]; intros selected Hnd; cbn [fold_left].
  - exact Hnd.
  - apply IH. apply pick_keeps_distinct. exact Hnd.
Qed.

Lemma picked_distinct (picks : list DataFetcher.Pick) :
  NoDup (DataFetcher.picked picks).
Proof.
  apply picks_keep_distinct. repeat constructor. intros [].
Qed.

Lemma picked_at_most_six (picks : list DataFetcher.Pick) :
  (List.length (DataFetcher.picked picks) <= 6)%nat.
Proof.
  change 6%nat with (List.length stockSymbolSchema).
  apply NoDup_incl_length; [apply picked_distinct|].
  intros s _. apply stockSymbolSchema_complete.
Qed.

(** X22 -- The selection.  Whatever the user clicks, in whatever order
    (checkboxes, "Select All", "Clear All"), the selection never holds
    a symbol twice and so never more than six symbols; it is either
    empty or a list of symbols that [batchFetchInputSchema] accepts. *)
Theorem selection_stays_within_the_schema (picks : list DataFetcher.Pick) :
  NoDup (DataFetcher.picked picks)
  /\ (List.length (DataFetcher.picked picks) <= 6)%nat
  /\ (DataFetcher.picked picks = []
      \/ symbols_accepted (DataFetcher.picked picks) = true).
Proof.
  split; [apply picked_distinct|].
  split; [apply picked_at_most_six|].
  pose proof (picked_at_most_six picks) as H6.
  unfold symbols_accepted.
  destruct (DataFetcher.picked picks) as [|s rest]; [left; reflexivity|].
  right. apply andb_true_iff. split.
  - reflexivity.
  - apply Nat.leb_le. exact H6.
Qed.

(** The batch request of a selection that the schema accepts. *)
Lemma accepted_batch_returns (symbols : list StockSymbol)
    (interval : Interval) (period : string) (w : World) :
  symbols_accepted symbols = true ->
  exists ticks w',
    AppRouter.batchFetchStocks env
      (Schema.mkBatchRaw symbols (Some interval) (Some period)) w
    = (Success ticks, w')
    /\ provider_events (trace w')
       = provider_events (trace w)
         ++ map (fun s => EvProvider s (interval_str interval) period)
                symbols.
Proof.
  intro Hok.
  unfold AppRouter.batchFetchStocks, AppRouter.procedure,
    Schema.batchFetchInputSchema.
  cbn [Schema.raw_symbols Schema.raw_batch_interval Schema.raw_batch_period
       Schema.default].
  rewrite Hok.
  set (input := mkBatchInput _ _ _).
  pose proof (emits_batchFetchStocks env input w) as Hev.
  destruct (batchFetchStocks_returns env input w) as [ticks [w' Hrun]].
  rewrite Hrun in Hev |- *. cbn [snd] in Hev.
  exists ticks, w'. split; [reflexivity | exact Hev].
Qed.

(** X23 -- The batch button of the DataFetcher.  While a batch is
    running or nothing is selected the button is disabled and a click
    changes nothing: the 'Please select at least one symbol' of
    [handleBatchFetch] cannot be reached from it.  Otherwise the request
    is never refused, whatever the user selected before, and never
    fails: the click always shows the success message, for as many
    symbols as are selected, and turns the loading flag off.  The
    failure text can appear only when the [onDataFetched] callback of
    the parent throws; without a callback there is no error, and the
    provider got one request per selected symbol, in the order of the
    selection. *)
Theorem data_fetcher_batch_button (picks : list DataFetcher.Pick)
    (interval : Interval) (period : string) (loading batchLoading : bool)
    (message error : option DataFetcher.Text)
    (onDataFetched : option (M unit)) (w : World) :
  if batchLoading
     || (List.length (DataFetcher.picked picks) =? 0)%nat
  then
    DataFetcher.batchFetchButton env onDataFetched
      (DataFetcher.mkState (DataFetcher.picked picks) interval period
                           loading batchLoading message error) w
    = (DataFetcher.mkState (DataFetcher.picked picks) interval period
                           loading batchLoading message error, w)
  else
    exists points st' w',
      DataFetcher.batchFetchButton env onDataFetched
        (DataFetcher.mkState (DataFetcher.picked picks) interval period
                             loading batchLoading message error) w
      = (st', w')
      /\ DataFetcher.message st'
         = Some (DataFetcher.fetchedBatch
                   points (List.length (DataFetcher.picked picks)))
      /\ DataFetcher.isBatchLoading st' = false
      /\ DataFetcher.selectedSymbols st' = DataFetcher.picked picks
      /\ match onDataFetched with
         | None =>
             DataFetcher.error st' = None
             /\ provider_events (trace w')
                = provider_events (trace w)
                  ++ map (fun s =>
                            EvProvider s (interval_str interval) period)
                         (DataFetcher.picked picks)
         | Some callback =>
             DataFetcher.error st' = None
             \/ DataFetcher.error st' = Some DataFetcher.failedBatch
         end.
Proof.
  pose proof (picked_at_most_six picks) as H6.
  unfold DataFetcher.batchFetchButton, DataFetcher.Button.
  cbn [DataFetcher.isBatchLoading DataFetcher.selectedSymbols].
  destruct (batchLoading
            || (List.length (DataFetcher.picked picks) =? 0)%nat)
    eqn:Hdis; [reflexivity|].
  apply orb_false_iff in Hdis. destruct Hdis as [_ Hlen].
  apply Nat.eqb_neq in Hlen.
  destruct (DataFetcher.picked picks) as [|s rest] eqn:Hsel;
    [exfalso; apply Hlen; reflexivity|].
  assert (Hok : symbols_accepted (s :: rest) = true).
  { unfold symbols_accepted. apply andb_true_iff.
    split; [reflexivity | apply Nat.leb_le; exact H6]. }
  unfold DataFetcher.handleBatchFetch.
  cbn [DataFetcher.selectedSymbols DataFetcher.selectedInterval
       DataFetcher.selectedPeriod DataFetcher.setMessage
       DataFetcher.setError DataFetcher.setIsBatchLoading
       DataFetcher.isLoading DataFetcher.isBatchLoading
       DataFetcher.message DataFetcher.error].
  destruct (accepted_batch_returns (s :: rest) interval period w Hok)
    as [ticks [w1 [Hrun Hev]]].
  rewrite Hrun. unfold DataFetcher.notify.
  destruct onDataFetched as [callback|].
  - destruct (callback w1) as [[u|e] w2];
      eexists; eexists; eexists;
      (split; [reflexivity|]); (split; [reflexivity|]);
      (split; [reflexivity|]); (split; [reflexivity|]);
      [left | right]; reflexivity.
  - eexists; eexists; eexists.
    split; [reflexivity|]. split; [reflexivity|].
    split; [reflexivity|]. split; [reflexivity|].
    split; [reflexivity | exact Hev].
Qed.


End DataFetcherButtons.

(* ================================================================== *)
(** * The statements on the handlers, on concrete runs *)

Lemma failures_reaching_the_caller_witness :
  (fst (FetchStockData.fetchStockData
          (Sample.env Sample.never provider_down)
          (mkFetchInput AAPL I1m "1d") Sample.empty) = Err ProviderError
   /\ (ProviderError = StoreError \/ ProviderError = ProviderError))
  /\ (fst (GetHistoricalData.getHistoricalData
             (Sample.env Sample.always Sample.no_points)
             (mkHistInput None I1m None None 100) Sample.empty)
      = Err StoreError
      /\ StoreError = StoreError)
  /\ (fst (GetChartData.getChartData
             (Sample.env Sample.always Sample.no_points)
             (mkHistInput None I1m None None 100) Sample.empty)
      = Err StoreError
      /\ StoreError = StoreError)
  /\ (fst (GetLatestPrices.getLatestPrices
             (Sample.env Sample.always Sample.no_points) false
             Sample.empty)
      = Err StoreError
      /\ StoreError = StoreError).
Proof.
  refine (conj (conj eq_refl _)
               (conj (conj eq_refl _)
                     (conj (conj eq_refl _) (conj eq_refl _)))).
  - exact (proj1 (failures_reaching_the_caller
                    (Sample.env Sample.never provider_down))
                 (mkFetchInput AAPL I1m "1d") Sample.empty ProviderError
                 eq_refl).
  - exact (proj1 (proj2 (failures_reaching_the_caller
                           (Sample.env Sample.always Sample.no_points)))
                 (mkHistInput None I1m None None 100) Sample.empty
                 StoreError eq_refl).
  - exact (proj1 (proj2 (proj2 (failures_reaching_the_caller
                                  (Sample.env Sample.always
                                              Sample.no_points))))
                 (mkHistInput None I1m None None 100) Sample.empty
                 StoreError eq_refl).
  - exact (proj2 (proj2 (proj2 (failures_reaching_the_caller
                                  (Sample.env Sample.always
                                              Sample.no_points))))
                 false Sample.empty StoreError eq_refl).
Defined.

Lemma fetchStockData_without_points_witness :
  (exists w',
      FetchStockData.fetchStockData (Sample.env Sample.never provider_down)
        (mkFetchInput AAPL I1m "1d") Sample.empty
      = (Err ProviderError, w')
      /\ rows w' = rows Sample.empty /\ db_ops w' = db_ops Sample.empty
      /\ error_lines (console w') = S (error_lines (console Sample.empty)))
  /\ (exists w',
         FetchStockData.fetchStockData
           (Sample.env Sample.never Sample.no_points)
           (mkFetchInput AAPL I1m "1d") Sample.empty
         = (Ok [], w')
         /\ rows w' = rows Sample.empty /\ db_ops w' = db_ops Sample.empty
         /\ error_lines (console w') = error_lines (console Sample.empty)).
Proof.
  split.
  - exact (proj1 (fetchStockData_without_points
                    (Sample.env Sample.never provider_down)
                    (mkFetchInput AAPL I1m "1d") Sample.empty) eq_refl).
  - exact (proj2 (fetchStockData_without_points
                    (Sample.env Sample.never Sample.no_points)
                    (mkFetchInput AAPL I1m "1d") Sample.empty) eq_refl).
Defined.

Lemma fetchStockData_returns_the_points_witness :
  exists ticks w',
    FetchStockData.fetchStockData
      (Sample.env Sample.never Sample.two_points)
      (mkFetchInput AAPL I1m "1d") Sample.empty
    = (Ok ticks, w')
    /\ map tick_content ticks
       = [(AAPL, 1704103200000, Sample.ohlcv1, "00:01:00");
          (AAPL, 1704103260000, Sample.ohlcv2, "00:01:00")]
    /\ (forall t, In t ticks ->
                  In (natural_key t) (map natural_key (rows w')))
    /\ db_ops w' = 4%nat.
Proof.
  apply (@fetchStockData_returns_the_points
           (Sample.env Sample.never Sample.two_points)
           (mkFetchInput AAPL I1m "1d") Sample.empty
           [mkYahoo 1704103200 Sample.ohlcv1;
            mkYahoo 1704103260 Sample.ohlcv2]).
  - intros m _. reflexivity.
  - split; constructor.
  - reflexivity.
Defined.

Lemma chart_response_shape_witness :
  exists response w',
    GetChartData.getChartData (Sample.env Sample.never Sample.two_points)
      (mkHistInput None I1m None None 100) Sample.empty
    = (Ok response, w')
    /\ chart_interval response = I1m
    /\ (List.length (chart_data response) <= 100)%nat
    /\ chart_symbol response = AAPL
    /\ rows w' = rows Sample.empty
    /\ provider_calls w' = provider_calls Sample.empty.
Proof.
  exact (chart_response_shape
           (Sample.env Sample.never Sample.two_points)
           (mkHistInput None I1m None None 100) Sample.empty eq_refl).
Defined.

Lemma history_ticks_match_the_request_witness :
  exists ticks w',
    GetHistoricalData.getHistoricalData
      (Sample.env Sample.never Sample.no_points)
      (mkHistInput (Some AAPL) I60m None None 100)
      (Sample.with_rows
         [mkStockTick 1 AAPL 1704103200000 Sample.ohlcv1 "01:00:00"
                      1704103200000])
    = (Ok ticks, w')
    /\ forall t, In t ticks ->
         interval t = "1h"
         /\ (forall s, Some AAPL = Some s -> symbol t = s)
         /\ (forall d, @None Z = Some d -> d <= timestamp t)
         /\ (forall d, @None Z = Some d -> timestamp t <= d).
Proof.
  exact (history_ticks_match_the_request
           (Sample.env Sample.never Sample.no_points)
           (mkHistInput (Some AAPL) I60m None None 100)
           (Sample.with_rows
              [mkStockTick 1 AAPL 1704103200000 Sample.ohlcv1 "01:00:00"
                           1704103200000])
           eq_refl eq_refl).
Defined.

Lemma chart_of_fetched_points_witness :
  exists w',
    GetChartData.getChartData
      (Sample.env Sample.never (simulated_chart_provider 1704103200000))
      (mkHistInput (Some AAPL) I1m None None 100) Sample.empty
    = (Ok (mkChart AAPL I1m
                   (firstn 100
                      (rev (map candle_of
                              (ChartSimulation.fetchFromYahooFinance
                                 1704103200000 AAPL "1m" "1d"))))), w')
    /\ List.length (rows w')
       = (List.length (rows Sample.empty)
          + List.length (ChartSimulation.fetchFromYahooFinance
                           1704103200000 AAPL "1m" "1d"))%nat.
Proof.
  apply (@chart_of_fetched_points
           (Sample.env Sample.never (simulated_chart_provider 1704103200000))
           (mkHistInput (Some AAPL) I1m None None 100) AAPL Sample.empty
           (ChartSimulation.fetchFromYahooFinance
              1704103200000 AAPL "1m" "1d"));
    try reflexivity.
  - intros m _. reflexivity.
  - unfold chronological. cbv.
    repeat (constructor; try reflexivity).
Defined.

Lemma fetch_simulation_points_witness :
  (lookup FetchSimulation.intervalMap "1wk" = None ->
   FetchSimulation.getIntervalMinutes "1wk" = Some 1)
  /\ Forall (fun point => FetchSimulation.point_timestamp point = None)
            (FetchSimulation.fetchFromYahooFinance
               0 (fun _ => Sample.ohlcv1) AAPL "constructor" "1d").
Proof.
  split.
  - intro Hnone.
    exact (f_equal Some
             (proj1 (proj2 (proj2 (proj2 (fetch_simulation_points
                                            0 (fun _ => Sample.ohlcv1)
                                            AAPL "1wk" "1d"))))
                    Hnone)).
  - exact (proj2 (proj2 (fetch_simulation_points
                           0 (fun _ => Sample.ohlcv1)
                           AAPL "constructor" "1d"))).
Defined.

Lemma chart_draws_the_oldest_ticks_witness :
  exists ticks w',
    GetHistoricalData.getHistoricalData
      (Sample.env Sample.never Sample.no_points)
      (mkHistInput (Some AAPL) I1m None None 100)
      (Sample.with_rows
         [mkStockTick 1 AAPL 1704103200000 Sample.ohlcv1 "00:01:00"
                      1704103200000;
          mkStockTick 2 AAPL 1704103260000 Sample.ohlcv2 "00:01:00"
                      1704103200000])
    = (Ok ticks, w')
    /\ newest_first ticks
    /\ oldest_first (StockChart.recent ticks).
Proof.
  destruct (@chart_draws_the_oldest_ticks
              (Sample.env Sample.never Sample.no_points)
              (mkHistInput (Some AAPL) I1m None None 100)
              (Sample.with_rows
                 [mkStockTick 1 AAPL 1704103200000 Sample.ohlcv1 "00:01:00"
                              1704103200000;
                  mkStockTick 2 AAPL 1704103260000 Sample.ohlcv2 "00:01:00"
                              1704103200000])
              eq_refl)
    as [ticks [w' [Hrun [Hnf [_ [_ [_ [Hold _]]]]]]]].
  exists ticks, w'.
  split; [exact Hrun|]. split; [exact Hnf | exact Hold].
Defined.
